(** * Hold'em flop helper: hand evaluator, comparator, enumerator, parser

    A shallow embedding of the pure core of [src/app/page.tsx]
    (the functions nested in [PokerFlopTrainer]) together with the
    properties the specification states about it.

    Conventions of the embedding.
    - JavaScript numbers that occur here are small integers; they are [Z].
    - A card [{ r; s }] is a record; the suit string only ever comes from
      [suitChars], so it is an enumeration with its character.
    - [undefined] (an index past the end of an array) is [None]; an entry
      of a rank tuple is therefore an [option Z].
    - A [Map] is an association list in insertion order; [set] on a present
      key updates in place, on an absent key appends.
    - [Array.prototype.sort] is the stable insertion sort [jsSort].
    - Text is a [string] of 7-bit characters; [toUpperCase], [toLowerCase],
      [trim] and the class [\s] are modelled on that range. *)

From Stdlib Require Import Ascii String.
From Stdlib Require Import ZArith List Bool Lia.
From Stdlib Require Import Permutation Sorted FinFun.
Import ListNotations.
Local Open Scope Z_scope.

(** ** JavaScript array helpers *)

Section JsArrays.
Context {A : Type}.

(** [arr.sort(cmp)]: [x] stays before the elements it does not exceed,
    so equal elements keep their order. *)
Fixpoint jsInsert (cmp : A -> A -> Z) (x : A) (l : list A) : list A :=
  match l with
  | [] => [x]
  | y :: l' => if cmp x y <=? 0 then x :: l else y :: jsInsert cmp x l'
  end.

Definition jsSort (cmp : A -> A -> Z) (l : list A) : list A :=
  fold_right (jsInsert cmp) [] l.

(** [arr.slice(0, n)] *)
Definition slice0 (n : nat) (l : list A) : list A := firstn n l.

(** [arr[i]], [undefined] past the end *)
Definition idx (l : list A) (i : nat) : option A := nth_error l i.
End JsArrays.

(** [[...new Set(xs)]]: first occurrences, in order. *)
Fixpoint setOf (seen xs : list Z) : list Z :=
  match xs with
  | [] => []
  | x :: xs' =>
      if existsb (Z.eqb x) seen then setOf seen xs'
      else x :: setOf (x :: seen) xs'
  end.

Definition newSet (xs : list Z) : list Z := setOf [] xs.

Definition ascZ (a b : Z) : Z := a - b.
Definition descZ (a b : Z) : Z := b - a.

(** ** Card utils *)

Inductive Suit : Type := Spades | Hearts | Diamonds | Clubs.

Record Card : Type := mkCard { r : Z; s : Suit }.

Definition suit_eqb (a b : Suit) : bool :=
  match a, b with
  | Spades, Spades | Hearts, Hearts | Diamonds, Diamonds | Clubs, Clubs => true
  | _, _ => false
  end.

Definition rankChars : list ascii :=
  ["2"; "3"; "4"; "5"; "6"; "7"; "8"; "9"; "T"; "J"; "Q"; "K"; "A"]%char.

Definition suitChars : list Suit := [Spades; Hearts; Diamonds; Clubs].

Definition suitChar (x : Suit) : ascii :=
  match x with
  | Spades => "s" | Hearts => "h" | Diamonds => "d" | Clubs => "c"
  end%char.

Definition rankRange : list Z := [2; 3; 4; 5; 6; 7; 8; 9; 10; 11; 12; 13; 14].

Definition makeDeck : list Card :=
  flat_map (fun rk => map (fun su => mkCard rk su) suitChars) rankRange.

Definition cardsEqual (a b : Card) : bool :=
  (r a =? r b) && suit_eqb (s a) (s b).

(** ** Hand evaluation (5-7 cards) *)

Definition RankTuple : Type := list (option Z).

(** [m.set(k, (m.get(k) || 0) + 1)] on an insertion-ordered map *)
Fixpoint bump (k : Z) (m : list (Z * Z)) : list (Z * Z) :=
  match m with
  | [] => [(k, 1)]
  | (k', v) :: m' => if k' =? k then (k', v + 1) :: m' else (k', v) :: bump k m'
  end.

(** [(a,b) => b[1]-a[1] || b[0]-a[0]]: count descending, then rank descending *)
Definition cntCmp (a b : Z * Z) : Z :=
  if negb (snd b - snd a =? 0) then snd b - snd a else fst b - fst a.

Definition countsByRank (cards : list Card) : list (Z * Z) :=
  let m := fold_left (fun m c => bump (r c) m) cards [] in
  jsSort cntCmp m.

(** [if (!m.has(c.s)) m.set(c.s, []); m.get(c.s).push(c)] *)
Fixpoint pushSuit (c : Card) (m : list (Suit * list Card)) : list (Suit * list Card) :=
  match m with
  | [] => [(s c, [c])]
  | (k, cs) :: m' =>
      if suit_eqb k (s c) then (k, cs ++ [c]) :: m' else (k, cs) :: pushSuit c m'
  end.

Definition suitGroups (cards : list Card) : list (Suit * list Card) :=
  fold_left (fun m c => pushSuit c m) cards [].

(** The loop of [bestStraightHigh], from index 1, with [prev = arr[i-1]]. *)
Fixpoint straightLoop (prev : Z) (rest : list Z) (run best : Z) : Z :=
  match rest with
  | [] => best
  | x :: rest' =>
      if x =? prev + 1 then
        let run' := run + 1 in
        straightLoop x rest' run' (if 5 <=? run' then Z.max best x else best)
      else if negb (x =? prev) then straightLoop x rest' 1 best
      else straightLoop x rest' run best
  end.

Definition bestStraightHigh (ranks : list Z) : Z :=
  let arr := jsSort ascZ (newSet ranks) in
  let arr := if existsb (Z.eqb 14) arr then 1 :: arr else arr in
  match arr with
  | [] => 0
  | a0 :: rest => straightLoop a0 rest 1 0
  end.

(** [[...vals].sort((a,b) => b-a).slice(0,n)] *)
Definition topNDesc (vals : list Z) (n : nat) : list Z :=
  slice0 n (jsSort descZ vals).

(** The first loop of [evaluate]: the first suit group of at least five
    cards that holds a straight. *)
Fixpoint straightFlushScan (groups : list (Suit * list Card)) : option Z :=
  match groups with
  | [] => None
  | (_, cs) :: groups' =>
      if (5 <=? length cs)%nat then
        let high := bestStraightHigh (newSet (map r cs)) in
        if 0 <? high then Some high else straightFlushScan groups'
      else straightFlushScan groups'
  end.

(** The flush loop of [evaluate]: the first suit group of at least five
    cards. *)
Fixpoint flushScan (groups : list (Suit * list Card)) : option (list Z) :=
  match groups with
  | [] => None
  | (_, cs) :: groups' =>
      if (5 <=? length cs)%nat then Some (topNDesc (map r cs) 5)
      else flushScan groups'
  end.

(** [cnts.filter(([,c]) => c === n).map(([r]) => r).sort((a,b) => b-a)] *)
Definition ranksWithCount (n : Z) (cnts : list (Z * Z)) : list Z :=
  jsSort descZ (map fst (filter (fun e => snd e =? n) cnts)).

Definition evaluate (cards : list Card) : RankTuple :=
  let bySuit := suitGroups cards in
  match straightFlushScan bySuit with
  | Some high => [Some 8; Some high]
  | None =>
      let cnts := countsByRank cards in
      let quads := ranksWithCount 4 cnts in
      match quads with
      | q :: _ =>
          let k := idx (topNDesc (map r (filter (fun c => negb (r c =? q)) cards)) 1) 0 in
          [Some 7; Some q; k]
      | [] =>
          let trips := ranksWithCount 3 cnts in
          let pairs := ranksWithCount 2 cnts in
          if (2 <=? length trips)%nat
             || ((1 <=? length trips)%nat && (1 <=? length pairs)%nat)
          then
            let t := idx trips 0 in
            let p := if (2 <=? length trips)%nat then idx trips 1 else idx pairs 0 in
            [Some 6; t; p]
          else
            match flushScan bySuit with
            | Some top => Some 5 :: map Some top
            | None =>
                let sh := bestStraightHigh (jsSort ascZ (newSet (map r cards))) in
                if 0 <? sh then [Some 4; Some sh]
                else
                  match trips with
                  | t :: _ =>
                      let ks := topNDesc (map r (filter (fun c => negb (r c =? t)) cards)) 2 in
                      Some 3 :: Some t :: map Some ks
                  | [] =>
                      match pairs with
                      | p1 :: p2 :: _ =>
                          let k := idx (topNDesc (map r (filter
                                     (fun c => negb (r c =? p1) && negb (r c =? p2)) cards)) 1) 0 in
                          [Some 2; Some p1; Some p2; k]
                      | [p] =>
                          let ks := topNDesc (map r (filter (fun c => negb (r c =? p)) cards)) 3 in
                          Some 1 :: Some p :: map Some ks
                      | [] => Some 0 :: map Some (topNDesc (map r cards) 5)
                      end
                  end
            end
      end
  end.

(** [a[i] ?? 0] *)
Definition orZero (a : RankTuple) (i : nat) : Z :=
  match idx a i with
  | Some (Some v) => v
  | _ => 0
  end.

Fixpoint compareLoop (a b : RankTuple) (i todo : nat) : Z :=
  match todo with
  | O => 0
  | S todo' =>
      let av := orZero a i in
      let bv := orZero b i in
      if negb (av =? bv) then av - bv else compareLoop a b (S i) todo'
  end.

Definition compareRankTuples (a b : RankTuple) : Z :=
  compareLoop a b 0 (Nat.max (length a) (length b)).

(** [[...][cat] || ""], where [cat = tuple[0]] may be [undefined] *)
Definition catLabels : list string :=
  ["High Card"; "One Pair"; "Two Pair"; "Three of a Kind"; "Straight";
   "Flush"; "Full House"; "Four of a Kind"; "Straight Flush"]%string.

Definition first0 (t : RankTuple) : option Z :=
  match idx t 0 with
  | Some v => v
  | None => None
  end.

Definition catName (cat : option Z) : string :=
  match cat with
  | Some c => if 0 <=? c then nth (Z.to_nat c) catLabels EmptyString else EmptyString
  | None => EmptyString
  end.

(** ** Card text *)

Definition isSpace (c : ascii) : bool :=
  let n := nat_of_ascii c in
  (((9 <=? n) && (n <=? 13)) || (n =? 32))%nat.

Definition toUpperCase1 (c : ascii) : ascii :=
  let n := nat_of_ascii c in
  if ((97 <=? n) && (n <=? 122))%nat then ascii_of_nat (n - 32) else c.

Definition toLowerCase1 (c : ascii) : ascii :=
  let n := nat_of_ascii c in
  if ((65 <=? n) && (n <=? 90))%nat then ascii_of_nat (n + 32) else c.

Fixpoint dropSpace (cs : list ascii) : list ascii :=
  match cs with
  | [] => []
  | c :: cs' => if isSpace c then dropSpace cs' else cs
  end.

Definition trim (cs : list ascii) : list ascii :=
  rev (dropSpace (rev (dropSpace cs))).

Fixpoint indexOfFrom (i : Z) (x : ascii) (l : list ascii) : Z :=
  match l with
  | [] => -1
  | y :: l' => if Ascii.eqb y x then i else indexOfFrom (i + 1) x l'
  end.

Definition indexOf (l : list ascii) (x : ascii) : Z := indexOfFrom 0 x l.

(** [suitChars.includes(sChar)], with the suit it names *)
Definition suitOfChar (c : ascii) : option Suit :=
  find (fun x => Ascii.eqb (suitChar x) c) suitChars.

Definition cardToStr (c : Card) : string :=
  let rk := if 0 <=? r c - 2 then idx rankChars (Z.to_nat (r c - 2)) else None in
  match rk with
  | Some ch => String ch (String (suitChar (s c)) EmptyString)
  | None => ("undefined" ++ String (suitChar (s c)) EmptyString)%string
  end.

Definition strToCard (t : string) : option Card :=
  let v := map toUpperCase1 (trim (list_ascii_of_string t)) in
  if (length v <? 2)%nat then None
  else
    match v with
    | [] => None
    | rChar :: _ =>
        let sChar := toLowerCase1 (last v rChar) in
        let rIdx := indexOf rankChars rChar in
        if rIdx =? -1 then None
        else
          match suitOfChar sChar with
          | None => None
          | Some su => Some (mkCard (rIdx + 2) su)
          end
    end.

(** [text.split(/\s+/)]: the pieces between maximal runs of white space,
    empty pieces at either end included. *)
Fixpoint splitWs (cur : list ascii) (inWs : bool) (cs : list ascii) : list string :=
  match cs with
  | [] => [string_of_list_ascii (rev cur)]
  | c :: cs' =>
      if isSpace c then
        if inWs then splitWs [] true cs'
        else string_of_list_ascii (rev cur) :: splitWs [] true cs'
      else splitWs (c :: cur) false cs'
  end.

Definition nonEmpty (t : string) : bool :=
  match t with
  | EmptyString => false
  | _ => true
  end.

Definition tokens (text : string) : list string :=
  filter nonEmpty (splitWs [] false (list_ascii_of_string text)).

Fixpoint parseLoop (parts : list string) (cards : list Card) : option (list Card) :=
  match parts with
  | [] => Some cards
  | p :: parts' =>
      match strToCard p with
      | None => None
      | Some c =>
          if existsb (fun x => cardsEqual x c) cards then None
          else parseLoop parts' (cards ++ [c])
      end
  end.

Definition parseCards (text : string) (n : nat) : option (list Card) :=
  let parts := tokens text in
  if negb (length parts =? n)%nat then None else parseLoop parts [].

(** ** Beginner analysis over all opponent combos *)

Record Entry : Type := mkEntry { count : Z; samples : list string }.

(** An object used as a map from label to entry, in insertion order. *)
Definition Breakdown : Type := list (string * Entry).

Inductive Decision : Type := Call | Fold.

Record SimpleResult : Type := mkResult {
  heroCat : string;
  better : Z;
  worse : Z;
  tie : Z;
  betterBreakdown : Breakdown;
  worseBreakdown : Breakdown;
  recommendation : Decision
}.

(** [const i = deck.findIndex(x => cardsEqual(x,c)); if (i>=0) deck.splice(i,1)] *)
Fixpoint rm (c : Card) (deck : list Card) : list Card :=
  match deck with
  | [] => []
  | x :: deck' => if cardsEqual x c then deck' else x :: rm c deck'
  end.

Fixpoint hasLabel (label : string) (b : Breakdown) : bool :=
  match b with
  | [] => false
  | (k, _) :: b' => String.eqb k label || hasLabel label b'
  end.

Fixpoint updateLabel (label : string) (f : Entry -> Entry) (b : Breakdown) : Breakdown :=
  match b with
  | [] => []
  | (k, e) :: b' =>
      if String.eqb k label then (k, f e) :: b' else (k, e) :: updateLabel label f b'
  end.

(** The three statements that follow [better++] (or [worse++]). *)
Definition tally (label sample : string) (b : Breakdown) : Breakdown :=
  let b1 := if hasLabel label b then b else b ++ [(label, mkEntry 0 [])] in
  let b2 := updateLabel label (fun e => mkEntry (count e + 1) (samples e)) b1 in
  updateLabel label
    (fun e => if (length (samples e) <? 3)%nat
              then mkEntry (count e) (samples e ++ [sample]) else e) b2.

Record Tally : Type := mkTally {
  tBetter : Z; tWorse : Z; tTie : Z;
  tBetterBreakdown : Breakdown; tWorseBreakdown : Breakdown
}.

Definition sampleText (a b : Card) : string :=
  (cardToStr a ++ " " ++ cardToStr b)%string.

(** The body of the inner loop for [opp = [x, y]]. *)
Definition visit (flop : list Card) (heroRank : RankTuple) (x y : Card) (t : Tally) : Tally :=
  let oppRank := evaluate ([x; y] ++ flop) in
  let cmp := compareRankTuples oppRank heroRank in
  if 0 <? cmp then
    mkTally (tBetter t + 1) (tWorse t) (tTie t)
      (tally (catName (first0 oppRank)) (sampleText x y) (tBetterBreakdown t))
      (tWorseBreakdown t)
  else if cmp <? 0 then
    mkTally (tBetter t) (tWorse t + 1) (tTie t)
      (tBetterBreakdown t)
      (tally (catName (first0 oppRank)) (sampleText x y) (tWorseBreakdown t))
  else mkTally (tBetter t) (tWorse t) (tTie t + 1) (tBetterBreakdown t) (tWorseBreakdown t).

(** [for i ... for j = i+1 ...]: [x = deck[i]] against every later card. *)
Fixpoint enumerate (flop : list Card) (heroRank : RankTuple) (deck : list Card) (t : Tally) : Tally :=
  match deck with
  | [] => t
  | x :: deck' =>
      enumerate flop heroRank deck'
        (fold_left (fun t y => visit flop heroRank x y t) deck' t)
  end.

Definition remainingDeck (hero flop : list Card) : list Card :=
  fold_left (fun d c => rm c d) flop (fold_left (fun d c => rm c d) hero makeDeck).

(** [better > worse ? "Fold" : "Call"], the decision rule *)
Definition decide (better worse : Z) : Decision :=
  if better >? worse then Fold else Call.

Definition analyzeSimple (hero flop : list Card) : SimpleResult :=
  let deck := remainingDeck hero flop in
  let heroRank := evaluate (hero ++ flop) in
  let t := enumerate flop heroRank deck (mkTally 0 0 0 [] []) in
  mkResult (catName (first0 heroRank)) (tBetter t) (tWorse t) (tTie t)
    (tBetterBreakdown t) (tWorseBreakdown t) (decide (tBetter t) (tWorse t)).

(** ** Reference definitions, written from the specification *)

(** A standard evaluator of exactly five cards: the ranks in descending
    order are matched against the nine patterns, strongest first. *)
Definition classifySorted (flush : bool) (sorted : list Z) : RankTuple :=
  match sorted with
  | [a; b; c; d; e] =>
      let ab := a =? b in
      let bc := b =? c in
      let cd := c =? d in
      let de := d =? e in
      let straight :=
        if ab || bc || cd || de then None
        else if (a =? b + 1) && (b =? c + 1) && (c =? d + 1) && (d =? e + 1) then Some a
        else if (a =? 14) && (b =? 5) && (c =? 4) && (d =? 3) && (e =? 2) then Some 5
        else None in
      match flush, straight with
      | true, Some h => [Some 8; Some h]
      | _, _ =>
        if ab && bc && cd then [Some 7; Some a; Some e]
        else if bc && cd && de then [Some 7; Some b; Some a]
        else if ab && bc && de then [Some 6; Some a; Some d]
        else if ab && cd && de then [Some 6; Some c; Some a]
        else if flush then [Some 5; Some a; Some b; Some c; Some d; Some e]
        else
          match straight with
          | Some h => [Some 4; Some h]
          | None =>
            if ab && bc then [Some 3; Some a; Some d; Some e]
            else if bc && cd then [Some 3; Some b; Some a; Some e]
            else if cd && de then [Some 3; Some c; Some a; Some b]
            else if ab && cd then [Some 2; Some a; Some c; Some e]
            else if ab && de then [Some 2; Some a; Some d; Some c]
            else if bc && de then [Some 2; Some b; Some d; Some a]
            else if ab then [Some 1; Some a; Some c; Some d; Some e]
            else if bc then [Some 1; Some b; Some a; Some d; Some e]
            else if cd then [Some 1; Some c; Some a; Some b; Some e]
            else if de then [Some 1; Some d; Some a; Some b; Some c]
            else [Some 0; Some a; Some b; Some c; Some d; Some e]
          end
      end
  | _ => []
  end.

Definition classify5 (flush : bool) (ranks : list Z) : RankTuple :=
  classifySorted flush (jsSort descZ ranks).

Definition sameSuit (hand : list Card) : bool :=
  match hand with
  | [] => false
  | c :: rest => forallb (fun d => suit_eqb (s d) (s c)) rest
  end.

Definition standard5 (hand : list Card) : RankTuple :=
  classify5 (sameSuit hand) (map r hand).

(** The sub-lists of [k] elements, each chosen once. *)
Fixpoint subsets {A : Type} (k : nat) (l : list A) : list (list A) :=
  match k, l with
  | O, _ => [[]]
  | S _, [] => []
  | S k', x :: l' => map (cons x) (subsets k' l') ++ subsets k l'
  end.

(** The maximum under the comparator (the first one among equals). *)
Definition maxTuple (vs : list RankTuple) : RankTuple :=
  match vs with
  | [] => []
  | v :: vs' =>
      fold_left (fun best w => if 0 <? compareRankTuples w best then w else best) vs' v
  end.

Definition bestOfFive (cards : list Card) : RankTuple :=
  maxTuple (map standard5 (subsets 5 cards)).

(** Lexicographic comparison of the two tuples read as sequences of
    numbers, a missing or undefined position being 0. *)
Definition entry (x : option Z) : Z :=
  match x with Some v => v | None => 0 end.

Fixpoint againstZeros (a : RankTuple) : Z :=
  match a with
  | [] => 0
  | x :: a' => if entry x =? 0 then againstZeros a' else entry x - 0
  end.

Fixpoint lexCompare (a b : RankTuple) : Z :=
  match a with
  | [] => - againstZeros b
  | x :: a' =>
      match b with
      | [] => againstZeros a
      | y :: b' => if entry x =? entry y then lexCompare a' b' else entry x - entry y
      end
  end.

(** A strength value: a category in [0,8] followed by ranks in [2,14]. *)
Definition isRank (x : option Z) : Prop :=
  exists v, x = Some v /\ 2 <= v <= 14.

Definition StrengthValue (t : RankTuple) : Prop :=
  exists cat rest, t = Some cat :: rest /\ 0 <= cat <= 8 /\ Forall isRank rest.

Definition validCard (c : Card) : Prop := 2 <= r c <= 14.

(** A hand the evaluator is specified for. *)
Definition validHand (cards : list Card) : Prop :=
  Forall validCard cards /\ NoDup cards /\ (5 <= length cards <= 7)%nat.

(** Rank [x] is present, the ace counting as 1 as well. *)
Definition rankPresent (cards : list Card) (x : Z) : Prop :=
  In x (map r cards) \/ (x = 1 /\ In 14 (map r cards)).

(** Five consecutive ranks ending in [h] are present. *)
Definition runEndingAt (cards : list Card) (h : Z) : Prop :=
  forall k, 0 <= k < 5 -> rankPresent cards (h - k).

Definition inSuit (x : Suit) (cards : list Card) : list Card :=
  filter (fun c => suit_eqb (s c) x) cards.

Definition ofRank (x : Z) (cards : list Card) : list Card :=
  filter (fun c => r c =? x) cards.

Definition hasFlush (cards : list Card) : Prop :=
  exists x, (5 <= length (inSuit x cards))%nat.

Definition hasQuads (cards : list Card) : Prop :=
  exists x, (4 <= length (ofRank x cards))%nat.

Definition hasFullHouse (cards : list Card) : Prop :=
  exists x y, x <> y /\ (3 <= length (ofRank x cards))%nat
                    /\ (2 <= length (ofRank y cards))%nat.






Definition sevenBit (t : string) : Prop :=
  Forall (fun c => (nat_of_ascii c < 128)%nat) (list_ascii_of_string t).

(** The opponent holdings in the order the two loops visit them:
    [(deck[i], deck[j])] for [i < j]. *)
Fixpoint pairsOf {A : Type} (deck : list A) : list (A * A) :=
  match deck with
  | [] => []
  | x :: deck' => map (pair x) deck' ++ pairsOf deck'
  end.

Definition sumCounts (b : Breakdown) : Z :=
  fold_right (fun e acc => count (snd e) + acc) 0 b.

(** The samples of an entry are at most three and at most its count. *)
Definition samplesBounded (e : Entry) : Prop :=
  Z.of_nat (length (samples e)) <= Z.min 3 (count e).

(** ** The evaluator seen through ranks and one marked suit

    [evaluate] reads the suits only through the two scans of the suit
    groups; [evaluateBy] is its body with the results of the scans given.
    A marked card is a rank with the flag "of the suit that has five
    cards"; [evaluateMarked] and [bestMarked] are the evaluator and the
    reference on marked cards. *)

Definition rankCounts (ranks : list Z) : list (Z * Z) :=
  jsSort cntCmp (fold_left (fun m x => bump x m) ranks []).

Definition evaluateBy (sf : option Z) (fl : option (list Z)) (ranks : list Z) : RankTuple :=
  match sf with
  | Some high => [Some 8; Some high]
  | None =>
      let cnts := rankCounts ranks in
      let quads := ranksWithCount 4 cnts in
      match quads with
      | q :: _ =>
          let k := idx (topNDesc (filter (fun x => negb (x =? q)) ranks) 1) 0 in
          [Some 7; Some q; k]
      | [] =>
          let trips := ranksWithCount 3 cnts in
          let pairs := ranksWithCount 2 cnts in
          if (2 <=? length trips)%nat
             || ((1 <=? length trips)%nat && (1 <=? length pairs)%nat)
          then
            let t := idx trips 0 in
            let p := if (2 <=? length trips)%nat then idx trips 1 else idx pairs 0 in
            [Some 6; t; p]
          else
            match fl with
            | Some top => Some 5 :: map Some top
            | None =>
                let sh := bestStraightHigh (jsSort ascZ (newSet ranks)) in
                if 0 <? sh then [Some 4; Some sh]
                else
                  match trips with
                  | t :: _ =>
                      let ks := topNDesc (filter (fun x => negb (x =? t)) ranks) 2 in
                      Some 3 :: Some t :: map Some ks
                  | [] =>
                      match pairs with
                      | p1 :: p2 :: _ =>
                          let k := idx (topNDesc (filter
                                     (fun x => negb (x =? p1) && negb (x =? p2)) ranks) 1) 0 in
                          [Some 2; Some p1; Some p2; k]
                      | [p] =>
                          let ks := topNDesc (filter (fun x => negb (x =? p)) ranks) 3 in
                          Some 1 :: Some p :: map Some ks
                      | [] => Some 0 :: map Some (topNDesc ranks 5)
                      end
                  end
            end
      end
  end.

(** The two scans when the cards of the only long suit have ranks [long]. *)
Definition straightFlushOf (long : list Z) : option Z :=
  if (5 <=? length long)%nat then
    let high := bestStraightHigh (newSet long) in
    if 0 <? high then Some high else None
  else None.

Definition flushOf (long : list Z) : option (list Z) :=
  if (5 <=? length long)%nat then Some (topNDesc long 5) else None.

Definition Marked : Type := (Z * bool)%type.

Definition markedRanks (m : list Marked) : list Z := map fst (filter snd m).

Definition evaluateMarked (m : list Marked) : RankTuple :=
  evaluateBy (straightFlushOf (markedRanks m)) (flushOf (markedRanks m)) (map fst m).

Definition standard5Marked (hand : list Marked) : RankTuple :=
  classify5 (forallb snd hand) (map fst hand).

Definition bestMarked (m : list Marked) : RankTuple :=
  maxTuple (map standard5Marked (subsets 5 m)).

Definition mark (x : Suit) (c : Card) : Marked := (r c, suit_eqb (s c) x).
Definition unmarked (c : Card) : Marked := (r c, false).

(** The canonical marked hand with long-suit ranks [F] and other ranks [O]. *)
Definition canon (F O : list Z) : list Marked :=
  map (fun x => (x, true)) F ++ map (fun x => (x, false)) O.

(** Value of key [k] in a count map, 0 when absent. *)
Definition look (k : Z) (m : list (Z * Z)) : Z :=
  match find (fun e => fst e =? k) m with
  | Some e => snd e
  | None => 0
  end.

Definition occ (k : Z) (l : list Z) : Z := Z.of_nat (count_occ Z.eq_dec l k).

(** ** Exhaustive checking over canonical hands

    Up to the order of the cards a hand without a long suit is a
    descending list of ranks, and the cards of a long suit are a strictly
    descending one; [allDesc] runs a boolean test over all of them. *)

(** [existsb] and [forallb] that stop at the first decisive element. *)
Fixpoint anyb {A : Type} (f : A -> bool) (l : list A) : bool :=
  match l with
  | [] => false
  | x :: l' => if f x then true else anyb f l'
  end.

Fixpoint allb {A : Type} (f : A -> bool) (l : list A) : bool :=
  match l with
  | [] => true
  | x :: l' => if f x then allb f l' else false
  end.

Fixpoint downto (hi : Z) (n : nat) : list Z :=
  match n with
  | O => []
  | S n' => hi :: downto (hi - 1) n'
  end.

(** The ranks from [hi] down to the deuce. *)
Definition rangeDown (hi : Z) : list Z := downto hi (Z.to_nat (hi - 1)).

(** [P] holds of every descending list of [n] ranks that are at most [hi]. *)
Fixpoint allDesc (n : nat) (hi : Z) (P : list Z -> bool) : bool :=
  match n with
  | O => P []
  | S n' => allb (fun a => allDesc n' a (fun l => P (a :: l))) (rangeDown hi)
  end.

Definition optZ_eqb (a b : option Z) : bool :=
  match a, b with
  | Some x, Some y => x =? y
  | None, None => true
  | _, _ => false
  end.

Fixpoint tuple_eqb (a b : RankTuple) : bool :=
  match a, b with
  | [], [] => true
  | x :: a', y :: b' => optZ_eqb x y && tuple_eqb a' b'
  | _, _ => false
  end.

Definition countOf (x : Z) (l : list Z) : nat := length (filter (Z.eqb x) l).

Definition atMostFour (l : list Z) : bool := allb (fun x => (countOf x l <=? 4)%nat) l.

Fixpoint distinctZ (l : list Z) : bool :=
  match l with
  | [] => true
  | x :: l' => if anyb (Z.eqb x) l' then false else distinctZ l'
  end.

(** The reference on bare ranks, all of one suit ([flush]) or not. *)
Definition bestRanks (flush : bool) (l : list Z) : RankTuple :=
  maxTuple (map (classify5 flush) (subsets 5 l)).

(** The same on a descending list: no sorting, and the comparison in its
    lexicographic form. *)
Definition maxLex (vs : list RankTuple) : RankTuple :=
  match vs with
  | [] => []
  | v :: vs' => fold_left (fun best w => if 0 <? lexCompare w best then w else best) vs' v
  end.

Definition bestSorted (flush : bool) (l : list Z) : RankTuple :=
  maxLex (map (classifySorted flush) (subsets 5 l)).

(** Boolean forms of the straight patterns of the specification. *)
Definition presentb (l : list Z) (x : Z) : bool :=
  if anyb (Z.eqb x) l then true
  else if x =? 1 then anyb (Z.eqb 14) l else false.

Definition runb (l : list Z) (h : Z) : bool :=
  allb (fun k => presentb l (h - k)) [0; 1; 2; 3; 4].

(** The ranks a run of five can end in, highest first. *)
Definition runEnds : list Z := [14; 13; 12; 11; 10; 9; 8; 7; 6; 5].

Definition highestRun (l : list Z) : option Z := find (runb l) runEnds.

Definition quadsb (l : list Z) : bool := anyb (fun x => (4 <=? countOf x l)%nat) l.

Definition fullHouseb (l : list Z) : bool :=
  anyb (fun x =>
    if (3 <=? countOf x l)%nat
    then anyb (fun y => if x =? y then false else (2 <=? countOf y l)%nat) l
    else false) l.

Definition straightOk (e : RankTuple) (l : list Z) : bool :=
  match highestRun l with
  | Some h => tuple_eqb e [Some 4; Some h]
  | None => negb (optZ_eqb (first0 e) (Some 4))
  end.

(** A hand without a long suit, given by its ranks: the evaluator agrees
    with the reference and reports straights as specified. *)
Definition rankCheck (l : list Z) : bool :=
  let e := evaluateBy None None l in
  if tuple_eqb e (bestSorted false l) then
    if quadsb l then true else if fullHouseb l then true else straightOk e l
  else false.

Definition checkRanks (n : nat) : bool :=
  allDesc n 14 (fun l => if atMostFour l then rankCheck l else true).

(** The cards of a long suit, given by their ranks. *)
Definition suitCheck (F : list Z) : bool :=
  tuple_eqb (evaluateBy (straightFlushOf F) (flushOf F) F) (bestSorted true F).

Definition checkSuit (k : nat) : bool :=
  allDesc k 14 (fun F => if distinctZ F then suitCheck F else true).

(** ** How a call of [evaluate] ends

    The body of [evaluate] has no [throw] and performs no operation that
    can fail on an array of cards, so every call returns its tuple. *)




(** ** Notions used in the proofs *)

(** No card occurs twice. *)
Fixpoint distinctb (l : list Card) : bool :=
  match l with
  | [] => true
  | x :: l' => negb (existsb (fun y => cardsEqual y x) l') && distinctb l'
  end.

(** The number of holdings counted so far. *)
Definition total (t : Tally) : Z := tBetter t + tWorse t + tTie t.

(** The effect of [tally] on the entry of its label. *)
Definition tallyStep (sample : string) (e : Entry) : Entry :=
  (fun e => if (length (samples e) <? 3)%nat
            then mkEntry (count e) (samples e ++ [sample]) else e)
    (mkEntry (count e + 1) (samples e)).

(** What every breakdown built by [tally] satisfies. *)
Definition breakdownOk (b : Breakdown) : Prop :=
  NoDup (map fst b) /\ Forall (fun p => samplesBounded (snd p)) b.

(** The breakdowns agree with the two counts. *)
Definition tallyOk (t : Tally) : Prop :=
  breakdownOk (tBetterBreakdown t) /\ breakdownOk (tWorseBreakdown t) /\
  sumCounts (tBetterBreakdown t) = tBetter t /\
  sumCounts (tWorseBreakdown t) = tWorse t.

(** A count map: distinct keys, positive values. *)
Definition countMap (m : list (Z * Z)) : Prop :=
  NoDup (map fst m) /\ Forall (fun e => 0 < snd e) m.

(** One step of [maxTuple]. *)
Definition keepBest (best w : RankTuple) : RankTuple :=
  if 0 <? compareRankTuples w best then w else best.

Definition validMarked (m : list Marked) : Prop :=
  Forall (fun x => 2 <= fst x <= 14) m.

(** The map holds, for each suit seen, exactly the cards of that suit. *)
Definition groupsOf (cards : list Card) (m : list (Suit * list Card)) : Prop :=
  NoDup (map fst m) /\
  (forall k cs, In (k, cs) m -> cs = inSuit k cards) /\
  (forall x, inSuit x cards <> [] -> In x (map fst m)).

(** Suit [x] has fewer than five cards. *)
Definition short (cards : list Card) (x : Suit) : Prop := (length (inSuit x cards) < 5)%nat.

(** The ranks of the cards outside the marked suit. *)
Definition otherRanks (m : list Marked) : list Z :=
  map fst (filter (fun x => negb (snd x)) m).

(** Hands and texts used as examples. *)
Definition AhAd : list Card := [mkCard 14 Hearts; mkCard 14 Diamonds].
Definition Kc7h2d : list Card := [mkCard 13 Clubs; mkCard 7 Hearts; mkCard 2 Diamonds].
Definition sevenCards : list Card :=
  [mkCard 14 Clubs; mkCard 2 Clubs; mkCard 3 Clubs; mkCard 4 Clubs; mkCard 5 Clubs;
   mkCard 9 Hearts; mkCard 9 Spades].
Definition wheel : list Card :=
  [mkCard 14 Spades; mkCard 2 Hearts; mkCard 3 Diamonds; mkCard 4 Clubs; mkCard 5 Spades;
   mkCard 9 Hearts].

(** ** The actions of the page

    The handlers around the analysis. The state hooks of the component
    are the fields of [Page]; a handler is a function on pages. What a
    handler takes from outside (the clock, [Math.random]) is an
    argument. *)

(** [arr.slice(-n)]: the last [n] elements. *)
Definition sliceLast {A : Type} (n : nat) (l : list A) : list A :=
  skipn (length l - n) l.

(** [b[label]] on an object used as a map *)
Fixpoint getLabel (label : string) (b : Breakdown) : option Entry :=
  match b with
  | [] => None
  | (k, e) :: b' => if String.eqb k label then Some e else getLabel label b'
  end.

Definition Decision_eqb (a b : Decision) : bool :=
  match a, b with
  | Call, Call | Fold, Fold => true
  | _, _ => false
  end.

Record Verdict : Type := mkVerdict { correct : bool; expected : Decision }.

(** A row of the hand history; the fields of [h] in [h.id], [h.hole], ... *)
Record HistoryRow : Type := mkRow {
  hId : string; hHole : string; hFlop : string; hHeroCat : string;
  hBetter : Z; hWorse : Z; hTie : Z;
  hRecommendation : Decision; hDecision : Decision; hCorrect : bool
}.

Inductive MiniPick : Type := Gun | Cannoli.

Record Page : Type := mkPage {
  holeText : string; flopText : string; busy : bool;
  simple : option SimpleResult; decision : option Decision;
  verdict : option Verdict; history : list HistoryRow;
  decisions : Z; showMini : bool; miniPick : option MiniPick
}.

(** The state the component starts in. *)
Definition initialPage : Page :=
  mkPage "Ah Ad" "Kc 7h 2d" false None None None [] 0 false None.

(** [t.trim()] on text *)
Definition trimText (t : string) : string :=
  string_of_list_ascii (trim (list_ascii_of_string t)).

(** [userChoice === res.recommendation ||
     (res.better === res.worse && userChoice === "Call")] *)
Definition isCorrect (userChoice : Decision) (res : SimpleResult) : bool :=
  Decision_eqb userChoice (recommendation res)
  || ((better res =? worse res) && Decision_eqb userChoice Call).

(** [evaluateAndRecord]; [None] is the alert, which leaves the state as
    it is. [now] is [new Date().toISOString()]. *)
Definition evaluateAndRecord (now : string) (userChoice : Decision) (p : Page) : option Page :=
  match parseCards (holeText p) 2, parseCards (flopText p) 3 with
  | Some hero, Some flop =>
      let res := analyzeSimple hero flop in
      let ok := isCorrect userChoice res in
      let row := mkRow now (trimText (holeText p)) (trimText (flopText p))
                   (heroCat res) (better res) (worse res) (tie res)
                   (recommendation res) userChoice ok in
      let next := decisions p + 1 in
      let mini := Z.rem next 3 =? 0 in
      Some (mkPage (holeText p) (flopText p) false
              (Some res) (decision p)
              (Some (mkVerdict ok (recommendation res)))
              (sliceLast 200 (history p ++ [row]))
              next
              (if mini then true else showMini p)
              (if mini then None else miniPick p))
  | _, _ => None
  end.

(** [onDecide]: the choice is stored whether or not the cards parse. *)
Definition onDecide (now : string) (userChoice : Decision) (p : Page) : Page :=
  let p' := mkPage (holeText p) (flopText p) (busy p) (simple p) (Some userChoice)
              (verdict p) (history p) (decisions p) (showMini p) (miniPick p) in
  match evaluateAndRecord now userChoice p' with
  | Some q => q
  | None => p'
  end.



(** [Object.entries(b).sort((a,b) => b[1].count - a[1].count)], the rows
    of a breakdown as they are shown *)
Definition byCount (a b : string * Entry) : Z := count (snd b) - count (snd a).

Definition shownRows (b : Breakdown) : Breakdown := jsSort byCount b.

(** ** Notions used to state further properties *)

(** Five consecutive ranks ending in [h] occur in [l], the ace counting
    as 1 as well. *)
Definition hasRun (l : list Z) (h : Z) : Prop :=
  forall k, 0 <= k < 5 -> In (h - k) l \/ (h - k = 1 /\ In 14 l).

(** [P] holds of every strictly descending list of at most [n] ranks
    that are at most [hi]. *)
Fixpoint allStrict (n : nat) (hi : Z) (P : list Z -> bool) : bool :=
  if P [] then
    match n with
    | O => true
    | S n' => allb (fun a => allStrict n' (a - 1) (fun l => P (a :: l))) (rangeDown hi)
    end
  else false.

Definition straightCheck (l : list Z) : bool :=
  bestStraightHigh l =? match highestRun l with Some h => h | None => 0 end.

(** The known cards that are in the deck, each once. *)
Definition knownCards (hero flop : list Card) : list Card :=
  filter (fun x => existsb (fun c => cardsEqual x c) (hero ++ flop)) makeDeck.

(** The opponent holdings [p] that beat ([0 < cmp]) or lose to
    ([cmp < 0]) the hero, and the label they are counted under. *)
Definition oppRankOf (flop : list Card) (p : Card * Card) : RankTuple :=
  evaluate ([fst p; snd p] ++ flop).

Definition beats (flop : list Card) (heroRank : RankTuple) (p : Card * Card) : bool :=
  0 <? compareRankTuples (oppRankOf flop p) heroRank.

Definition loses (flop : list Card) (heroRank : RankTuple) (p : Card * Card) : bool :=
  compareRankTuples (oppRankOf flop p) heroRank <? 0.

Definition labelOf (flop : list Card) (p : Card * Card) : string :=
  catName (first0 (oppRankOf flop p)).

Definition withLabel (sel : Card * Card -> bool) (flop : list Card) (label : string)
    (ps : list (Card * Card)) : list (Card * Card) :=
  filter (fun p => sel p && String.eqb (labelOf flop p) label) ps.

(** The entry that holdings [m], in the order visited, leave under their
    label: their number and the texts of the first three. *)
Definition entryFor (m : list (Card * Card)) : option Entry :=
  match m with
  | [] => None
  | _ :: _ =>
      Some (mkEntry (Z.of_nat (length m))
              (firstn 3 (map (fun p => sampleText (fst p) (snd p)) m)))
  end.

(** The length of the tuple of each category. *)
Definition tupleLength (cat : Z) : nat :=
  if (cat =? 8) || (cat =? 4) then 2
  else if (cat =? 7) || (cat =? 6) then 3
  else if (cat =? 3) || (cat =? 2) then 4
  else if cat =? 1 then 5
  else 6.

(** The test of the full-house branch of [evaluate], on the ranks:
    [trips.length>=2 || (trips.length>=1 && pairs.length>=1)]. *)
Definition fullHouseTest (l : list Z) : bool :=
  let cnts := rankCounts l in
  (2 <=? length (ranksWithCount 3 cnts))%nat
  || ((1 <=? length (ranksWithCount 3 cnts))%nat
      && (1 <=? length (ranksWithCount 2 cnts))%nat).

(** A session: the decisions taken one after the other, each with the
    time it was taken at; and the row that a decision leaves in the
    history when the analysis gave [res]. *)
Definition play (events : list (string * Decision)) (p : Page) : Page :=
  fold_left (fun p e => onDecide (fst e) (snd e) p) events p.

Definition rowOf (p : Page) (res : SimpleResult) (e : string * Decision) : HistoryRow :=
  mkRow (fst e) (trimText (holeText p)) (trimText (flopText p))
    (heroCat res) (better res) (worse res) (tie res)
    (recommendation res) (snd e) (isCorrect (snd e) res).

(** ** The comparator *)

Lemma orZero_cons (x : option Z) (a : RankTuple) (i : nat) :
  orZero (x :: a) (S i) = orZero a i.
Proof. reflexivity. Qed.

Lemma orZero_nil (i : nat) : orZero [] i = 0.
Proof. unfold orZero, idx. now destruct i. Qed.

Lemma orZero_head (x : option Z) (a : RankTuple) : orZero (x :: a) 0 = entry x.
Proof. unfold orZero, idx; simpl. now destruct x. Qed.

Lemma compareLoop_shift (x y : option Z) (a b : RankTuple) (n i : nat) :
  compareLoop (x :: a) (y :: b) (S i) n = compareLoop a b i n.
Proof.
  revert i; induction n as [|n IH]; intros i; simpl; [reflexivity|].
  rewrite !orZero_cons, IH. reflexivity.
Qed.

Lemma compareLoop_shift_l (x : option Z) (a : RankTuple) (n i : nat) :
  compareLoop (x :: a) [] (S i) n = compareLoop a [] i n.
Proof.
  revert i; induction n as [|n IH]; intros i; simpl; [reflexivity|].
  rewrite !orZero_cons, !orZero_nil, IH. reflexivity.
Qed.

Lemma compareLoop_shift_r (y : option Z) (b : RankTuple) (n i : nat) :
  compareLoop [] (y :: b) (S i) n = compareLoop [] b i n.
Proof.
  revert i; induction n as [|n IH]; intros i; simpl; [reflexivity|].
  rewrite !orZero_cons, !orZero_nil, IH. reflexivity.
Qed.

Lemma lexCompare_nil_r (a : RankTuple) : lexCompare a [] = againstZeros a.
Proof. destruct a; reflexivity. Qed.

Lemma compare_is_lex (a b : RankTuple) : compareRankTuples a b = lexCompare a b.
Proof.
  unfold compareRankTuples.
  revert b; induction a as [|x a IH]; intros b.
  - induction b as [|y b IHb]; [reflexivity|].
    simpl Nat.max in *. cbn [length compareLoop].
    rewrite orZero_nil, orZero_head, compareLoop_shift_r, IHb.
    cbn [lexCompare againstZeros].
    destruct (Z.eqb_spec 0 (entry y)) as [E|E].
    + rewrite <- E. reflexivity.
    + destruct (Z.eqb_spec (entry y) 0); [lia|]. simpl. lia.
  - destruct b as [|y b].
    + cbn [length Nat.max compareLoop].
      rewrite orZero_nil, orZero_head, compareLoop_shift_l.
      specialize (IH []). rewrite Nat.max_0_r in IH. rewrite IH, lexCompare_nil_r.
      cbn [lexCompare againstZeros].
      destruct (Z.eqb_spec (entry x) 0) as [E|E]; simpl; [reflexivity|lia].
    + cbn [length Nat.max compareLoop].
      rewrite !orZero_head, compareLoop_shift, IH.
      cbn [lexCompare].
      destruct (Z.eqb_spec (entry x) (entry y)); reflexivity.
Qed.

Lemma lexCompare_refl (a : RankTuple) : lexCompare a a = 0.
Proof.
  induction a as [|x a IH]; simpl; [reflexivity|].
  now rewrite Z.eqb_refl.
Qed.

Lemma lexCompare_opp (a b : RankTuple) : lexCompare b a = - lexCompare a b.
Proof.
  revert b; induction a as [|x a IH]; intros [|y b]; simpl; try lia.
  rewrite (Z.eqb_sym (entry y) (entry x)).
  destruct (Z.eqb_spec (entry x) (entry y)); [apply IH | lia].
Qed.

Lemma lexCompare_trans (a b c : RankTuple) :
  lexCompare a b <= 0 -> lexCompare b c <= 0 -> lexCompare a c <= 0.
Proof.
  revert b c; induction a as [|x a IH]; intros b c.
  - revert c; induction b as [|y b IHb]; intros c; [auto|].
    destruct c as [|z c]; [simpl; lia|].
    cbn [lexCompare againstZeros].
    destruct (Z.eqb_spec (entry y) 0), (Z.eqb_spec (entry y) (entry z)),
      (Z.eqb_spec (entry z) 0); try lia.
    intros H1 H2. apply (IHb c); simpl; auto.
  - destruct b as [|y b], c as [|z c].
    + auto.
    + cbn [lexCompare againstZeros].
      destruct (Z.eqb_spec (entry x) 0), (Z.eqb_spec (entry x) (entry z)),
        (Z.eqb_spec (entry z) 0); try lia.
      intros H1 H2. apply (IH []); [now rewrite lexCompare_nil_r | exact H2].
    + cbn [lexCompare againstZeros].
      destruct (Z.eqb_spec (entry x) 0), (Z.eqb_spec (entry x) (entry y)),
        (Z.eqb_spec (entry y) 0); try lia.
      intros H1 H2. specialize (IH b []). rewrite !lexCompare_nil_r in IH. auto.
    + cbn [lexCompare].
      destruct (Z.eqb_spec (entry x) (entry y)), (Z.eqb_spec (entry y) (entry z)),
        (Z.eqb_spec (entry x) (entry z)); try lia.
      apply IH.
Qed.

Lemma againstZeros_rank (a : RankTuple) :
  Forall isRank a -> againstZeros a = 0 -> a = [].
Proof.
  intros H; destruct H as [|x a [v [-> Hv]] _]; [reflexivity|].
  simpl. destruct (Z.eqb_spec v 0); lia.
Qed.

Lemma lexCompare_zero_ranks (a b : RankTuple) :
  Forall isRank a -> Forall isRank b -> lexCompare a b = 0 -> a = b.
Proof.
  revert b; induction a as [|x a IH]; intros b Ha Hb H.
  - symmetry. apply againstZeros_rank; [exact Hb|]. simpl in H. lia.
  - destruct b as [|y b].
    + apply againstZeros_rank; [exact Ha|]. exact H.
    + inversion Ha as [|? ? [v [-> Hv]] Ha']; inversion Hb as [|? ? [w [-> Hw]] Hb']; subst.
      simpl in H. destruct (Z.eqb_spec v w) as [->|]; [|lia].
      f_equal. now apply IH.
Qed.

Lemma compare_zero_StrengthValue (a b : RankTuple) :
  StrengthValue a -> StrengthValue b -> compareRankTuples a b = 0 -> a = b.
Proof.
  intros (ca & ra & -> & _ & Ha) (cb & rb & -> & _ & Hb).
  rewrite compare_is_lex. simpl.
  destruct (Z.eqb_spec ca cb) as [->|]; [|lia].
  intros H. f_equal. now apply lexCompare_zero_ranks.
Qed.

(** ** Card text *)

Lemma suit_eqb_eq (a b : Suit) : suit_eqb a b = true <-> a = b.
Proof. destruct a, b; simpl; split; congruence. Qed.

Lemma suit_eqb_refl (a : Suit) : suit_eqb a a = true.
Proof. now destruct a. Qed.

Lemma cardsEqual_eq (a b : Card) : cardsEqual a b = true <-> a = b.
Proof.
  destruct a as [ra sa], b as [rb sb]; unfold cardsEqual; simpl.
  rewrite andb_true_iff, Z.eqb_eq, suit_eqb_eq. split.
  - intros [-> ->]; reflexivity.
  - intros H; inversion H; auto.
Qed.

Lemma cardsEqual_refl (a : Card) : cardsEqual a a = true.
Proof. now apply cardsEqual_eq. Qed.

Lemma Card_eq_dec (a b : Card) : {a = b} + {a <> b}.
Proof.
  destruct (cardsEqual a b) eqn:E.
  - left. now apply cardsEqual_eq.
  - right. intros H. apply cardsEqual_eq in H. congruence.
Qed.









(** ** Card sets from text *)

Lemma existsb_cardsEqual (c : Card) (l : list Card) :
  existsb (fun x => cardsEqual x c) l = true <-> In c l.
Proof.
  rewrite existsb_exists. split.
  - intros (x & Hx & E). apply cardsEqual_eq in E. now subst.
  - intros H. exists c. split; [exact H | apply cardsEqual_refl].
Qed.

Lemma parseLoop_Some (parts : list string) (acc cs : list Card) :
  parseLoop parts acc = Some cs <->
  exists new, map strToCard parts = map Some new /\ cs = acc ++ new /\
              NoDup new /\ (forall c, In c new -> ~ In c acc).
Proof.
  revert acc cs; induction parts as [|p parts IH]; intros acc cs; simpl.
  - split.
    + intros H; inversion H; subst. exists []. rewrite app_nil_r.
      repeat split; auto using NoDup_nil.
    + intros ([|x new] & Hm & -> & _); [now rewrite app_nil_r | discriminate].
  - destruct (strToCard p) as [c|] eqn:Ep.
    + destruct (existsb (fun x => cardsEqual x c) acc) eqn:Ex.
      * split; [discriminate|].
        intros ([|x new] & Hm & _ & _ & Hnot); [discriminate|].
        inversion Hm; subst x. exfalso. apply (Hnot c); [now left|].
        now apply existsb_cardsEqual.
      * rewrite IH. split.
        -- intros (new & Hm & -> & Hnd & Hnot). exists (c :: new).
           rewrite <- app_assoc. simpl. repeat split.
           ++ now rewrite Hm.
           ++ constructor; [|exact Hnd]. intros Hin. apply (Hnot c Hin).
              apply in_or_app. right. now left.
           ++ intros c' [<-|Hin] Hacc.
              ** apply existsb_cardsEqual in Hacc. congruence.
              ** apply (Hnot c' Hin). apply in_or_app. now left.
        -- intros ([|x new] & Hm & -> & Hnd & Hnot); [discriminate|].
           inversion Hm; subst x. exists new. rewrite <- app_assoc. simpl.
           inversion Hnd; subst. repeat split; auto.
           intros c' Hin Hacc. apply in_app_or in Hacc. destruct Hacc as [Hacc|[<-|[]]].
           ++ apply (Hnot c'); [now right | exact Hacc].
           ++ contradiction.
    + split; [discriminate|]. intros ([|x new] & Hm & _); discriminate.
Qed.



Lemma parseCards_Some (text : string) (n : nat) (cs : list Card) :
  parseCards text n = Some cs <->
  length (tokens text) = n /\ map strToCard (tokens text) = map Some cs /\ NoDup cs.
Proof.
  unfold parseCards.
  destruct (Nat.eqb_spec (length (tokens text)) n) as [E|E]; simpl.
  - rewrite parseLoop_Some. split.
    + intros (new & Hm & -> & Hnd & _). simpl. auto.
    + intros (_ & Hm & Hnd). exists cs. simpl. repeat split; auto.
  - split; [discriminate|]. intros (H & _). contradiction.
Qed.


Lemma splitWs_no_space (cs cur : list ascii) (inWs : bool) :
  Forall (fun c => isSpace c = false) cur ->
  Forall (fun t => Forall (fun c => isSpace c = false) (list_ascii_of_string t))
         (splitWs cur inWs cs).
Proof.
  revert cur inWs; induction cs as [|c cs IH]; intros cur inWs Hcur; simpl.
  - constructor; [|constructor].
    rewrite list_ascii_of_string_of_list_ascii.
    apply Forall_forall. intros x Hx. apply in_rev in Hx.
    rewrite Forall_forall in Hcur. auto.
  - destruct (isSpace c) eqn:Ec.
    + destruct inWs.
      * apply IH. constructor.
      * constructor; [|apply IH; constructor].
        rewrite list_ascii_of_string_of_list_ascii.
        apply Forall_forall. intros x Hx. apply in_rev in Hx.
        rewrite Forall_forall in Hcur. auto.
    + apply IH. now constructor.
Qed.

Lemma tokens_shape (text : string) :
  Forall (fun t => t <> EmptyString /\
                   Forall (fun c => isSpace c = false) (list_ascii_of_string t))
         (tokens text).
Proof.
  unfold tokens. apply Forall_forall. intros t Ht.
  apply filter_In in Ht. destruct Ht as [Hin Hne]. split.
  - intros ->. discriminate.
  - pose proof (splitWs_no_space (list_ascii_of_string text) [] false (Forall_nil _)) as H.
    rewrite Forall_forall in H. now apply H.
Qed.



(** ** The deck *)

Lemma makeDeck_valid (c : Card) : In c makeDeck <-> validCard c.
Proof.
  unfold makeDeck, validCard. rewrite in_flat_map. split.
  - intros (rk & Hrk & Hc). apply in_map_iff in Hc. destruct Hc as (su & <- & _).
    simpl in *. lia.
  - intros H. exists (r c). split.
    + simpl. lia.
    + destruct c as [rk su]; simpl. destruct su; auto.
Qed.

Lemma distinctb_NoDup (l : list Card) : distinctb l = true <-> NoDup l.
Proof.
  induction l as [|x l IH]; simpl.
  - split; auto using NoDup_nil.
  - rewrite andb_true_iff, negb_true_iff, IH, NoDup_cons_iff.
    rewrite <- not_true_iff_false, existsb_cardsEqual. tauto.
Qed.

Lemma makeDeck_NoDup : NoDup makeDeck.
Proof. apply distinctb_NoDup. vm_compute. reflexivity. Qed.

Lemma rm_length (c : Card) (d : list Card) :
  In c d -> S (length (rm c d)) = length d.
Proof.
  induction d as [|x d IH]; simpl; [tauto|]. intros H.
  destruct (cardsEqual x c) eqn:E; [reflexivity|].
  simpl. f_equal. apply IH. destruct H as [->|H]; [|exact H].
  rewrite cardsEqual_refl in E. discriminate.
Qed.

Lemma rm_In (c x : Card) (d : list Card) :
  NoDup d -> (In x (rm c d) <-> In x d /\ x <> c).
Proof.
  induction d as [|y d IH]; simpl; [tauto|]. intros Hnd.
  inversion Hnd as [|? ? Hy Hd]; subst.
  destruct (cardsEqual y c) eqn:E.
  - apply cardsEqual_eq in E. subst y. split.
    + intros Hx. split; [now right|]. intros ->. contradiction.
    + intros [[->|Hx] Hne]; [contradiction | exact Hx].
  - assert (y <> c) by (intros ->; rewrite cardsEqual_refl in E; discriminate).
    simpl. rewrite (IH Hd). split.
    + intros [->|[Hx Hne]]; auto.
    + intros [[->|Hx] Hne]; auto.
Qed.

Lemma rm_NoDup (c : Card) (d : list Card) : NoDup d -> NoDup (rm c d).
Proof.
  induction d as [|y d IH]; simpl; [auto|]. intros Hnd.
  inversion Hnd as [|? ? Hy Hd]; subst.
  destruct (cardsEqual y c); [exact Hd|].
  constructor; [|auto]. intros Hin. apply (rm_In c y d Hd) in Hin. tauto.
Qed.

Lemma rm_all (known d : list Card) :
  NoDup d -> NoDup known -> (forall c, In c known -> In c d) ->
  let d' := fold_left (fun d c => rm c d) known d in
  (length d' + length known = length d)%nat /\ NoDup d' /\
  (forall x, In x d' <-> In x d /\ ~ In x known).
Proof.
  revert d; induction known as [|k known IH]; intros d Hd Hk Hin; simpl.
  - split; [lia|]. split; [exact Hd|]. tauto.
  - inversion Hk as [|? ? Hk1 Hk2]; subst.
    destruct (IH (rm k d)) as (Hlen & Hnd & Hmem).
    + now apply rm_NoDup.
    + exact Hk2.
    + intros c Hc. apply rm_In; [exact Hd|]. split; [apply Hin; now right|].
      intros ->. contradiction.
    + split; [|split; [exact Hnd|]].
      * pose proof (rm_length k d (Hin k (or_introl eq_refl))). lia.
      * intros x. rewrite Hmem, (rm_In k x d Hd). split.
        -- intros [[H1 H2] H3]. split; [exact H1|]. intros [->|H4]; tauto.
        -- intros [H1 H2]. split; [split; [exact H1|]|].
           ++ intros ->. apply H2. now left.
           ++ intros H3. apply H2. now right.
Qed.

Lemma remainingDeck_fold (hero flop : list Card) :
  remainingDeck hero flop = fold_left (fun d c => rm c d) (hero ++ flop) makeDeck.
Proof. unfold remainingDeck. now rewrite fold_left_app. Qed.

Lemma remainingDeck_spec (hero flop : list Card) :
  Forall validCard (hero ++ flop) -> NoDup (hero ++ flop) ->
  (length (remainingDeck hero flop) + length (hero ++ flop) = 52)%nat /\
  NoDup (remainingDeck hero flop) /\
  (forall x, In x (remainingDeck hero flop) <-> validCard x /\ ~ In x (hero ++ flop)).
Proof.
  intros Hv Hnd. rewrite remainingDeck_fold.
  destruct (rm_all (hero ++ flop) makeDeck makeDeck_NoDup Hnd) as (H1 & H2 & H3).
  - intros c Hc. apply makeDeck_valid. rewrite Forall_forall in Hv. auto.
  - split; [exact H1|]. split; [exact H2|].
    intros x. rewrite H3, makeDeck_valid. tauto.
Qed.

(** ** The enumeration *)

Lemma enumerate_pairs (flop : list Card) (hr : RankTuple) (deck : list Card) (t : Tally) :
  enumerate flop hr deck t =
  fold_left (fun t p => visit flop hr (fst p) (snd p) t) (pairsOf deck) t.
Proof.
  revert t; induction deck as [|x deck IH]; intros t; simpl; [reflexivity|].
  rewrite fold_left_app, IH. f_equal.
  clear IH. revert t. induction deck as [|y deck IHd]; intros t; simpl; [reflexivity|].
  apply IHd.
Qed.

Lemma pairsOf_length {A : Type} (deck : list A) :
  (2 * length (pairsOf deck) = length deck * (length deck - 1))%nat.
Proof.
  induction deck as [|x deck IH]; simpl; [reflexivity|].
  rewrite length_app, length_map. nia.
Qed.

Lemma pairsOf_In {A : Type} (deck : list A) (x y : A) :
  In (x, y) (pairsOf deck) <->
  exists i j, (i < j)%nat /\ nth_error deck i = Some x /\ nth_error deck j = Some y.
Proof.
  induction deck as [|z deck IH]; simpl.
  - split; [tauto|]. intros (i & j & _ & H & _). destruct i; discriminate.
  - rewrite in_app_iff, in_map_iff, IH. split.
    + intros [(y' & E & Hy)|(i & j & Hij & Hi & Hj)].
      * inversion E; subst. apply In_nth_error in Hy. destruct Hy as [j Hj].
        exists 0%nat, (S j). simpl. repeat split; auto. lia.
      * exists (S i), (S j). simpl. repeat split; auto. lia.
    + intros (i & j & Hij & Hi & Hj).
      destruct j as [|j]; [lia|]. simpl in Hj. destruct i as [|i]; simpl in Hi.
      * inversion Hi; subst. left. exists y. split; [reflexivity|].
        eapply nth_error_In; eauto.
      * right. exists i, j. repeat split; auto. lia.
Qed.

Lemma pairsOf_incl {A : Type} (deck : list A) (x y : A) :
  In (x, y) (pairsOf deck) -> In x deck /\ In y deck.
Proof.
  rewrite pairsOf_In. intros (i & j & _ & Hi & Hj).
  split; eapply nth_error_In; eauto.
Qed.

Lemma pairsOf_NoDup {A : Type} (deck : list A) : NoDup deck -> NoDup (pairsOf deck).
Proof.
  induction deck as [|z deck IH]; simpl; intros Hnd; [constructor|].
  inversion Hnd as [|? ? Hz Hd]; subst.
  apply NoDup_app.
  - apply Injective_map_NoDup; [|exact Hd]. intros a b E. now inversion E.
  - auto.
  - intros [a b] H1 H2. apply in_map_iff in H1. destruct H1 as (y & E & _).
    inversion E; subst. apply pairsOf_incl in H2. tauto.
Qed.

Lemma pairsOf_once {A : Type} (deck : list A) (x y : A) :
  NoDup deck -> In (x, y) (pairsOf deck) -> x <> y /\ ~ In (y, x) (pairsOf deck).
Proof.
  intros Hnd H. apply pairsOf_In in H. destruct H as (i & j & Hij & Hi & Hj).
  split.
  - intros ->. rewrite <- Hj in Hi.
    apply (proj1 (NoDup_nth_error deck) Hnd) in Hi; [lia|].
    apply nth_error_Some. rewrite Hi, Hj. discriminate.
  - intros H. apply pairsOf_In in H. destruct H as (j' & i' & Hij' & Hj' & Hi').
    assert (i = i').
    { rewrite <- Hi' in Hi. apply (proj1 (NoDup_nth_error deck) Hnd) in Hi; auto.
      apply nth_error_Some. rewrite Hi, Hi'. discriminate. }
    assert (j = j').
    { rewrite <- Hj' in Hj. apply (proj1 (NoDup_nth_error deck) Hnd) in Hj; auto.
      apply nth_error_Some. rewrite Hj, Hj'. discriminate. }
    lia.
Qed.

Lemma pairsOf_every {A : Type} (deck : list A) (x y : A) :
  In x deck -> In y deck -> x <> y ->
  In (x, y) (pairsOf deck) \/ In (y, x) (pairsOf deck).
Proof.
  intros Hx Hy Hne. apply In_nth_error in Hx, Hy.
  destruct Hx as [i Hi], Hy as [j Hj]. rewrite !pairsOf_In.
  destruct (Nat.lt_trichotomy i j) as [H|[H|H]].
  - left. now exists i, j.
  - subst. congruence.
  - right. now exists j, i.
Qed.

Lemma visit_total (flop : list Card) (hr : RankTuple) (x y : Card) (t : Tally) :
  total (visit flop hr x y t) = total t + 1.
Proof.
  unfold visit, total.
  destruct (0 <? _); [simpl; lia|]. destruct (_ <? 0); simpl; lia.
Qed.

Lemma fold_visit_total (flop : list Card) (hr : RankTuple) (ps : list (Card * Card)) (t : Tally) :
  total (fold_left (fun t p => visit flop hr (fst p) (snd p) t) ps t) =
  total t + Z.of_nat (length ps).
Proof.
  revert t; induction ps as [|p ps IH]; intros t; simpl length; [simpl; lia|].
  cbn [fold_left]. rewrite IH, visit_total. lia.
Qed.

(** ** The breakdowns *)

Lemma updateLabel_twice (l : string) (f g : Entry -> Entry) (b : Breakdown) :
  updateLabel l g (updateLabel l f b) = updateLabel l (fun e => g (f e)) b.
Proof.
  induction b as [|[k e] b IH]; simpl; [reflexivity|].
  destruct (String.eqb k l) eqn:E; simpl; rewrite E; [reflexivity|].
  now rewrite IH.
Qed.

Lemma updateLabel_keys (l : string) (f : Entry -> Entry) (b : Breakdown) :
  map fst (updateLabel l f b) = map fst b.
Proof.
  induction b as [|[k e] b IH]; simpl; [reflexivity|].
  destruct (String.eqb k l); simpl; [reflexivity|]. now rewrite IH.
Qed.

Lemma hasLabel_In (l : string) (b : Breakdown) :
  hasLabel l b = true <-> In l (map fst b).
Proof.
  induction b as [|[k e] b IH]; simpl; [split; [discriminate|tauto]|].
  rewrite orb_true_iff, IH, String.eqb_eq. tauto.
Qed.

Lemma sumCounts_app (b b' : Breakdown) : sumCounts (b ++ b') = sumCounts b + sumCounts b'.
Proof.
  induction b as [|[k e] b IH]; simpl; [reflexivity|].
  unfold sumCounts in *. simpl. rewrite IH. lia.
Qed.

Lemma sumCounts_update (l : string) (f : Entry -> Entry) (b : Breakdown) :
  (forall e, count (f e) = count e + 1) -> hasLabel l b = true ->
  sumCounts (updateLabel l f b) = sumCounts b + 1.
Proof.
  intros Hf. induction b as [|[k e] b IH]; simpl; [discriminate|].
  destruct (String.eqb k l); simpl; intros H; unfold sumCounts in *; simpl.
  - rewrite Hf. lia.
  - rewrite IH by exact H. lia.
Qed.

Lemma Forall_update (P : Entry -> Prop) (l : string) (f : Entry -> Entry) (b : Breakdown) :
  (forall e, P e -> P (f e)) ->
  Forall (fun p => P (snd p)) b -> Forall (fun p => P (snd p)) (updateLabel l f b).
Proof.
  intros Hf. induction 1 as [|[k e] b He Hb IH]; simpl; [constructor|].
  destruct (String.eqb k l); constructor; simpl in *; auto.
Qed.

Lemma tally_unfold (label sample : string) (b : Breakdown) :
  tally label sample b =
  updateLabel label (tallyStep sample)
    (if hasLabel label b then b else b ++ [(label, mkEntry 0 [])]).
Proof. unfold tally. now rewrite updateLabel_twice. Qed.

Lemma tallyStep_count (sample : string) (e : Entry) :
  count (tallyStep sample e) = count e + 1.
Proof. unfold tallyStep. simpl. now destruct (_ <? 3)%nat. Qed.

Lemma tallyStep_bounded (sample : string) (e : Entry) :
  samplesBounded e -> samplesBounded (tallyStep sample e).
Proof.
  unfold samplesBounded, tallyStep. simpl. intros H.
  destruct (Nat.ltb_spec (length (samples e)) 3); simpl.
  - rewrite length_app. simpl. lia.
  - lia.
Qed.

Lemma tally_ok (label sample : string) (b : Breakdown) :
  breakdownOk b ->
  breakdownOk (tally label sample b) /\
  sumCounts (tally label sample b) = sumCounts b + 1.
Proof.
  intros [Hk Hb]. rewrite tally_unfold.
  destruct (hasLabel label b) eqn:E.
  - split; [split|].
    + now rewrite updateLabel_keys.
    + apply Forall_update; [apply tallyStep_bounded | exact Hb].
    + apply sumCounts_update; [apply tallyStep_count | exact E].
  - assert (Hnew : hasLabel label (b ++ [(label, mkEntry 0 [])]) = true).
    { apply hasLabel_In. rewrite map_app. apply in_or_app. right. now left. }
    split; [split|].
    + rewrite updateLabel_keys, map_app. simpl.
      apply NoDup_app; [exact Hk | repeat constructor; auto |].
      intros a Ha [<-|[]]. apply hasLabel_In in Ha. congruence.
    + apply Forall_update; [apply tallyStep_bounded|].
      apply Forall_app. split; [exact Hb|]. constructor; [|constructor].
      unfold samplesBounded. simpl. lia.
    + rewrite sumCounts_update by (apply tallyStep_count || exact Hnew).
      rewrite sumCounts_app. unfold sumCounts at 2. simpl. lia.
Qed.

Lemma visit_ok (flop : list Card) (hr : RankTuple) (x y : Card) (t : Tally) :
  tallyOk t -> tallyOk (visit flop hr x y t).
Proof.
  intros (Hb & Hw & Sb & Sw). unfold visit, tallyOk.
  set (label := catName (first0 (evaluate ([x; y] ++ flop)))).
  destruct (tally_ok label (sampleText x y) _ Hb) as [B1 B2].
  destruct (tally_ok label (sampleText x y) _ Hw) as [W1 W2].
  destruct (0 <? _); [|destruct (_ <? 0)];
    cbn [tBetterBreakdown tWorseBreakdown tBetter tWorse];
    repeat split; try apply B1; try apply W1; try apply Hb; try apply Hw; lia.
Qed.

Lemma fold_visit_ok (flop : list Card) (hr : RankTuple) (ps : list (Card * Card)) (t : Tally) :
  tallyOk t ->
  tallyOk (fold_left (fun t p => visit flop hr (fst p) (snd p) t) ps t).
Proof.
  revert t; induction ps as [|p ps IH]; intros t Ht; simpl; [exact Ht|].
  apply IH. now apply visit_ok.
Qed.

Lemma tallyOk_init : tallyOk (mkTally 0 0 0 [] []).
Proof. repeat split; simpl; constructor. Qed.

(** ** Sorting *)

Section SortFacts.
Context {A : Type} (cmp : A -> A -> Z).

Let le (x y : A) : Prop := cmp x y <= 0.

Lemma jsInsert_perm (x : A) (l : list A) : Permutation (jsInsert cmp x l) (x :: l).
Proof.
  induction l as [|y l IH]; simpl; [reflexivity|].
  destruct (cmp x y <=? 0); [reflexivity|].
  rewrite IH. apply perm_swap.
Qed.

Lemma jsSort_perm (l : list A) : Permutation (jsSort cmp l) l.
Proof.
  induction l as [|x l IH]; simpl; [reflexivity|].
  rewrite jsInsert_perm. now constructor.
Qed.

Lemma jsSort_length (l : list A) : length (jsSort cmp l) = length l.
Proof. apply Permutation_length, jsSort_perm. Qed.

Lemma jsSort_In (l : list A) (x : A) : In x (jsSort cmp l) <-> In x l.
Proof.
  split; apply Permutation_in; [|symmetry]; apply jsSort_perm.
Qed.

Hypothesis le_total : forall x y, le x y \/ le y x.
Hypothesis le_trans : forall x y z, le x y -> le y z -> le x z.
Hypothesis le_antisym : forall x y, le x y -> le y x -> x = y.

Lemma jsInsert_sorted (x : A) (l : list A) :
  StronglySorted le l -> StronglySorted le (jsInsert cmp x l).
Proof.
  induction 1 as [|y l Hl IH Hy]; simpl.
  - repeat constructor.
  - destruct (Z.leb_spec (cmp x y) 0) as [H|H].
    + constructor; [now constructor|].
      constructor; [exact H|].
      eapply Forall_impl; [|exact Hy]. intros z Hz. now apply le_trans with y.
    + constructor; [exact IH|].
      assert (Hyx : le y x) by (destruct (le_total x y); [unfold le in *; lia | assumption]).
      apply Forall_forall. intros z Hz.
      apply (Permutation_in _ (jsInsert_perm x l)) in Hz.
      destruct Hz as [<-|Hz]; [exact Hyx|].
      rewrite Forall_forall in Hy. auto.
Qed.

Lemma jsSort_sorted (l : list A) : StronglySorted le (jsSort cmp l).
Proof.
  induction l as [|x l IH]; simpl; [constructor|]. now apply jsInsert_sorted.
Qed.

Lemma sorted_perm_eq (l l' : list A) :
  StronglySorted le l -> StronglySorted le l' -> Permutation l l' -> l = l'.
Proof.
  intros Hl; revert l'; induction Hl as [|x l Hl IH Hx]; intros l' Hl' Hp.
  - apply Permutation_nil in Hp. now subst.
  - destruct Hl' as [|y l' Hl' Hy].
    + symmetry in Hp. apply Permutation_nil in Hp. discriminate.
    + assert (E : x = y).
      { rewrite Forall_forall in Hx, Hy. apply le_antisym.
        - assert (Hin : In y (x :: l)) by (eapply Permutation_in; [symmetry; exact Hp | now left]).
          destruct Hin as [->|Hin]; [destruct (le_total y y); assumption | auto].
        - assert (Hin : In x (y :: l')) by (eapply Permutation_in; [exact Hp | now left]).
          destruct Hin as [->|Hin]; [destruct (le_total x x); assumption | auto]. }
      subst y. f_equal. apply IH; [exact Hl'|]. eapply Permutation_cons_inv; eauto.
Qed.

Lemma jsSort_Permutation (l l' : list A) :
  Permutation l l' -> jsSort cmp l = jsSort cmp l'.
Proof.
  intros Hp. apply sorted_perm_eq; try apply jsSort_sorted.
  rewrite !jsSort_perm. exact Hp.
Qed.

Lemma jsSort_sorted_id (l : list A) : StronglySorted le l -> jsSort cmp l = l.
Proof.
  intros Hl. apply sorted_perm_eq; [apply jsSort_sorted | exact Hl | apply jsSort_perm].
Qed.
End SortFacts.

Lemma sortAsc_Permutation (l l' : list Z) :
  Permutation l l' -> jsSort ascZ l = jsSort ascZ l'.
Proof. apply jsSort_Permutation; unfold ascZ; intros; lia. Qed.

Lemma sortDesc_Permutation (l l' : list Z) :
  Permutation l l' -> jsSort descZ l = jsSort descZ l'.
Proof. apply jsSort_Permutation; unfold descZ; intros; lia. Qed.

Lemma cntCmp_le (a b : Z * Z) :
  cntCmp a b <= 0 <-> snd b < snd a \/ (snd b = snd a /\ fst b <= fst a).
Proof.
  unfold cntCmp. destruct (Z.eqb_spec (snd b - snd a) 0); simpl; lia.
Qed.

Lemma sortCnt_Permutation (l l' : list (Z * Z)) :
  Permutation l l' -> jsSort cntCmp l = jsSort cntCmp l'.
Proof.
  apply jsSort_Permutation.
  - intros x y. rewrite !cntCmp_le. lia.
  - intros x y z. rewrite !cntCmp_le. lia.
  - intros [x1 x2] [y1 y2]. rewrite !cntCmp_le. simpl. intros. f_equal; lia.
Qed.

Lemma filter_Permutation {A : Type} (p : A -> bool) (l l' : list A) :
  Permutation l l' -> Permutation (filter p l) (filter p l').
Proof.
  induction 1 as [|x l l' H IH|x y l|l l' l'' H1 IH1 H2 IH2]; simpl.
  - reflexivity.
  - destruct (p x); auto.
  - destruct (p x), (p y); auto using perm_swap.
  - now transitivity (filter p l').
Qed.

(** ** Sets of ranks *)

Lemma existsb_eqb_In (x : Z) (l : list Z) : existsb (Z.eqb x) l = true <-> In x l.
Proof.
  rewrite existsb_exists. split.
  - intros (y & Hy & E). apply Z.eqb_eq in E. now subst.
  - intros H. exists x. split; [exact H | apply Z.eqb_refl].
Qed.

Lemma setOf_In (xs seen : list Z) (x : Z) :
  In x (setOf seen xs) <-> In x xs /\ ~ In x seen.
Proof.
  revert seen; induction xs as [|y xs IH]; intros seen; simpl; [tauto|].
  destruct (existsb (Z.eqb y) seen) eqn:E.
  - apply existsb_eqb_In in E. rewrite IH. split; [tauto|].
    intros [[->|H] Hn]; tauto.
  - assert (~ In y seen) by (rewrite <- existsb_eqb_In; congruence).
    simpl. rewrite IH. simpl. split.
    + intros [->|[H1 H2]]; tauto.
    + intros [[->|H1] H2]; [tauto|].
      destruct (Z.eq_dec y x); [tauto|]. right. tauto.
Qed.

Lemma setOf_NoDup (xs seen : list Z) : NoDup (setOf seen xs).
Proof.
  revert seen; induction xs as [|y xs IH]; intros seen; simpl; [constructor|].
  destruct (existsb (Z.eqb y) seen); [apply IH|].
  constructor; [|apply IH]. rewrite setOf_In. simpl. tauto.
Qed.

Lemma newSet_In (xs : list Z) (x : Z) : In x (newSet xs) <-> In x xs.
Proof. unfold newSet. rewrite setOf_In. simpl. tauto. Qed.

Lemma newSet_NoDup (xs : list Z) : NoDup (newSet xs).
Proof. apply setOf_NoDup. Qed.

Lemma newSet_Permutation (l l' : list Z) :
  Permutation l l' -> Permutation (newSet l) (newSet l').
Proof.
  intros Hp. apply NoDup_Permutation; try apply newSet_NoDup.
  intros x. rewrite !newSet_In. split; apply Permutation_in; [|symmetry]; exact Hp.
Qed.

Lemma bestStraightHigh_Permutation (l l' : list Z) :
  Permutation l l' -> bestStraightHigh l = bestStraightHigh l'.
Proof.
  intros Hp. unfold bestStraightHigh.
  now rewrite (sortAsc_Permutation _ _ (newSet_Permutation _ _ Hp)).
Qed.

Lemma topNDesc_Permutation (l l' : list Z) (n : nat) :
  Permutation l l' -> topNDesc l n = topNDesc l' n.
Proof. intros Hp. unfold topNDesc. now rewrite (sortDesc_Permutation _ _ Hp). Qed.

(** ** Counting ranks *)

Lemma look_bump (j k : Z) (m : list (Z * Z)) :
  look j (bump k m) = if j =? k then look j m + 1 else look j m.
Proof.
  unfold look. induction m as [|[k' v] m IH]; simpl.
  - rewrite (Z.eqb_sym k j). destruct (j =? k); reflexivity.
  - destruct (Z.eqb_spec k' k) as [->|Hk]; simpl.
    + rewrite (Z.eqb_sym k j). destruct (j =? k); reflexivity.
    + destruct (Z.eqb_spec k' j) as [->|Hj].
      * destruct (Z.eqb_spec j k); [congruence | reflexivity].
      * exact IH.
Qed.

Lemma bump_keys (k : Z) (m : list (Z * Z)) :
  map fst (bump k m) = if existsb (Z.eqb k) (map fst m) then map fst m else map fst m ++ [k].
Proof.
  induction m as [|[k' v] m IH]; simpl; [reflexivity|].
  rewrite (Z.eqb_sym k k'). destruct (k' =? k); simpl; [reflexivity|].
  rewrite IH. now destruct (existsb _ _).
Qed.

Lemma bump_keys_NoDup (k : Z) (m : list (Z * Z)) :
  NoDup (map fst m) -> NoDup (map fst (bump k m)).
Proof.
  intros H. rewrite bump_keys. destruct (existsb _ _) eqn:E; [exact H|].
  apply NoDup_app; [exact H | repeat constructor; auto |].
  intros a Ha [<-|[]]. apply existsb_eqb_In in Ha. congruence.
Qed.

Lemma bump_positive (k : Z) (m : list (Z * Z)) :
  Forall (fun e => 0 < snd e) m -> Forall (fun e => 0 < snd e) (bump k m).
Proof.
  induction 1 as [|[k' v] m Hv Hm IH]; simpl.
  - repeat constructor.
  - destruct (k' =? k); constructor; simpl in *; auto; lia.
Qed.

Lemma bumps_spec (l : list Z) (m : list (Z * Z)) :
  countMap m ->
  countMap (fold_left (fun m x => bump x m) l m) /\
  forall k, look k (fold_left (fun m x => bump x m) l m) = look k m + occ k l.
Proof.
  revert m; induction l as [|x l IH]; intros m [Hk Hv]; simpl.
  - split; [now split|]. intros k. unfold occ. simpl. lia.
  - destruct (IH (bump x m)) as [H1 H2].
    { split; [now apply bump_keys_NoDup | now apply bump_positive]. }
    split; [exact H1|]. intros k. rewrite H2, look_bump. unfold occ. simpl.
    destruct (Z.eq_dec x k) as [->|Hne].
    + rewrite Z.eqb_refl. lia.
    + destruct (Z.eqb_spec k x); [congruence | lia].
Qed.

Lemma countMap_In (m : list (Z * Z)) (k v : Z) :
  countMap m -> (In (k, v) m <-> look k m = v /\ 0 < v).
Proof.
  intros [Hk Hv]. unfold look. induction m as [|[k' v'] m IH]; simpl.
  - split; [tauto | lia].
  - inversion Hk as [|? ? Hk1 Hk2]; inversion Hv as [|? ? Hv1 Hv2]; subst. simpl in *.
    destruct (Z.eqb_spec k' k) as [->|Hne]; simpl.
    + split.
      * intros [E|Hin]; [inversion E; subst; auto|].
        exfalso. apply Hk1. apply in_map_iff. now exists (k, v).
      * intros [-> _]. now left.
    + rewrite <- (IH Hk2 Hv2). split; [|tauto].
      intros [E|Hin]; [inversion E; congruence | exact Hin].
Qed.

Lemma countMap_Permutation (m m' : list (Z * Z)) :
  countMap m -> countMap m' -> (forall k, look k m = look k m') -> Permutation m m'.
Proof.
  intros H H' E. apply NoDup_Permutation.
  - eapply NoDup_map_inv, H.
  - eapply NoDup_map_inv, H'.
  - intros [k v]. rewrite (countMap_In m k v H), (countMap_In m' k v H'), E. tauto.
Qed.

Lemma occ_Permutation (k : Z) (l l' : list Z) : Permutation l l' -> occ k l = occ k l'.
Proof.
  intros Hp. unfold occ. f_equal.
  now apply (proj1 (Permutation_count_occ Z.eq_dec l l') Hp).
Qed.

Lemma rankCounts_Permutation (l l' : list Z) :
  Permutation l l' -> rankCounts l = rankCounts l'.
Proof.
  intros Hp. unfold rankCounts. apply sortCnt_Permutation.
  assert (H0 : countMap []) by (split; constructor).
  destruct (bumps_spec l [] H0) as [H1 H2], (bumps_spec l' [] H0) as [H1' H2'].
  apply countMap_Permutation; auto.
  intros k. rewrite H2, H2'. now rewrite (occ_Permutation k l l' Hp).
Qed.

Lemma evaluateBy_Permutation (sf : option Z) (fl : option (list Z)) (l l' : list Z) :
  Permutation l l' -> evaluateBy sf fl l = evaluateBy sf fl l'.
Proof.
  intros Hp. unfold evaluateBy.
  rewrite (rankCounts_Permutation l l' Hp).
  rewrite (sortAsc_Permutation _ _ (newSet_Permutation _ _ Hp)).
  rewrite (topNDesc_Permutation l l' 5 Hp).
  destruct sf; [reflexivity|].
  destruct (ranksWithCount 4 (rankCounts l')) as [|q qs].
  2:{ now rewrite (topNDesc_Permutation _ _ 1 (filter_Permutation (fun x => negb (x =? q)) _ _ Hp)). }
  destruct (_ || _); [reflexivity|].
  destruct fl; [reflexivity|].
  destruct (0 <? _); [reflexivity|].
  destruct (ranksWithCount 3 (rankCounts l')) as [|t ts].
  2:{ now rewrite (topNDesc_Permutation _ _ 2 (filter_Permutation (fun x => negb (x =? t)) _ _ Hp)). }
  destruct (ranksWithCount 2 (rankCounts l')) as [|p1 [|p2 ps]].
  - reflexivity.
  - now rewrite (topNDesc_Permutation _ _ 3 (filter_Permutation (fun x => negb (x =? p1)) _ _ Hp)).
  - now rewrite (topNDesc_Permutation _ _ 1
      (filter_Permutation (fun x => negb (x =? p1) && negb (x =? p2)) _ _ Hp)).
Qed.

Lemma markedRanks_Permutation (m m' : list Marked) :
  Permutation m m' -> Permutation (markedRanks m) (markedRanks m').
Proof. intros Hp. unfold markedRanks. now apply Permutation_map, filter_Permutation. Qed.

Lemma evaluateMarked_Permutation (m m' : list Marked) :
  Permutation m m' -> evaluateMarked m = evaluateMarked m'.
Proof.
  intros Hp. unfold evaluateMarked, straightFlushOf, flushOf.
  pose proof (markedRanks_Permutation m m' Hp) as Hm.
  rewrite (Permutation_length Hm).
  rewrite (bestStraightHigh_Permutation _ _ (newSet_Permutation _ _ Hm)).
  rewrite (topNDesc_Permutation _ _ 5 Hm).
  apply evaluateBy_Permutation. now apply Permutation_map.
Qed.

(** ** The reference: maximum over the five-card subsets *)

Lemma compare_refl (a : RankTuple) : compareRankTuples a a = 0.
Proof. rewrite compare_is_lex. apply lexCompare_refl. Qed.

Lemma compare_opp (a b : RankTuple) : compareRankTuples b a = - compareRankTuples a b.
Proof. rewrite !compare_is_lex. apply lexCompare_opp. Qed.

Lemma compare_trans (a b c : RankTuple) :
  compareRankTuples a b <= 0 -> compareRankTuples b c <= 0 -> compareRankTuples a c <= 0.
Proof. rewrite !compare_is_lex. apply lexCompare_trans. Qed.

Lemma fold_keepBest (vs : list RankTuple) (v : RankTuple) :
  let m := fold_left keepBest vs v in
  In m (v :: vs) /\ forall w, In w (v :: vs) -> compareRankTuples w m <= 0.
Proof.
  revert v; induction vs as [|u vs IH]; intros v; simpl.
  - split; [now left|]. intros w [<-|[]]. rewrite compare_refl. lia.
  - destruct (IH (keepBest v u)) as [Hin Hmax]. simpl in Hin, Hmax.
    assert (Hv : compareRankTuples v (keepBest v u) <= 0 /\
                 compareRankTuples u (keepBest v u) <= 0).
    { unfold keepBest. destruct (Z.ltb_spec 0 (compareRankTuples u v)).
      - rewrite compare_refl, (compare_opp u v). lia.
      - rewrite compare_refl. lia. }
    split.
    + destruct Hin as [E|Hin]; [|auto].
      rewrite <- E. unfold keepBest. destruct (0 <? _); auto.
    + intros w [<-|[<-|Hw]].
      * eapply compare_trans; [apply Hv | apply Hmax; now left].
      * eapply compare_trans; [apply Hv | apply Hmax; now left].
      * apply Hmax. now right.
Qed.

Lemma maxTuple_spec (vs : list RankTuple) :
  vs <> [] ->
  In (maxTuple vs) vs /\ forall w, In w vs -> compareRankTuples w (maxTuple vs) <= 0.
Proof.
  destruct vs as [|v vs]; [congruence|]. intros _. apply fold_keepBest.
Qed.

Lemma maxTuple_unique (vs : list RankTuple) (v : RankTuple) :
  Forall StrengthValue vs -> In v vs ->
  (forall w, In w vs -> compareRankTuples w v <= 0) -> maxTuple vs = v.
Proof.
  intros Hwf Hin Hmax.
  assert (Hne : vs <> []) by (intros ->; contradiction).
  destruct (maxTuple_spec vs Hne) as [Hm1 Hm2].
  rewrite Forall_forall in Hwf.
  apply compare_zero_StrengthValue; auto.
  pose proof (Hmax _ Hm1). pose proof (Hm2 _ Hin) as H2.
  rewrite compare_opp in H2. lia.
Qed.

Ltac rank_entries :=
  repeat (apply Forall_cons; [eexists; split; [reflexivity | lia] |]);
  apply Forall_nil.

Lemma classifySorted_StrengthValue (flush : bool) (sorted : list Z) :
  length sorted = 5%nat -> Forall (fun x => 2 <= x <= 14) sorted ->
  StrengthValue (classifySorted flush sorted).
Proof.
  intros Hlen Hs. unfold classifySorted.
  destruct sorted as [|a [|b [|c [|d [|e [|f l]]]]]]; try discriminate.
  inversion Hs as [|? ? Ha Hs1]; inversion Hs1 as [|? ? Hb Hs2];
  inversion Hs2 as [|? ? Hc Hs3]; inversion Hs3 as [|? ? Hd Hs4];
  inversion Hs4 as [|? ? He _]; subst.
  cbv zeta.
  destruct (a =? b), (b =? c), (c =? d), (d =? e); cbn [orb andb];
  repeat match goal with
         | |- context [if ?b then _ else _] => destruct b
         end;
  eexists _, _; (split; [reflexivity | split; [lia | rank_entries]]).
Qed.

Lemma classify5_StrengthValue (flush : bool) (ranks : list Z) :
  length ranks = 5%nat -> Forall (fun x => 2 <= x <= 14) ranks ->
  StrengthValue (classify5 flush ranks).
Proof.
  intros Hlen Hr. unfold classify5. apply classifySorted_StrengthValue.
  - now rewrite jsSort_length.
  - apply Forall_forall. intros x Hx. apply jsSort_In in Hx.
    rewrite Forall_forall in Hr. auto.
Qed.

Lemma subsets_length {A : Type} (l : list A) (k : nat) (S : list A) :
  In S (subsets k l) -> length S = k.
Proof.
  revert k S; induction l as [|x l IH]; intros [|k] S; simpl.
  - intros [<-|[]]. reflexivity.
  - tauto.
  - intros [<-|[]]. reflexivity.
  - rewrite in_app_iff, in_map_iff. intros [(S0 & <- & H)|H].
    + simpl. f_equal. now apply IH.
    + now apply IH.
Qed.

Lemma subsets_incl {A : Type} (l : list A) (k : nat) (S : list A) :
  In S (subsets k l) -> incl S l.
Proof.
  revert k S; induction l as [|x l IH]; intros [|k] S; simpl.
  - intros [<-|[]]. apply incl_nil_l.
  - tauto.
  - intros [<-|[]]. apply incl_nil_l.
  - rewrite in_app_iff, in_map_iff. intros [(S0 & <- & H)|H].
    + apply incl_cons; [now left|]. apply incl_tl. eapply IH; eauto.
    + apply incl_tl. eapply IH; eauto.
Qed.

Lemma subsets_filter_length {A : Type} (p : A -> bool) (l : list A) (k : nat) (S : list A) :
  In S (subsets k l) -> (length (filter p S) <= length (filter p l))%nat.
Proof.
  revert k S; induction l as [|x l IH]; intros [|k] S; simpl.
  - intros [<-|[]]. simpl. lia.
  - tauto.
  - intros [<-|[]]. simpl. lia.
  - rewrite in_app_iff, in_map_iff. intros [(S0 & <- & H)|H].
    + simpl. specialize (IH _ _ H). destruct (p x); simpl; lia.
    + specialize (IH _ _ H). destruct (p x); simpl; lia.
Qed.

Lemma subsets_map {A B : Type} (f : A -> B) (l : list A) (k : nat) :
  subsets k (map f l) = map (map f) (subsets k l).
Proof.
  revert k; induction l as [|x l IH]; intros [|k]; simpl; try reflexivity.
  rewrite map_app, !map_map, !IH, map_map. reflexivity.
Qed.

Lemma subsets_zero {A : Type} (l : list A) : subsets 0 l = [[]].
Proof. now destruct l. Qed.

Lemma subsets_cons {A : Type} (x : A) (l : list A) (k : nat) (S : list A) :
  In S (subsets (Datatypes.S k) (x :: l)) <->
  (exists S0, S = x :: S0 /\ In S0 (subsets k l)) \/ In S (subsets (Datatypes.S k) l).
Proof.
  simpl. rewrite in_app_iff, in_map_iff. split.
  - intros [(S0 & <- & H)|H]; [left; now exists S0 | now right].
  - intros [(S0 & -> & H)|H]; [left; now exists S0 | now right].
Qed.

Lemma subsets_nonempty {A : Type} (l : list A) (k : nat) :
  (k <= length l)%nat -> exists S, In S (subsets k l).
Proof.
  revert k; induction l as [|x l IH]; intros [|k] H; simpl in *.
  - exists []. now left.
  - lia.
  - exists []. now left.
  - destruct (IH k) as [S HS]; [lia|]. exists (x :: S).
    apply in_or_app. left. now apply in_map.
Qed.

Lemma subsets_Permutation {A : Type} (l l' : list A) :
  Permutation l l' ->
  forall k S, In S (subsets k l) -> exists S', In S' (subsets k l') /\ Permutation S S'.
Proof.
  induction 1 as [|x l l' Hp IH|x y l|l l' l'' H1 IH1 H2 IH2]; intros k S HS.
  - exists S. split; [exact HS | reflexivity].
  - destruct k as [|k].
    + rewrite subsets_zero in *. exists S. split; [exact HS | reflexivity].
    + apply subsets_cons in HS. destruct HS as [(S0 & -> & H0)|H0].
      * destruct (IH _ _ H0) as (S' & H1 & H2). exists (x :: S'). split.
        -- apply subsets_cons. left. now exists S'.
        -- now constructor.
      * destruct (IH _ _ H0) as (S' & H1 & H2). exists S'. split; [|exact H2].
        apply subsets_cons. now right.
  - destruct k as [|k].
    + rewrite subsets_zero in *. exists S. split; [exact HS | reflexivity].
    + apply subsets_cons in HS. destruct HS as [(S0 & -> & H0)|H0].
      * destruct k as [|k].
        -- rewrite subsets_zero in H0. destruct H0 as [<-|[]].
           exists [y]. split; [|reflexivity].
           apply subsets_cons. right. apply subsets_cons. left. exists [].
           split; [reflexivity|]. rewrite subsets_zero. now left.
        -- apply subsets_cons in H0. destruct H0 as [(S1 & -> & H1)|H1].
           ++ exists (x :: y :: S1). split; [|apply perm_swap].
              apply subsets_cons. left. exists (y :: S1). split; [reflexivity|].
              apply subsets_cons. left. now exists S1.
           ++ exists (y :: S0). split; [|reflexivity].
              apply subsets_cons. right. apply subsets_cons. left. now exists S0.
      * apply subsets_cons in H0. destruct H0 as [(S0 & -> & H0)|H0].
        -- exists (x :: S0). split; [|reflexivity].
           apply subsets_cons. left. exists S0. split; [reflexivity|].
           destruct k as [|k]; [rewrite subsets_zero in *; exact H0|].
           apply subsets_cons. now right.
        -- exists S. split; [|reflexivity].
           apply subsets_cons. right. apply subsets_cons. now right.
  - destruct (IH1 _ _ HS) as (S' & H3 & H4).
    destruct (IH2 _ _ H3) as (S'' & H5 & H6).
    exists S''. split; [exact H5 | now transitivity S'].
Qed.

Lemma forallb_Permutation {A : Type} (p : A -> bool) (l l' : list A) :
  Permutation l l' -> forallb p l = forallb p l'.
Proof.
  induction 1 as [|x l l' H IH|x y l|l l' l'' H1 IH1 H2 IH2]; simpl.
  - reflexivity.
  - now rewrite IH.
  - destruct (p x), (p y); reflexivity.
  - congruence.
Qed.

Lemma standard5Marked_Permutation (S S' : list Marked) :
  Permutation S S' -> standard5Marked S = standard5Marked S'.
Proof.
  intros Hp. unfold standard5Marked, classify5.
  rewrite (forallb_Permutation snd S S' Hp).
  now rewrite (sortDesc_Permutation _ _ (Permutation_map fst Hp)).
Qed.

Lemma standard5Marked_StrengthValue (m S : list Marked) :
  validMarked m -> In S (subsets 5 m) -> StrengthValue (standard5Marked S).
Proof.
  intros Hv HS. apply classify5_StrengthValue.
  - rewrite length_map. eapply subsets_length; eauto.
  - apply Forall_forall. intros x Hx. apply in_map_iff in Hx.
    destruct Hx as (c & <- & Hc). unfold validMarked in Hv. rewrite Forall_forall in Hv.
    apply Hv. eapply subsets_incl; eauto.
Qed.

Lemma bestMarked_le (m m' : list Marked) :
  (5 <= length m)%nat -> Permutation m m' ->
  compareRankTuples (bestMarked m) (bestMarked m') <= 0.
Proof.
  intros Hlen Hp. unfold bestMarked.
  assert (Hne : forall l : list Marked, (5 <= length l)%nat ->
                  map standard5Marked (subsets 5 l) <> []).
  { intros l Hl. destruct (subsets_nonempty l 5 Hl) as [S HS].
    intros E. apply (in_map standard5Marked) in HS. rewrite E in HS. contradiction. }
  destruct (maxTuple_spec _ (Hne m Hlen)) as [H1 _].
  assert (Hlen' : (5 <= length m')%nat) by (rewrite <- (Permutation_length Hp); exact Hlen).
  destruct (maxTuple_spec (map standard5Marked (subsets 5 m'))) as [_ H2].
  { destruct (subsets_nonempty m' 5 Hlen') as [S HS].
    intros E. apply (in_map standard5Marked) in HS. rewrite E in HS. contradiction. }
  apply in_map_iff in H1. destruct H1 as (S & <- & HS).
  destruct (subsets_Permutation m m' Hp 5 S HS) as (S' & HS' & HSp).
  rewrite (standard5Marked_Permutation S S' HSp).
  apply H2. now apply in_map.
Qed.

Lemma bestMarked_StrengthValue (m : list Marked) :
  (5 <= length m)%nat -> validMarked m -> StrengthValue (bestMarked m).
Proof.
  intros Hlen Hv. unfold bestMarked.
  destruct (subsets_nonempty m 5 Hlen) as [S HS].
  destruct (maxTuple_spec (map standard5Marked (subsets 5 m))) as [H1 _].
  { intros E. apply (in_map standard5Marked) in HS. rewrite E in HS. contradiction. }
  apply in_map_iff in H1. destruct H1 as (S1 & <- & HS1).
  eapply standard5Marked_StrengthValue; eauto.
Qed.

Lemma bestMarked_Permutation (m m' : list Marked) :
  (5 <= length m)%nat -> validMarked m -> Permutation m m' ->
  bestMarked m = bestMarked m'.
Proof.
  intros Hlen Hv Hp.
  assert (Hlen' : (5 <= length m')%nat) by (rewrite <- (Permutation_length Hp); exact Hlen).
  assert (Hv' : validMarked m').
  { unfold validMarked in *. rewrite Forall_forall in *. intros x Hx. apply Hv.
    eapply Permutation_in; [symmetry; exact Hp | exact Hx]. }
  apply compare_zero_StrengthValue; try now apply bestMarked_StrengthValue.
  pose proof (bestMarked_le m m' Hlen Hp).
  pose proof (bestMarked_le m' m Hlen' (Permutation_sym Hp)) as H2.
  rewrite compare_opp in H2. lia.
Qed.

(** ** From cards to ranks and one marked suit *)

Lemma countsByRank_ranks (cards : list Card) : countsByRank cards = rankCounts (map r cards).
Proof.
  unfold countsByRank, rankCounts. f_equal.
  generalize (@nil (Z * Z)). induction cards as [|c cards IH]; intros m; simpl; auto.
Qed.

Lemma filter_by_rank (p : Z -> bool) (cards : list Card) :
  map r (filter (fun c => p (r c)) cards) = filter p (map r cards).
Proof.
  induction cards as [|c cards IH]; simpl; [reflexivity|].
  destruct (p (r c)); simpl; now rewrite IH.
Qed.

Lemma evaluate_by (cards : list Card) :
  evaluate cards =
  evaluateBy (straightFlushScan (suitGroups cards)) (flushScan (suitGroups cards))
             (map r cards).
Proof.
  unfold evaluate, evaluateBy.
  rewrite countsByRank_ranks.
  destruct (straightFlushScan _); [reflexivity|].
  destruct (ranksWithCount 4 _) as [|q qs].
  2:{ now rewrite (filter_by_rank (fun x => negb (x =? q))). }
  destruct (_ || _); [reflexivity|].
  destruct (flushScan _); [reflexivity|].
  destruct (0 <? _); [reflexivity|].
  destruct (ranksWithCount 3 _) as [|t ts].
  2:{ now rewrite (filter_by_rank (fun x => negb (x =? t))). }
  destruct (ranksWithCount 2 _) as [|p1 [|p2 ps]].
  - reflexivity.
  - now rewrite (filter_by_rank (fun x => negb (x =? p1))).
  - now rewrite (filter_by_rank (fun x => negb (x =? p1) && negb (x =? p2))).
Qed.

Lemma inSuit_snoc (x : Suit) (cards : list Card) (c : Card) :
  inSuit x (cards ++ [c]) = inSuit x cards ++ (if suit_eqb (s c) x then [c] else []).
Proof. unfold inSuit. rewrite filter_app. reflexivity. Qed.

Lemma pushSuit_keys (c : Card) (m : list (Suit * list Card)) :
  map fst (pushSuit c m) =
  if existsb (fun k => suit_eqb k (s c)) (map fst m) then map fst m else map fst m ++ [s c].
Proof.
  induction m as [|[k cs] m IH]; simpl; [reflexivity|].
  destruct (suit_eqb k (s c)); simpl; [reflexivity|].
  rewrite IH. now destruct (existsb _ _).
Qed.

Lemma pushSuit_groups (c : Card) (cards : list Card) (m : list (Suit * list Card)) :
  NoDup (map fst m) ->
  (forall k cs, In (k, cs) m -> cs = inSuit k cards) ->
  (inSuit (s c) cards <> [] -> In (s c) (map fst m)) ->
  forall k cs, In (k, cs) (pushSuit c m) -> cs = inSuit k (cards ++ [c]).
Proof.
  induction m as [|[k0 cs0] m IH]; intros Hnd Hg Hc k cs; simpl.
  - intros [E|[]]. inversion E; subst. rewrite inSuit_snoc, suit_eqb_refl.
    destruct (inSuit (s c) cards) eqn:E0; [reflexivity|].
    exfalso. apply Hc. discriminate.
  - inversion Hnd as [|? ? Hk0 Hnd']; subst.
    destruct (suit_eqb k0 (s c)) eqn:E.
    + apply suit_eqb_eq in E. subst k0. intros [E|Hin].
      * inversion E; subst. rewrite inSuit_snoc, suit_eqb_refl.
        f_equal. apply Hg. now left.
      * rewrite inSuit_snoc.
        destruct (suit_eqb (s c) k) eqn:E2.
        -- apply suit_eqb_eq in E2. subst k. exfalso. apply Hk0.
           apply in_map_iff. now exists (s c, cs).
        -- rewrite app_nil_r. apply Hg. now right.
    + intros [E0|Hin].
      * inversion E0; subst. rewrite inSuit_snoc.
        destruct (suit_eqb (s c) k) eqn:E2.
        -- apply suit_eqb_eq in E2. subst k. rewrite suit_eqb_refl in E. discriminate.
        -- rewrite app_nil_r. apply Hg. now left.
      * apply IH; auto.
        -- intros k' cs' H'. apply Hg. now right.
        -- intros H'. destruct (Hc H') as [E0|Hin']; [|exact Hin'].
           simpl in E0. subst k0. rewrite suit_eqb_refl in E. discriminate.
Qed.

Lemma existsb_suit_In (x : Suit) (l : list Suit) :
  existsb (fun k => suit_eqb k x) l = true <-> In x l.
Proof.
  rewrite existsb_exists. split.
  - intros (k & Hk & E). apply suit_eqb_eq in E. now subst.
  - intros H. exists x. split; [exact H | apply suit_eqb_refl].
Qed.

Lemma suitGroups_groupsOf (cards : list Card) : groupsOf cards (suitGroups cards).
Proof.
  unfold suitGroups. induction cards as [|c cards IH] using rev_ind.
  - repeat split; simpl; try constructor; try tauto.
  - rewrite fold_left_app. simpl.
    set (m := fold_left (fun m c => pushSuit c m) cards []) in *.
    destruct IH as (Hnd & Hg & Hk). repeat split.
    + rewrite pushSuit_keys. destruct (existsb _ _) eqn:E; [exact Hnd|].
      apply NoDup_app; [exact Hnd | repeat constructor; auto |].
      intros a Ha [<-|[]]. apply existsb_suit_In in Ha. congruence.
    + apply pushSuit_groups; auto.
    + intros x Hx. rewrite pushSuit_keys.
      destruct (existsb (fun k => suit_eqb k (s c)) (map fst m)) eqn:E.
      * rewrite inSuit_snoc in Hx. destruct (suit_eqb (s c) x) eqn:E2.
        -- apply suit_eqb_eq in E2. subst x. now apply existsb_suit_In.
        -- rewrite app_nil_r in Hx. auto.
      * apply in_or_app. rewrite inSuit_snoc in Hx.
        destruct (suit_eqb (s c) x) eqn:E2.
        -- apply suit_eqb_eq in E2. right. now left.
        -- rewrite app_nil_r in Hx. left. auto.
Qed.

Lemma scans_no_flush (cards : list Card) :
  (forall x, short cards x) ->
  straightFlushScan (suitGroups cards) = None /\ flushScan (suitGroups cards) = None.
Proof.
  intros Hs. destruct (suitGroups_groupsOf cards) as (_ & Hg & _).
  induction (suitGroups cards) as [|[k cs] m IH]; cbn [straightFlushScan flushScan]; [auto|].
  rewrite (Hg k cs (or_introl eq_refl)).
  destruct (Nat.leb_spec 5 (length (inSuit k cards))) as [H|H].
  - specialize (Hs k). unfold short in Hs. lia.
  - apply IH. intros k' cs' H'. apply Hg. now right.
Qed.

Lemma scans_flush (cards : list Card) (x : Suit) :
  (5 <= length (inSuit x cards))%nat -> (forall y, y <> x -> short cards y) ->
  straightFlushScan (suitGroups cards) = straightFlushOf (map r (inSuit x cards)) /\
  flushScan (suitGroups cards) = flushOf (map r (inSuit x cards)).
Proof.
  intros Hx Hs. destruct (suitGroups_groupsOf cards) as (_ & Hg & Hk).
  assert (Hin : In x (map fst (suitGroups cards))).
  { apply Hk. destruct (inSuit x cards); [simpl in Hx; lia | discriminate]. }
  unfold straightFlushOf, flushOf. rewrite length_map.
  destruct (Nat.leb_spec 5 (length (inSuit x cards))) as [_|]; [|lia].
  assert (Hnone : forall m : list (Suit * list Card),
            (forall k cs, In (k, cs) m -> cs = inSuit k cards) ->
            (0 <? bestStraightHigh (newSet (map r (inSuit x cards)))) = false ->
            straightFlushScan m = None).
  { intros m Hm H0. induction m as [|[k cs] m IH]; cbn [straightFlushScan]; [reflexivity|].
    rewrite (Hm k cs (or_introl eq_refl)).
    destruct (Nat.leb_spec 5 (length (inSuit k cards))) as [H|H].
    - destruct (suit_eqb k x) eqn:E.
      + apply suit_eqb_eq in E. subst k. rewrite H0. apply IH.
        intros k' cs' H'. apply Hm. now right.
      + assert (Hkx : k <> x) by (intros ->; rewrite suit_eqb_refl in E; discriminate).
        specialize (Hs k Hkx). unfold short in Hs. lia.
    - apply IH. intros k' cs' H'. apply Hm. now right. }
  clear Hk. revert Hg Hin.
  induction (suitGroups cards) as [|[k cs] m IH]; intros Hg Hin;
    cbn [straightFlushScan flushScan map fst In] in *; [contradiction|].
  rewrite (Hg k cs (or_introl eq_refl)).
  destruct (suit_eqb k x) eqn:E.
  - apply suit_eqb_eq in E. subst k.
    destruct (Nat.leb_spec 5 (length (inSuit x cards))) as [_|]; [|lia].
    split; [|reflexivity].
    destruct (0 <? _) eqn:E0; [reflexivity|].
    apply Hnone; [|reflexivity]. intros k' cs' H'. apply Hg. now right.
  - assert (Hne : k <> x) by (intros ->; rewrite suit_eqb_refl in E; discriminate).
    pose proof (Hs k Hne) as Hk'. unfold short in Hk'.
    destruct (Nat.leb_spec 5 (length (inSuit k cards))) as [|_]; [lia|].
    apply IH.
    + intros k' cs' H'. apply Hg. now right.
    + destruct Hin as [E0|H']; [congruence | exact H'].
Qed.

Lemma markedRanks_mark (x : Suit) (cards : list Card) :
  markedRanks (map (mark x) cards) = map r (inSuit x cards).
Proof.
  unfold markedRanks, inSuit, mark.
  induction cards as [|c cards IH]; simpl; [reflexivity|].
  destruct (suit_eqb (s c) x); simpl; now rewrite IH.
Qed.

Lemma markedRanks_unmarked (cards : list Card) : markedRanks (map unmarked cards) = [].
Proof. unfold markedRanks. induction cards; simpl; auto. Qed.

Lemma ranks_mark (x : Suit) (cards : list Card) : map fst (map (mark x) cards) = map r cards.
Proof. rewrite map_map. reflexivity. Qed.

Lemma ranks_unmarked (cards : list Card) : map fst (map unmarked cards) = map r cards.
Proof. rewrite map_map. reflexivity. Qed.

Lemma evaluate_flush (cards : list Card) (x : Suit) :
  (5 <= length (inSuit x cards))%nat -> (forall y, y <> x -> short cards y) ->
  evaluate cards = evaluateMarked (map (mark x) cards).
Proof.
  intros Hx Hs. destruct (scans_flush cards x Hx Hs) as [E1 E2].
  rewrite evaluate_by, E1, E2. unfold evaluateMarked.
  now rewrite markedRanks_mark, ranks_mark.
Qed.

Lemma evaluate_no_flush (cards : list Card) :
  (forall x, short cards x) -> evaluate cards = evaluateMarked (map unmarked cards).
Proof.
  intros Hs. destruct (scans_no_flush cards Hs) as [E1 E2].
  rewrite evaluate_by, E1, E2. unfold evaluateMarked.
  now rewrite markedRanks_unmarked, ranks_unmarked.
Qed.

Lemma sameSuit_all (S : list Card) :
  sameSuit S = true <-> exists y, S <> [] /\ forallb (fun d => suit_eqb (s d) y) S = true.
Proof.
  destruct S as [|c S]; simpl.
  - split; [discriminate|]. intros (y & H & _). congruence.
  - split.
    + intros H. exists (s c). split; [discriminate|]. now rewrite suit_eqb_refl.
    + intros (y & _ & H). apply andb_true_iff in H. destruct H as [Hc H].
      apply suit_eqb_eq in Hc. now subst y.
Qed.

Lemma forallb_filter_length {A : Type} (p : A -> bool) (l : list A) :
  forallb p l = true -> length (filter p l) = length l.
Proof.
  induction l as [|x l IH]; simpl; [reflexivity|].
  destruct (p x); simpl; [intros; f_equal; auto | discriminate].
Qed.

Lemma sameSuit_long (cards S : list Card) (y : Suit) :
  In S (subsets 5 cards) -> forallb (fun d => suit_eqb (s d) y) S = true ->
  (5 <= length (inSuit y cards))%nat.
Proof.
  intros HS Hall. pose proof (subsets_length _ _ _ HS) as Hlen.
  pose proof (subsets_filter_length (fun d => suit_eqb (s d) y) _ _ _ HS) as Hf.
  rewrite (forallb_filter_length _ _ Hall) in Hf. unfold inSuit. lia.
Qed.

Lemma standard5_flush (cards S : list Card) (x : Suit) :
  (forall y, y <> x -> short cards y) -> In S (subsets 5 cards) ->
  standard5 S = standard5Marked (map (mark x) S).
Proof.
  intros Hs HS. unfold standard5, standard5Marked. rewrite ranks_mark. f_equal.
  assert (E : forallb snd (map (mark x) S) = forallb (fun d => suit_eqb (s d) x) S).
  { clear. induction S as [|c S IH]; simpl; [reflexivity|]. now rewrite IH. }
  rewrite E. destruct (forallb (fun d => suit_eqb (s d) x) S) eqn:Ex.
  - apply sameSuit_all. exists x. split; [|exact Ex].
    pose proof (subsets_length _ _ _ HS). intros ->. discriminate.
  - destruct (sameSuit S) eqn:Ey; [|reflexivity].
    apply sameSuit_all in Ey. destruct Ey as (y & _ & Hy).
    pose proof (sameSuit_long cards S y HS Hy) as Hlong.
    destruct (suit_eqb y x) eqn:E2.
    + apply suit_eqb_eq in E2. subst y. congruence.
    + assert (y <> x) by (intros ->; rewrite suit_eqb_refl in E2; discriminate).
      specialize (Hs y H). unfold short in Hs. lia.
Qed.

Lemma standard5_no_flush (cards S : list Card) :
  (forall x, short cards x) -> In S (subsets 5 cards) ->
  standard5 S = standard5Marked (map unmarked S).
Proof.
  intros Hs HS. unfold standard5, standard5Marked. rewrite ranks_unmarked. f_equal.
  pose proof (subsets_length _ _ _ HS) as Hlen.
  destruct S as [|c S]; [discriminate|]. cbn [map forallb unmarked snd andb].
  destruct (sameSuit (c :: S)) eqn:Ey; [|reflexivity].
  apply sameSuit_all in Ey. destruct Ey as (y & _ & Hy).
  pose proof (sameSuit_long cards _ y HS Hy) as Hlong.
  specialize (Hs y). unfold short in Hs. lia.
Qed.

Lemma bestOfFive_flush (cards : list Card) (x : Suit) :
  (forall y, y <> x -> short cards y) ->
  bestOfFive cards = bestMarked (map (mark x) cards).
Proof.
  intros Hs. unfold bestOfFive, bestMarked. rewrite subsets_map, map_map. f_equal.
  apply map_ext_in. intros S HS. now apply standard5_flush with cards.
Qed.

Lemma bestOfFive_no_flush (cards : list Card) :
  (forall x, short cards x) -> bestOfFive cards = bestMarked (map unmarked cards).
Proof.
  intros Hs. unfold bestOfFive, bestMarked. rewrite subsets_map, map_map. f_equal.
  apply map_ext_in. intros S HS. now apply standard5_no_flush with cards.
Qed.

Lemma suits_partition (cards : list Card) :
  (length cards = length (inSuit Spades cards) + length (inSuit Hearts cards)
                + length (inSuit Diamonds cards) + length (inSuit Clubs cards))%nat.
Proof.
  unfold inSuit. induction cards as [|c cards IH]; simpl; [reflexivity|].
  destruct (s c); simpl; lia.
Qed.

Lemma one_long_suit (cards : list Card) :
  (length cards <= 7)%nat ->
  (forall x, short cards x) \/
  (exists x, (5 <= length (inSuit x cards))%nat /\ forall y, y <> x -> short cards y).
Proof.
  intros Hlen. pose proof (suits_partition cards) as Hp. unfold short.
  destruct (Nat.leb_spec 5 (length (inSuit Spades cards)));
  [right; exists Spades; split; [assumption|]; intros [] ?; try congruence; lia|].
  destruct (Nat.leb_spec 5 (length (inSuit Hearts cards)));
  [right; exists Hearts; split; [assumption|]; intros [] ?; try congruence; lia|].
  destruct (Nat.leb_spec 5 (length (inSuit Diamonds cards)));
  [right; exists Diamonds; split; [assumption|]; intros [] ?; try congruence; lia|].
  destruct (Nat.leb_spec 5 (length (inSuit Clubs cards)));
  [right; exists Clubs; split; [assumption|]; intros [] ?; try congruence; lia|].
  left. intros []; assumption.
Qed.

(** ** Canonical hands *)

Lemma anyb_existsb {A : Type} (f : A -> bool) (l : list A) : anyb f l = existsb f l.
Proof. induction l as [|x l IH]; simpl; [reflexivity|]. rewrite IH. now destruct (f x). Qed.

Lemma allb_forallb {A : Type} (f : A -> bool) (l : list A) : allb f l = forallb f l.
Proof. induction l as [|x l IH]; simpl; [reflexivity|]. rewrite IH. now destruct (f x). Qed.

Lemma downto_In (n : nat) (hi a : Z) : In a (downto hi n) <-> hi - Z.of_nat n < a <= hi.
Proof.
  revert hi; induction n as [|n IH]; intros hi; simpl downto.
  - simpl. lia.
  - simpl In. rewrite IH. lia.
Qed.

Lemma rangeDown_In (hi a : Z) : In a (rangeDown hi) <-> 2 <= a <= hi.
Proof. unfold rangeDown. rewrite downto_In. lia. Qed.

Lemma allDesc_spec (n : nat) (hi : Z) (P : list Z -> bool) :
  allDesc n hi P = true ->
  forall l, length l = n -> StronglySorted Z.ge l ->
            Forall (fun x => 2 <= x <= hi) l -> P l = true.
Proof.
  revert hi P; induction n as [|n IH]; intros hi P H l Hlen Hs Hr.
  - destruct l; [exact H | discriminate].
  - destruct l as [|a l]; [discriminate|].
    cbn [allDesc] in H. rewrite allb_forallb, forallb_forall in H.
    inversion Hr as [|? ? Ha Hr']; subst.
    apply StronglySorted_inv in Hs. destruct Hs as [Hs Hal].
    apply (IH a (fun l => P (a :: l))).
    + apply H. now apply rangeDown_In.
    + simpl in Hlen. lia.
    + exact Hs.
    + rewrite Forall_forall in *. intros x Hx. specialize (Hal x Hx). specialize (Hr' x Hx). lia.
Qed.

Lemma optZ_eqb_eq (a b : option Z) : optZ_eqb a b = true -> a = b.
Proof.
  destruct a, b; simpl; try discriminate; try reflexivity.
  intros H. apply Z.eqb_eq in H. now subst.
Qed.

Lemma tuple_eqb_eq (a b : RankTuple) : tuple_eqb a b = true -> a = b.
Proof.
  revert b; induction a as [|x a IH]; intros [|y b]; simpl; try discriminate; [reflexivity|].
  rewrite andb_true_iff. intros [H1 H2]. apply optZ_eqb_eq in H1. f_equal; auto.
Qed.

Lemma filter_split_Permutation {A : Type} (p : A -> bool) (l : list A) :
  Permutation l (filter p l ++ filter (fun x => negb (p x)) l).
Proof.
  induction l as [|x l IH]; simpl; [reflexivity|].
  destruct (p x); simpl.
  - now constructor.
  - rewrite <- Permutation_middle. now constructor.
Qed.

Lemma canon_of_marked (m : list Marked) :
  Permutation m (canon (markedRanks m) (otherRanks m)).
Proof.
  unfold canon, markedRanks, otherRanks. rewrite !map_map.
  rewrite (filter_split_Permutation snd m) at 1.
  apply Permutation_app; apply Permutation_refl'.
  - induction m as [|[x b] m IH]; simpl; [reflexivity|].
    destruct b; simpl; now rewrite <- ?IH.
  - induction m as [|[x b] m IH]; simpl; [reflexivity|].
    destruct b; simpl; now rewrite <- ?IH.
Qed.

Lemma canon_Permutation (F F' O O' : list Z) :
  Permutation F F' -> Permutation O O' -> Permutation (canon F O) (canon F' O').
Proof.
  intros HF HO. unfold canon. apply Permutation_app; now apply Permutation_map.
Qed.

Lemma canon_sorted (m : list Marked) :
  Permutation m (canon (jsSort descZ (markedRanks m)) (jsSort descZ (otherRanks m))).
Proof.
  rewrite (canon_of_marked m) at 1.
  apply canon_Permutation; symmetry; apply jsSort_perm.
Qed.

Lemma sortDesc_sorted (l : list Z) : StronglySorted Z.ge (jsSort descZ l).
Proof.
  assert (H : StronglySorted (fun x y => descZ x y <= 0) (jsSort descZ l))
    by (apply jsSort_sorted; unfold descZ; intros; lia).
  induction H; constructor; auto.
  eapply Forall_impl; [|eassumption]. unfold descZ. intros; lia.
Qed.

Lemma sortDesc_id (l : list Z) : StronglySorted Z.ge l -> jsSort descZ l = l.
Proof.
  intros H. apply jsSort_sorted_id; try (unfold descZ; intros; lia).
  induction H; constructor; auto.
  eapply Forall_impl; [|eassumption]. unfold descZ. intros; lia.
Qed.

Lemma sorted_ranks (l : list Z) :
  Forall (fun x => 2 <= x <= 14) l ->
  length (jsSort descZ l) = length l /\ StronglySorted Z.ge (jsSort descZ l) /\
  Forall (fun x => 2 <= x <= 14) (jsSort descZ l).
Proof.
  intros H. split; [apply jsSort_length|]. split; [apply sortDesc_sorted|].
  rewrite Forall_forall in *. intros x Hx. apply H. now apply jsSort_In in Hx.
Qed.

Lemma countOf_Permutation (x : Z) (l l' : list Z) :
  Permutation l l' -> countOf x l = countOf x l'.
Proof. intros Hp. unfold countOf. now apply Permutation_length, filter_Permutation. Qed.

Lemma anyb_eqb_In (x : Z) (l : list Z) : anyb (Z.eqb x) l = true <-> In x l.
Proof. rewrite anyb_existsb. apply existsb_eqb_In. Qed.

Lemma distinctZ_NoDup (l : list Z) : distinctZ l = true <-> NoDup l.
Proof.
  induction l as [|x l IH]; simpl.
  - split; auto using NoDup_nil.
  - rewrite NoDup_cons_iff, <- IH. destruct (anyb (Z.eqb x) l) eqn:E.
    + apply anyb_eqb_In in E. split; [discriminate | intros [H _]; contradiction].
    + assert (~ In x l) by (rewrite <- anyb_eqb_In; congruence). tauto.
Qed.

(** ** Ranks of a duplicate-free hand *)

Lemma suits_NoDup_length (l : list Suit) : NoDup l -> (length l <= 4)%nat.
Proof.
  intros H. apply (NoDup_incl_length H (l' := suitChars)).
  intros x _. destruct x; simpl; auto.
Qed.

Lemma countOf_ranks (x : Z) (cards : list Card) :
  countOf x (map r cards) = length (ofRank x cards).
Proof.
  unfold countOf, ofRank. rewrite <- (filter_by_rank (Z.eqb x)), length_map.
  f_equal. apply filter_ext. intros c. apply Z.eqb_sym.
Qed.

Lemma ofRank_length (x : Z) (cards : list Card) :
  NoDup cards -> (length (ofRank x cards) <= 4)%nat.
Proof.
  intros Hnd. rewrite <- (length_map s). apply suits_NoDup_length.
  apply Injective_map_NoDup_in.
  - intros [r1 s1] [r2 s2] H1 H2 E. unfold ofRank in *.
    apply filter_In in H1, H2. simpl in *.
    destruct H1 as [_ H1], H2 as [_ H2]. apply Z.eqb_eq in H1, H2. congruence.
  - now apply NoDup_filter.
Qed.

Lemma inSuit_ranks_NoDup (x : Suit) (cards : list Card) :
  NoDup cards -> NoDup (map r (inSuit x cards)).
Proof.
  intros Hnd. apply Injective_map_NoDup_in.
  - intros [r1 s1] [r2 s2] H1 H2 E. unfold inSuit in *.
    apply filter_In in H1, H2. simpl in *.
    destruct H1 as [_ H1], H2 as [_ H2]. apply suit_eqb_eq in H1, H2. congruence.
  - now apply NoDup_filter.
Qed.

Lemma atMostFour_ranks (cards : list Card) (l : list Z) :
  NoDup cards -> Permutation (map r cards) l -> atMostFour l = true.
Proof.
  intros Hnd Hp. unfold atMostFour. rewrite allb_forallb. apply forallb_forall. intros x _.
  apply Nat.leb_le. rewrite <- (countOf_Permutation x _ _ Hp), countOf_ranks.
  now apply ofRank_length.
Qed.

(** ** The reference on descending ranks *)

Lemma subsets_sorted {A : Type} (R : A -> A -> Prop) (l : list A) (k : nat) (S : list A) :
  StronglySorted R l -> In S (subsets k l) -> StronglySorted R S.
Proof.
  intros Hl; revert k S; induction Hl as [|x l Hl IH Hx]; intros [|k] S; simpl.
  - intros [<-|[]]. constructor.
  - tauto.
  - intros [<-|[]]. constructor.
  - rewrite in_app_iff, in_map_iff. intros [(S0 & <- & H)|H].
    + constructor; [eapply IH; eauto|].
      rewrite Forall_forall in *. intros y Hy. apply Hx.
      eapply subsets_incl; eauto.
    + eapply IH; eauto.
Qed.

Lemma maxLex_maxTuple (vs : list RankTuple) : maxLex vs = maxTuple vs.
Proof.
  destruct vs as [|v vs]; [reflexivity|]. unfold maxLex, maxTuple.
  revert v; induction vs as [|w vs IH]; intros v; simpl; [reflexivity|].
  now rewrite IH, compare_is_lex.
Qed.

Lemma bestSorted_bestRanks (flush : bool) (l : list Z) :
  StronglySorted Z.ge l -> bestSorted flush l = bestRanks flush l.
Proof.
  intros Hl. unfold bestSorted, bestRanks. rewrite maxLex_maxTuple. f_equal.
  apply map_ext_in. intros S HS. unfold classify5.
  now rewrite (sortDesc_id S (subsets_sorted _ _ _ _ Hl HS)).
Qed.

Lemma bestMarked_unflagged (O : list Z) : bestMarked (canon [] O) = bestRanks false O.
Proof.
  unfold bestMarked, bestRanks, canon. cbn [map app].
  rewrite subsets_map, map_map. f_equal. apply map_ext_in. intros S HS.
  unfold standard5Marked. rewrite map_map. cbn [fst]. rewrite map_id.
  pose proof (subsets_length _ _ _ HS) as Hlen.
  destruct S as [|x S]; [discriminate|]. reflexivity.
Qed.

Lemma bestMarked_flagged (F : list Z) : bestMarked (canon F []) = bestRanks true F.
Proof.
  unfold bestMarked, bestRanks, canon. cbn [map]. rewrite app_nil_r.
  rewrite subsets_map, map_map. f_equal. apply map_ext_in. intros S HS.
  unfold standard5Marked. rewrite map_map. cbn [fst]. rewrite map_id. f_equal.
  clear. induction S as [|x S IH]; simpl; auto.
Qed.

Lemma markedRanks_canon (F O : list Z) : markedRanks (canon F O) = F.
Proof.
  unfold markedRanks, canon. rewrite filter_app, map_app.
  assert (H1 : forall l : list Z, map fst (filter snd (map (fun x => (x, true)) l)) = l)
    by (induction l; simpl; f_equal; auto).
  assert (H2 : forall l : list Z, map fst (filter snd (map (fun x => (x, false)) l)) = [])
    by (induction l; simpl; auto).
  now rewrite H1, H2, app_nil_r.
Qed.

Lemma ranks_canon (F O : list Z) : map fst (canon F O) = F ++ O.
Proof. unfold canon. rewrite map_app, !map_map. cbn [fst]. now rewrite !map_id. Qed.

Lemma evaluateMarked_canon (F O : list Z) :
  evaluateMarked (canon F O) = evaluateBy (straightFlushOf F) (flushOf F) (F ++ O).
Proof. unfold evaluateMarked. now rewrite markedRanks_canon, ranks_canon. Qed.

(** ** A long suit: the other cards do not matter *)

Lemma filter_keys_NoDup (p : Z * Z -> bool) (m : list (Z * Z)) :
  NoDup (map fst m) -> NoDup (map fst (filter p m)).
Proof.
  intros H. induction m as [|e m IH]; simpl; [constructor|].
  inversion H as [|? ? He Hm]; subst.
  destruct (p e); simpl; [|auto]. constructor; [|auto].
  intros Hin. apply He. apply in_map_iff in Hin. destruct Hin as (y & E & Hy).
  apply filter_In in Hy. apply in_map_iff. exists y. tauto.
Qed.

Lemma rankCounts_spec (l : list Z) :
  NoDup (map fst (rankCounts l)) /\
  forall k v, In (k, v) (rankCounts l) <-> occ k l = v /\ 0 < v.
Proof.
  unfold rankCounts.
  assert (H0 : countMap []) by (split; constructor).
  destruct (bumps_spec l [] H0) as [Hm Hl].
  set (m := fold_left (fun m x => bump x m) l []) in *.
  split.
  - apply (Permutation_NoDup (l := map fst m)); [|apply Hm].
    apply Permutation_map. symmetry. apply jsSort_perm.
  - intros k v. rewrite jsSort_In, (countMap_In m k v Hm), Hl.
    change (look k []) with 0. rewrite Z.add_0_l. tauto.
Qed.

Lemma ranksWithCount_In (n k : Z) (l : list Z) :
  In k (ranksWithCount n (rankCounts l)) <-> occ k l = n /\ 0 < n.
Proof.
  unfold ranksWithCount. rewrite jsSort_In, in_map_iff.
  destruct (rankCounts_spec l) as [_ Hin]. split.
  - intros ([k' v] & E & H). simpl in E. subst k'.
    apply filter_In in H. destruct H as [H Hv]. simpl in Hv. apply Z.eqb_eq in Hv. subst v.
    now apply Hin.
  - intros H. exists (k, n). split; [reflexivity|]. apply filter_In. split.
    + now apply Hin.
    + simpl. apply Z.eqb_refl.
Qed.

Lemma ranksWithCount_NoDup (n : Z) (l : list Z) : NoDup (ranksWithCount n (rankCounts l)).
Proof.
  unfold ranksWithCount.
  apply (Permutation_NoDup (l := map fst (filter (fun e => snd e =? n) (rankCounts l)))).
  - symmetry. apply jsSort_perm.
  - apply filter_keys_NoDup. apply rankCounts_spec.
Qed.

Lemma occ_app (k : Z) (l l' : list Z) : occ k (l ++ l') = occ k l + occ k l'.
Proof. unfold occ. rewrite count_occ_app. lia. Qed.

Lemma occ_NoDup (k : Z) (l : list Z) : NoDup l -> 0 <= occ k l <= 1.
Proof.
  intros H. unfold occ.
  pose proof (proj1 (NoDup_count_occ Z.eq_dec l) H k). lia.
Qed.

Lemma occ_two (a b : Z) (l : list Z) :
  a <> b -> 0 <= occ a l /\ 0 <= occ b l /\ occ a l + occ b l <= Z.of_nat (length l).
Proof.
  intros Hne. unfold occ. induction l as [|x l IH]; simpl; [lia|].
  destruct (Z.eq_dec x a), (Z.eq_dec x b); subst; try congruence; lia.
Qed.

Lemma long_suit_counts (F O : list Z) :
  NoDup F -> (length O <= 2)%nat ->
  let cnts := rankCounts (F ++ O) in
  ranksWithCount 4 cnts = [] /\
  ((2 <=? length (ranksWithCount 3 cnts))%nat
   || ((1 <=? length (ranksWithCount 3 cnts))%nat
       && (1 <=? length (ranksWithCount 2 cnts))%nat)) = false.
Proof.
  intros HF HO cnts. unfold cnts.
  assert (Hocc : forall k n, In k (ranksWithCount n (rankCounts (F ++ O))) ->
                             n - 1 <= occ k O).
  { intros k n H. apply ranksWithCount_In in H. destruct H as [H _].
    rewrite occ_app in H. pose proof (occ_NoDup k F HF). lia. }
  split.
  - destruct (ranksWithCount 4 (rankCounts (F ++ O))) as [|q qs] eqn:E; [reflexivity|].
    exfalso. pose proof (Hocc q 4) as H. rewrite E in H. specialize (H (or_introl eq_refl)).
    pose proof (occ_two q (q + 1) O ltac:(lia)). lia.
  - pose proof (ranksWithCount_NoDup 3 (F ++ O)) as Hnd.
    destruct (ranksWithCount 3 (rankCounts (F ++ O))) as [|t1 [|t2 ts]] eqn:E3; [reflexivity| |].
    + cbn [length Nat.leb orb andb].
      destruct (ranksWithCount 2 (rankCounts (F ++ O))) as [|p ps] eqn:E2; [reflexivity|].
      exfalso.
      assert (H3 : In t1 (ranksWithCount 3 (rankCounts (F ++ O)))) by (rewrite E3; now left).
      assert (H2 : In p (ranksWithCount 2 (rankCounts (F ++ O)))) by (rewrite E2; now left).
      assert (Hne : t1 <> p).
      { apply ranksWithCount_In in H3, H2. intros ->. lia. }
      apply Hocc in H3, H2. pose proof (occ_two t1 p O Hne). lia.
    + exfalso. rewrite <- E3 in Hnd.
      assert (H1 : In t1 (ranksWithCount 3 (rankCounts (F ++ O)))) by (rewrite E3; now left).
      assert (H2 : In t2 (ranksWithCount 3 (rankCounts (F ++ O))))
        by (rewrite E3; right; now left).
      assert (Hne : t1 <> t2).
      { rewrite E3 in Hnd. inversion Hnd as [|? ? Hn _]; subst. intros ->. apply Hn. now left. }
      apply Hocc in H1, H2. pose proof (occ_two t1 t2 O Hne). lia.
Qed.

Lemma evaluateBy_long_suit (sf : option Z) (top F O : list Z) :
  NoDup F -> (length O <= 2)%nat ->
  evaluateBy sf (Some top) (F ++ O) =
  match sf with
  | Some high => [Some 8; Some high]
  | None => Some 5 :: map Some top
  end.
Proof.
  intros HF HO. destruct (long_suit_counts F O HF HO) as [Hq Hfh].
  unfold evaluateBy. destruct sf; [reflexivity|].
  cbv zeta in Hq, Hfh. rewrite Hq, Hfh. reflexivity.
Qed.

Lemma evaluateMarked_long_suit (F O : list Z) :
  NoDup F -> (5 <= length F)%nat -> (length O <= 2)%nat ->
  evaluateMarked (canon F O) = evaluateMarked (canon F []).
Proof.
  intros HF H5 HO. rewrite !evaluateMarked_canon. unfold flushOf.
  destruct (Nat.leb_spec 5 (length F)); [|lia].
  rewrite (evaluateBy_long_suit _ _ F O HF HO).
  now rewrite (evaluateBy_long_suit _ _ F [] HF) by (simpl; lia).
Qed.

Lemma subsets_app_l {A : Type} (l l' : list A) (k : nat) (S : list A) :
  In S (subsets k l) -> In S (subsets k (l ++ l')).
Proof.
  revert k S; induction l as [|x l IH]; intros [|k] S H.
  - rewrite subsets_zero. simpl in H. exact H.
  - simpl in H. contradiction.
  - rewrite subsets_zero in *. exact H.
  - rewrite <- app_comm_cons. apply subsets_cons. apply subsets_cons in H.
    destruct H as [(S0 & -> & H)|H]; [left; exists S0; auto | right; auto].
Qed.

Lemma subsets_app_split {A : Type} (l l' : list A) (k : nat) (S : list A) :
  In S (subsets k (l ++ l')) ->
  exists S1 S2 k1 k2, S = S1 ++ S2 /\ In S1 (subsets k1 l) /\ In S2 (subsets k2 l') /\
                      k = (k1 + k2)%nat.
Proof.
  revert k S; induction l as [|x l IH]; intros k S H.
  - exists [], S, 0%nat, k. simpl. auto.
  - destruct k as [|k].
    + rewrite subsets_zero in H. destruct H as [<-|[]].
      exists [], [], 0%nat, 0%nat. rewrite !subsets_zero. simpl. auto.
    + rewrite <- app_comm_cons in H. apply subsets_cons in H.
      destruct H as [(S0 & -> & H)|H].
      * destruct (IH _ _ H) as (S1 & S2 & k1 & k2 & -> & H1 & H2 & ->).
        exists (x :: S1), S2, (Datatypes.S k1), k2. repeat split; auto.
        apply subsets_cons. left. now exists S1.
      * destruct (IH _ _ H) as (S1 & S2 & k1 & k2 & -> & H1 & H2 & E).
        exists S1, S2, k1, k2. repeat split; auto.
        destruct k1 as [|k1]; [now rewrite subsets_zero in * |].
        apply subsets_cons. now right.
Qed.

Lemma subsets_NoDup {A : Type} (l : list A) (k : nat) (S : list A) :
  NoDup l -> In S (subsets k l) -> NoDup S.
Proof.
  intros Hl; revert k S; induction Hl as [|x l Hx Hl IH]; intros [|k] S; simpl.
  - intros [<-|[]]. constructor.
  - tauto.
  - intros [<-|[]]. constructor.
  - rewrite in_app_iff, in_map_iff. intros [(S0 & <- & H)|H].
    + constructor; [|eapply IH; eauto]. intros Hin. apply Hx.
      eapply subsets_incl; eauto.
    + eapply IH; eauto.
Qed.

Lemma subsets_size {A : Type} (l : list A) (k : nat) (S : list A) :
  In S (subsets k l) -> (k <= length l)%nat.
Proof.
  revert k S; induction l as [|x l IH]; intros [|k] S; simpl.
  - lia.
  - tauto.
  - lia.
  - rewrite in_app_iff, in_map_iff. intros [(S0 & <- & H)|H].
    + specialize (IH _ _ H). lia.
    + specialize (IH _ _ H). lia.
Qed.

Lemma classify5_flush_high (ranks : list Z) :
  length ranks = 5%nat ->
  exists cat rest, classify5 true ranks = Some cat :: rest /\ 5 <= cat.
Proof.
  intros Hlen. unfold classify5. rewrite <- (jsSort_length descZ) in Hlen.
  destruct (jsSort descZ ranks) as [|a [|b [|c [|d [|e [|f l]]]]]]; try discriminate.
  unfold classifySorted. cbv zeta.
  destruct (a =? b), (b =? c), (c =? d), (d =? e); cbn [orb andb];
  repeat match goal with
         | |- context [if ?b then _ else _] => destruct b
         end;
  eexists _, _; (split; [reflexivity | lia]).
Qed.

Lemma classify5_three_ranks (ranks : list Z) (x y z : Z) :
  length ranks = 5%nat -> In x ranks -> In y ranks -> In z ranks ->
  x <> y -> x <> z -> y <> z ->
  exists cat rest, classify5 false ranks = Some cat :: rest /\ cat <= 4.
Proof.
  intros Hlen Hx Hy Hz Hxy Hxz Hyz. unfold classify5.
  apply (jsSort_In descZ) in Hx, Hy, Hz.
  rewrite <- (jsSort_length descZ) in Hlen.
  destruct (jsSort descZ ranks) as [|a [|b [|c [|d [|e [|f l]]]]]]; try discriminate.
  unfold classifySorted. cbv zeta. simpl in Hx, Hy, Hz.
  destruct (Z.eqb_spec a b), (Z.eqb_spec b c), (Z.eqb_spec c d), (Z.eqb_spec d e);
    cbn [orb andb];
    try (exfalso; lia);
    repeat match goal with
           | |- context [if ?b then _ else _] => destruct b
           end;
    eexists _, _; (split; [reflexivity | lia]).
Qed.

Lemma compare_category (c1 c2 : Z) (a b : RankTuple) :
  c1 < c2 -> compareRankTuples (Some c1 :: a) (Some c2 :: b) < 0.
Proof.
  intros H. rewrite compare_is_lex. simpl. destruct (Z.eqb_spec c1 c2); lia.
Qed.

Lemma validMarked_canon (F O : list Z) :
  Forall (fun x => 2 <= x <= 14) F -> Forall (fun x => 2 <= x <= 14) O ->
  validMarked (canon F O).
Proof.
  intros HF HO. unfold validMarked, canon. apply Forall_app.
  split; apply Forall_map; simpl; assumption.
Qed.

Lemma bestMarked_long_suit (F O : list Z) :
  NoDup F -> (5 <= length F)%nat -> (length O <= 2)%nat ->
  Forall (fun x => 2 <= x <= 14) F -> Forall (fun x => 2 <= x <= 14) O ->
  bestMarked (canon F O) = bestMarked (canon F []).
Proof.
  intros HF H5 HO HvF HvO.
  set (v := bestMarked (canon F [])).
  assert (Hv : exists T, In T (subsets 5 F) /\ v = classify5 true T /\
                         forall T', In T' (subsets 5 F) ->
                                    compareRankTuples (classify5 true T') v <= 0).
  { unfold v. rewrite bestMarked_flagged. unfold bestRanks.
    destruct (subsets_nonempty F 5 H5) as [T0 HT0].
    destruct (maxTuple_spec (map (classify5 true) (subsets 5 F))) as [H1 H2].
    { intros E. apply (in_map (classify5 true)) in HT0. rewrite E in HT0. contradiction. }
    apply in_map_iff in H1. destruct H1 as (T & ET & HT).
    exists T. split; [exact HT|]. split; [now rewrite ET|].
    intros T' HT'. apply H2. now apply in_map. }
  destruct Hv as (T & HT & Ev & Hmax).
  assert (Hflag : forall T', standard5Marked (map (fun x => (x, true)) T') = classify5 true T').
  { intros T'. unfold standard5Marked. rewrite map_map. cbn [fst]. rewrite map_id. f_equal.
    induction T' as [|x T' IH]; simpl; auto. }
  unfold bestMarked at 1. apply maxTuple_unique.
  - apply Forall_forall. intros w Hw. apply in_map_iff in Hw. destruct Hw as (S & <- & HS).
    eapply standard5Marked_StrengthValue; [|exact HS]. now apply validMarked_canon.
  - apply in_map_iff. exists (map (fun x => (x, true)) T). split.
    + now rewrite Hflag.
    + unfold canon. apply subsets_app_l. rewrite subsets_map. now apply in_map.
  - intros w Hw. apply in_map_iff in Hw. destruct Hw as (S & <- & HS).
    unfold canon in HS. apply subsets_app_split in HS.
    destruct HS as (S1 & S2 & k1 & k2 & -> & H1 & H2 & Ek).
    rewrite subsets_map in H1, H2. apply in_map_iff in H1, H2.
    destruct H1 as (T1 & <- & HT1), H2 as (T2 & <- & HT2).
    pose proof (subsets_length _ _ _ HT1) as L1.
    pose proof (subsets_length _ _ _ HT2) as L2.
    destruct T2 as [|u T2].
    + simpl in L2. subst k2. rewrite Nat.add_0_r in Ek. subst k1.
      cbn [map]. rewrite app_nil_r, Hflag. now apply Hmax.
    + pose proof (subsets_size _ _ _ HT2) as Hk2.
      assert (Hk1 : (3 <= length T1)%nat) by lia.
      pose proof (subsets_NoDup _ _ _ HF HT1) as Hnd.
      destruct T1 as [|x [|y [|z T1]]]; try (simpl in Hk1; lia).
      destruct (classify5_flush_high T (subsets_length _ _ _ HT)) as (cv & rv & Ecv & Hcv).
      unfold standard5Marked.
      match goal with
      | |- context [classify5 (forallb snd ?m) (map fst ?m)] => set (hand := m)
      end.
      assert (Ef : forallb snd hand = false).
      { unfold hand. rewrite forallb_app. cbn [map forallb snd andb]. now rewrite andb_false_r. }
      assert (Hcat : exists cat rest,
                classify5 false (map fst hand) = Some cat :: rest /\ cat <= 4).
      { inversion Hnd as [|? ? Hx Hnd1]; inversion Hnd1 as [|? ? Hy Hnd2]; subst.
        apply (classify5_three_ranks _ x y z).
        - unfold hand. rewrite length_map, length_app, !length_map. lia.
        - unfold hand. simpl. auto.
        - unfold hand. simpl. auto.
        - unfold hand. simpl. auto.
        - intros ->. apply Hx. now left.
        - intros ->. apply Hx. right. now left.
        - intros ->. apply Hy. now left. }
      destruct Hcat as (cw & rw & Ew & Hcw).
      rewrite Ef, Ew, Ev, Ecv.
      pose proof (compare_category cw cv rw rv ltac:(lia)). lia.
Qed.

(** ** The evaluator against the reference *)

Lemma ranks_checked_5 : checkRanks 5 = true.
Proof. vm_cast_no_check (eq_refl true). Qed.

Lemma ranks_checked_6 : checkRanks 6 = true.
Proof. vm_cast_no_check (eq_refl true). Qed.

Lemma ranks_checked_7 : checkRanks 7 = true.
Proof. vm_cast_no_check (eq_refl true). Qed.

Lemma suit_checked_5 : checkSuit 5 = true.
Proof. vm_cast_no_check (eq_refl true). Qed.

Lemma suit_checked_6 : checkSuit 6 = true.
Proof. vm_cast_no_check (eq_refl true). Qed.

Lemma suit_checked_7 : checkSuit 7 = true.
Proof. vm_cast_no_check (eq_refl true). Qed.

Lemma validMarked_mark (x : Suit) (cards : list Card) :
  Forall validCard cards -> validMarked (map (mark x) cards).
Proof.
  unfold validMarked. rewrite !Forall_forall. intros H m Hm.
  apply in_map_iff in Hm. destruct Hm as (c & <- & Hc). apply H, Hc.
Qed.

Lemma validMarked_unmarked (cards : list Card) :
  Forall validCard cards -> validMarked (map unmarked cards).
Proof.
  unfold validMarked. rewrite !Forall_forall. intros H m Hm.
  apply in_map_iff in Hm. destruct Hm as (c & <- & Hc). apply H, Hc.
Qed.

Lemma ranks_valid (cards : list Card) :
  Forall validCard cards -> Forall (fun x => 2 <= x <= 14) (map r cards).
Proof.
  rewrite !Forall_forall. intros H x Hx.
  apply in_map_iff in Hx. destruct Hx as (c & <- & Hc). apply H, Hc.
Qed.

Lemma otherRanks_unmarked (cards : list Card) : otherRanks (map unmarked cards) = map r cards.
Proof. unfold otherRanks. induction cards; simpl; f_equal; auto. Qed.

Lemma otherRanks_mark (x : Suit) (cards : list Card) :
  otherRanks (map (mark x) cards) =
  map r (filter (fun c => negb (suit_eqb (s c) x)) cards).
Proof.
  unfold otherRanks, mark. induction cards as [|c cards IH]; simpl; [reflexivity|].
  destruct (suit_eqb (s c) x); simpl; now rewrite IH.
Qed.

Lemma rankCheck_hand (cards : list Card) :
  validHand cards -> rankCheck (jsSort descZ (map r cards)) = true.
Proof.
  intros (Hv & Hnd & Hlen).
  destruct (sorted_ranks (map r cards) (ranks_valid cards Hv)) as (Hl & Hs & Hr).
  rewrite length_map in Hl.
  assert (Hc : atMostFour (jsSort descZ (map r cards)) = true).
  { apply (atMostFour_ranks cards); [exact Hnd | symmetry; apply jsSort_perm]. }
  assert (Huse : forall n, checkRanks n = true -> length cards = n ->
                        rankCheck (jsSort descZ (map r cards)) = true).
  { intros n Hk En. rewrite En in Hl. unfold checkRanks in Hk.
    pose proof (allDesc_spec _ _ _ Hk _ Hl Hs Hr) as Hi.
    cbv beta in Hi. rewrite Hc in Hi. exact Hi. }
  assert (Hn : length cards = 5%nat \/ length cards = 6%nat \/ length cards = 7%nat) by lia.
  destruct Hn as [Hn|[Hn|Hn]].
  - exact (Huse _ ranks_checked_5 Hn).
  - exact (Huse _ ranks_checked_6 Hn).
  - exact (Huse _ ranks_checked_7 Hn).
Qed.

Lemma suitCheck_hand (cards : list Card) (x : Suit) :
  validHand cards -> (5 <= length (inSuit x cards))%nat ->
  suitCheck (jsSort descZ (map r (inSuit x cards))) = true.
Proof.
  intros (Hv & Hnd & Hlen) Hx.
  set (F := map r (inSuit x cards)).
  assert (HvF : Forall (fun x => 2 <= x <= 14) F).
  { apply ranks_valid. unfold inSuit. rewrite Forall_forall in *.
    intros c Hc. apply filter_In in Hc. apply Hv, Hc. }
  destruct (sorted_ranks F HvF) as (HlF & HsF & HrF).
  assert (Hd : distinctZ (jsSort descZ F) = true).
  { apply distinctZ_NoDup.
    apply (Permutation_NoDup (l := F)); [symmetry; apply jsSort_perm|].
    now apply inSuit_ranks_NoDup. }
  assert (HF : (5 <= length F <= 7)%nat).
  { unfold F. rewrite length_map. split; [exact Hx|].
    pose proof (filter_length_le (fun c => suit_eqb (s c) x) cards) as Hle.
    unfold inSuit. lia. }
  assert (Huse : forall k, checkSuit k = true -> length F = k ->
                        suitCheck (jsSort descZ F) = true).
  { intros k Hk E. rewrite E in HlF. unfold checkSuit in Hk.
    pose proof (allDesc_spec _ _ _ Hk _ HlF HsF HrF) as Hi.
    cbv beta in Hi. rewrite Hd in Hi. exact Hi. }
  assert (Hn : length F = 5%nat \/ length F = 6%nat \/ length F = 7%nat) by lia.
  destruct Hn as [Hn|[Hn|Hn]].
  - exact (Huse _ suit_checked_5 Hn).
  - exact (Huse _ suit_checked_6 Hn).
  - exact (Huse _ suit_checked_7 Hn).
Qed.

Lemma rankCheck_agree (l : list Z) :
  rankCheck l = true -> evaluateBy None None l = bestSorted false l.
Proof.
  unfold rankCheck. cbv zeta.
  destruct (tuple_eqb (evaluateBy None None l) (bestSorted false l)) eqn:E; [|discriminate].
  intros _. now apply tuple_eqb_eq.
Qed.

Lemma evaluate_descending (cards : list Card) :
  (forall x, short cards x) ->
  evaluate cards = evaluateBy None None (jsSort descZ (map r cards)).
Proof.
  intros Hs. rewrite (evaluate_no_flush cards Hs).
  rewrite (evaluateMarked_Permutation _ _ (canon_sorted (map unmarked cards))).
  rewrite markedRanks_unmarked, otherRanks_unmarked. apply evaluateMarked_canon.
Qed.

Lemma bestOfFive_descending (cards : list Card) :
  validHand cards -> (forall x, short cards x) ->
  bestOfFive cards = bestSorted false (jsSort descZ (map r cards)).
Proof.
  intros (Hv & Hnd & Hlen) Hs. rewrite (bestOfFive_no_flush cards Hs).
  assert (H5 : (5 <= length (map unmarked cards))%nat) by (rewrite length_map; lia).
  rewrite (bestMarked_Permutation _ _ H5
             (validMarked_unmarked cards Hv) (canon_sorted (map unmarked cards))).
  rewrite markedRanks_unmarked, otherRanks_unmarked.
  change (jsSort descZ []) with (@nil Z).
  rewrite bestMarked_unflagged. symmetry. apply bestSorted_bestRanks, sortDesc_sorted.
Qed.

Lemma long_suit_shape (cards : list Card) (x : Suit) :
  validHand cards -> (5 <= length (inSuit x cards))%nat ->
  let F := jsSort descZ (map r (inSuit x cards)) in
  let O := jsSort descZ (otherRanks (map (mark x) cards)) in
  Permutation (map (mark x) cards) (canon F O) /\
  NoDup F /\ (5 <= length F)%nat /\ (length O <= 2)%nat /\
  Forall (fun x => 2 <= x <= 14) F /\ Forall (fun x => 2 <= x <= 14) O.
Proof.
  intros (Hv & Hnd & Hlen) Hx F O.
  assert (Hp : Permutation (map (mark x) cards) (canon F O)).
  { unfold F, O. rewrite <- markedRanks_mark. apply canon_sorted. }
  split; [exact Hp|].
  assert (HlF : length F = length (inSuit x cards)).
  { unfold F. now rewrite jsSort_length, length_map. }
  split; [|split; [lia|split; [|split]]].
  - apply (Permutation_NoDup (l := map r (inSuit x cards))); [symmetry; apply jsSort_perm|].
    now apply inSuit_ranks_NoDup.
  - pose proof (Permutation_length Hp) as E. unfold canon in E.
    rewrite length_app, !length_map in E. lia.
  - apply sorted_ranks, ranks_valid. unfold inSuit. rewrite Forall_forall in *.
    intros c Hc. apply filter_In in Hc. apply Hv, Hc.
  - unfold O. rewrite otherRanks_mark. apply sorted_ranks, ranks_valid.
    rewrite Forall_forall in *. intros c Hc. apply filter_In in Hc. apply Hv, Hc.
Qed.

Lemma evaluate_is_best (cards : list Card) :
  validHand cards -> evaluate cards = bestOfFive cards.
Proof.
  intros Hh. pose proof Hh as (Hv & Hnd & Hlen).
  destruct (one_long_suit cards) as [Hs|(x & Hx & Hs)]; [lia| |].
  - rewrite (evaluate_descending cards Hs), (bestOfFive_descending cards Hh Hs).
    apply rankCheck_agree. now apply rankCheck_hand.
  - destruct (long_suit_shape cards x Hh Hx) as (Hp & HF & H5 & HO & HvF & HvO).
    set (F := jsSort descZ (map r (inSuit x cards))) in *.
    set (O := jsSort descZ (otherRanks (map (mark x) cards))) in *.
    rewrite (evaluate_flush cards x Hx Hs), (bestOfFive_flush cards x Hs).
    rewrite (evaluateMarked_Permutation _ _ Hp).
    assert (Hm : (5 <= length (map (mark x) cards))%nat) by (rewrite length_map; lia).
    rewrite (bestMarked_Permutation _ _ Hm (validMarked_mark x cards Hv) Hp).
    rewrite (evaluateMarked_long_suit F O HF H5 HO).
    rewrite (bestMarked_long_suit F O HF H5 HO HvF HvO).
    rewrite evaluateMarked_canon, app_nil_r, bestMarked_flagged.
    rewrite <- (bestSorted_bestRanks true F (sortDesc_sorted _)).
    apply tuple_eqb_eq. exact (suitCheck_hand cards x Hh Hx).
Qed.

Lemma bestOfFive_StrengthValue (cards : list Card) :
  validHand cards -> StrengthValue (bestOfFive cards).
Proof.
  intros (Hv & Hnd & Hlen).
  destruct (one_long_suit cards) as [Hs|(x & Hx & Hs)]; [lia| |].
  - rewrite (bestOfFive_no_flush cards Hs). apply bestMarked_StrengthValue.
    + rewrite length_map. lia.
    + now apply validMarked_unmarked.
  - rewrite (bestOfFive_flush cards x Hs). apply bestMarked_StrengthValue.
    + rewrite length_map. lia.
    + now apply validMarked_mark.
Qed.

Lemma evaluate_StrengthValue (cards : list Card) :
  validHand cards -> StrengthValue (evaluate cards).
Proof.
  intros H. rewrite (evaluate_is_best cards H). now apply bestOfFive_StrengthValue.
Qed.

(** ** Straights *)

Lemma presentb_spec (l : list Z) (x : Z) :
  presentb l x = true <-> In x l \/ (x = 1 /\ In 14 l).
Proof.
  unfold presentb. destruct (anyb (Z.eqb x) l) eqn:E.
  - apply anyb_eqb_In in E. tauto.
  - assert (~ In x l) by (rewrite <- anyb_eqb_In; congruence).
    destruct (Z.eqb_spec x 1) as [->|].
    + rewrite anyb_eqb_In. tauto.
    + split; [discriminate | tauto].
Qed.

Lemma runb_spec (l : list Z) (h : Z) :
  runb l h = true <-> forall k, 0 <= k < 5 -> presentb l (h - k) = true.
Proof.
  unfold runb. rewrite allb_forallb, forallb_forall. split.
  - intros H k Hk. apply H. simpl. lia.
  - intros H k Hk. apply H. simpl in Hk. lia.
Qed.

Lemma presentb_rankPresent (cards : list Card) (x : Z) :
  presentb (map r cards) x = true <-> rankPresent cards x.
Proof. apply presentb_spec. Qed.

Lemma runb_runEndingAt (cards : list Card) (h : Z) :
  runb (map r cards) h = true <-> runEndingAt cards h.
Proof.
  rewrite runb_spec. unfold runEndingAt. split; intros H k Hk.
  - now apply presentb_rankPresent, H.
  - now apply presentb_rankPresent, H.
Qed.

Lemma runb_Permutation (l l' : list Z) (h : Z) :
  Permutation l l' -> runb l h = runb l' h.
Proof.
  intros Hp. apply eq_true_iff_eq. rewrite !runb_spec.
  assert (E : forall x, presentb l x = true <-> presentb l' x = true).
  { intros x. rewrite !presentb_spec.
    split; intros [H|[H1 H2]]; auto; [left | right; split; auto | left | right; split; auto];
      first [eapply Permutation_in; [exact Hp | assumption]
            | eapply Permutation_in; [symmetry; exact Hp | assumption]]. }
  split; intros H k Hk; apply E, H, Hk.
Qed.

Lemma rankPresent_range (cards : list Card) (x : Z) :
  Forall validCard cards -> rankPresent cards x -> 1 <= x <= 14.
Proof.
  intros Hv [H|[-> _]]; [|lia].
  apply in_map_iff in H. destruct H as (c & <- & Hc).
  rewrite Forall_forall in Hv. specialize (Hv c Hc). unfold validCard in Hv. lia.
Qed.

Lemma runEndingAt_range (cards : list Card) (h : Z) :
  Forall validCard cards -> runEndingAt cards h -> In h runEnds.
Proof.
  intros Hv H.
  pose proof (rankPresent_range cards _ Hv (H 0 ltac:(lia))).
  pose proof (rankPresent_range cards _ Hv (H 4 ltac:(lia))).
  unfold runEnds. simpl. lia.
Qed.

Lemma find_first_descending (p : Z -> bool) (L : list Z) (h : Z) :
  StronglySorted Z.ge L -> find p L = Some h ->
  p h = true /\ forall h', In h' L -> p h' = true -> h' <= h.
Proof.
  induction 1 as [|a L HL IH Ha]; simpl; [discriminate|].
  destruct (p a) eqn:E.
  - intros E'. inversion E'; subst. split; [exact E|].
    intros h' [<-|Hin] _; [lia|]. rewrite Forall_forall in Ha. specialize (Ha h' Hin). lia.
  - intros Hf. destruct (IH Hf) as [H1 H2]. split; [exact H1|].
    intros h' [<-|Hin] Hp; [congruence | auto].
Qed.

Lemma find_pointwise {A : Type} (p q : A -> bool) (l : list A) :
  (forall x, p x = q x) -> find p l = find q l.
Proof.
  intros H. induction l as [|x l IH]; simpl; [reflexivity|]. now rewrite H, IH.
Qed.

Lemma runEnds_descending : StronglySorted Z.ge runEnds.
Proof. unfold runEnds. repeat (constructor; [|repeat constructor; lia]). constructor. Qed.

Lemma quadsb_spec (l : list Z) :
  quadsb l = true <-> exists x, In x l /\ (4 <= countOf x l)%nat.
Proof.
  unfold quadsb. rewrite anyb_existsb, existsb_exists.
  split; intros (x & Hx & H); exists x; (split; [exact Hx|]); now apply Nat.leb_le.
Qed.

Lemma fullHouseb_spec (l : list Z) :
  fullHouseb l = true <->
  exists x y, In x l /\ In y l /\ x <> y /\ (3 <= countOf x l)%nat /\ (2 <= countOf y l)%nat.
Proof.
  unfold fullHouseb. rewrite anyb_existsb, existsb_exists. split.
  - intros (x & Hx & H). destruct (Nat.leb_spec 3 (countOf x l)); [|discriminate].
    rewrite anyb_existsb, existsb_exists in H. destruct H as (y & Hy & H).
    destruct (Z.eqb_spec x y); [discriminate|]. apply Nat.leb_le in H.
    exists x, y. auto.
  - intros (x & y & Hx & Hy & Hne & H3 & H2). exists x. split; [exact Hx|].
    destruct (Nat.leb_spec 3 (countOf x l)); [|lia].
    rewrite anyb_existsb, existsb_exists. exists y. split; [exact Hy|].
    destruct (Z.eqb_spec x y); [contradiction|]. now apply Nat.leb_le.
Qed.

Lemma ofRank_In (x : Z) (cards : list Card) :
  (1 <= length (ofRank x cards))%nat -> In x (map r cards).
Proof.
  unfold ofRank. intros H.
  destruct (filter (fun c => r c =? x) cards) as [|c l] eqn:E; [simpl in H; lia|].
  assert (Hc : In c (filter (fun c => r c =? x) cards)) by (rewrite E; now left).
  apply filter_In in Hc. destruct Hc as [Hc Hx]. apply Z.eqb_eq in Hx. subst x.
  now apply in_map.
Qed.

Lemma quadsb_hasQuads (cards : list Card) (l : list Z) :
  Permutation (map r cards) l -> (quadsb l = true <-> hasQuads cards).
Proof.
  intros Hp. rewrite quadsb_spec. unfold hasQuads. split.
  - intros (x & _ & H). exists x.
    now rewrite <- (countOf_Permutation x _ _ Hp), countOf_ranks in H.
  - intros (x & H). exists x. split.
    + apply (Permutation_in _ Hp), ofRank_In. lia.
    + now rewrite <- (countOf_Permutation x _ _ Hp), countOf_ranks.
Qed.

Lemma fullHouseb_hasFullHouse (cards : list Card) (l : list Z) :
  Permutation (map r cards) l -> (fullHouseb l = true <-> hasFullHouse cards).
Proof.
  intros Hp. rewrite fullHouseb_spec. unfold hasFullHouse. split.
  - intros (x & y & _ & _ & Hne & H3 & H2). exists x, y.
    rewrite <- (countOf_Permutation x _ _ Hp), countOf_ranks in H3.
    rewrite <- (countOf_Permutation y _ _ Hp), countOf_ranks in H2. auto.
  - intros (x & y & Hne & H3 & H2). exists x, y.
    rewrite <- (countOf_Permutation x _ _ Hp), <- (countOf_Permutation y _ _ Hp), !countOf_ranks.
    repeat split; auto; apply (Permutation_in _ Hp), ofRank_In; lia.
Qed.

Lemma no_flush_short (cards : list Card) : ~ hasFlush cards -> forall x, short cards x.
Proof.
  intros H x. unfold short. destruct (Nat.lt_ge_cases (length (inSuit x cards)) 5); [assumption|].
  exfalso. apply H. now exists x.
Qed.

Lemma straight_detected (cards : list Card) :
  validHand cards -> ~ hasFlush cards -> ~ hasQuads cards -> ~ hasFullHouse cards ->
  match highestRun (map r cards) with
  | Some h => evaluate cards = [Some 4; Some h] /\ runEndingAt cards h /\
              forall h', runEndingAt cards h' -> h' <= h
  | None => first0 (evaluate cards) <> Some 4 /\ forall h, ~ runEndingAt cards h
  end.
Proof.
  intros Hh Hfl Hq Hf. pose proof Hh as (Hv & _ & _).
  assert (Hp : Permutation (map r cards) (jsSort descZ (map r cards)))
    by (symmetry; apply jsSort_perm).
  pose proof (rankCheck_hand cards Hh) as Hok. unfold rankCheck in Hok. cbv zeta in Hok.
  rewrite <- (evaluate_descending cards (no_flush_short cards Hfl)) in Hok.
  destruct (tuple_eqb (evaluate cards) _); [|discriminate].
  destruct (quadsb _) eqn:Eq; [apply (quadsb_hasQuads cards _ Hp) in Eq; contradiction|].
  destruct (fullHouseb _) eqn:Ef;
    [apply (fullHouseb_hasFullHouse cards _ Hp) in Ef; contradiction|].
  unfold straightOk in Hok.
  assert (Eh : highestRun (jsSort descZ (map r cards)) = highestRun (map r cards)).
  { unfold highestRun. apply find_pointwise. intros h. symmetry. now apply runb_Permutation. }
  rewrite Eh in Hok. unfold highestRun in *.
  destruct (find (runb (map r cards)) runEnds) as [h|] eqn:E.
  - apply tuple_eqb_eq in Hok.
    destruct (find_first_descending _ _ _ runEnds_descending E) as [H1 H2].
    split; [exact Hok|]. split; [now apply runb_runEndingAt|].
    intros h' Hr. apply H2; [now apply runEndingAt_range with cards | now apply runb_runEndingAt].
  - split.
    + intros E4. rewrite E4 in Hok. simpl in Hok. discriminate.
    + intros h Hr. pose proof (find_none _ _ E h (runEndingAt_range cards h Hv Hr)) as Hn.
      apply runb_runEndingAt in Hr. congruence.
Qed.

(** * The claims of the specification *)

Lemma Forall_validCard_dec (l : list Card) :
  forallb (fun c => (2 <=? r c) && (r c <=? 14)) l = true -> Forall validCard l.
Proof.
  rewrite forallb_forall, Forall_forall. intros H c Hc. specialize (H c Hc).
  unfold validCard. lia.
Qed.

Lemma validHand_dec (l : list Card) :
  forallb (fun c => (2 <=? r c) && (r c <=? 14)) l = true -> distinctb l = true ->
  ((5 <=? length l) && (length l <=? 7))%nat = true -> validHand l.
Proof.
  intros H1 H2 H3. split; [now apply Forall_validCard_dec|].
  split; [now apply distinctb_NoDup|].
  apply andb_true_iff in H3. destruct H3 as [H3 H4].
  apply Nat.leb_le in H3, H4. lia.
Qed.

(** The three checks the page runs on itself when it loads. *)
Example page_self_tests :
  heroCat (analyzeSimple AhAd Kc7h2d) = "One Pair"%string /\
  catName (first0 (evaluate (AhAd ++ [mkCard 14 Clubs; mkCard 13 Clubs; mkCard 2 Diamonds])))
    = "Three of a Kind"%string /\
  catName (first0 (evaluate [mkCard 13 Clubs; mkCard 12 Clubs; mkCard 11 Clubs;
                             mkCard 10 Clubs; mkCard 9 Clubs]))
    = "Straight Flush"%string.
Proof. repeat split; vm_compute; reflexivity. Qed.

(** C1. For every hand of 5, 6 or 7 pairwise distinct cards, [evaluate]
    returns the same tuple as the reference that evaluates every five-card
    subset with a standard five-card evaluator and keeps the maximum under
    the comparator; the tuple is a strength value, so its category lies in
    [0,8]. *)
Theorem evaluate_best_of_five (cards : list Card) :
  validHand cards ->
  evaluate cards = bestOfFive cards /\
  StrengthValue (evaluate cards) /\
  exists cat, first0 (evaluate cards) = Some cat /\ 0 <= cat <= 8.
Proof.
  intros H. split; [now apply evaluate_is_best|].
  pose proof (evaluate_StrengthValue cards H) as Hsv. split; [exact Hsv|].
  destruct Hsv as (cat & rest & E & Hc & _). exists cat. rewrite E. now split.
Qed.

Lemma evaluate_best_of_five_witness :
  validHand sevenCards /\ evaluate sevenCards = bestOfFive sevenCards /\
  evaluate sevenCards = [Some 8; Some 5].
Proof.
  assert (H : validHand sevenCards) by (apply validHand_dec; reflexivity).
  split; [exact H|]. split; [apply (evaluate_best_of_five sevenCards H) | reflexivity].
Defined.

Lemma visit_one_bucket (flop : list Card) (hr : RankTuple) (x y : Card) (t : Tally) :
  let t' := visit flop hr x y t in
  (tBetter t' = tBetter t + 1 /\ tWorse t' = tWorse t /\ tTie t' = tTie t) \/
  (tBetter t' = tBetter t /\ tWorse t' = tWorse t + 1 /\ tTie t' = tTie t) \/
  (tBetter t' = tBetter t /\ tWorse t' = tWorse t /\ tTie t' = tTie t + 1).
Proof.
  unfold visit. destruct (0 <? _); [simpl; auto|]. destruct (_ <? 0); simpl; auto.
Qed.

(** C2. For 2 hero cards and 3 flop cards, all five distinct, the counts
    satisfy [better + worse + tie = 1081]: the remaining deck has 47
    distinct cards, the two loops visit exactly the pairs [(deck[i], deck[j])]
    with [i < j] (1081 of them, each unordered pair of distinct deck cards
    once), and each visit adds one to exactly one of the three counts. *)
Theorem counts_sum_to_1081 (hero flop : list Card) :
  length hero = 2%nat -> length flop = 3%nat ->
  Forall validCard (hero ++ flop) -> NoDup (hero ++ flop) ->
  let deck := remainingDeck hero flop in
  let res := analyzeSimple hero flop in
  better res + worse res + tie res = 1081 /\
  length deck = 47%nat /\ NoDup deck /\
  (forall c, In c deck <-> validCard c /\ ~ In c (hero ++ flop)) /\
  length (pairsOf deck) = 1081%nat /\ NoDup (pairsOf deck) /\
  (forall x y, In (x, y) (pairsOf deck) <->
     exists i j, (i < j)%nat /\ nth_error deck i = Some x /\ nth_error deck j = Some y) /\
  (forall x y, In x deck -> In y deck -> x <> y ->
     (In (x, y) (pairsOf deck) /\ ~ In (y, x) (pairsOf deck)) \/
     (In (y, x) (pairsOf deck) /\ ~ In (x, y) (pairsOf deck))) /\
  enumerate flop (evaluate (hero ++ flop)) deck (mkTally 0 0 0 [] []) =
    fold_left (fun t p => visit flop (evaluate (hero ++ flop)) (fst p) (snd p) t)
              (pairsOf deck) (mkTally 0 0 0 [] []) /\
  (forall x y t,
     let t' := visit flop (evaluate (hero ++ flop)) x y t in
     (tBetter t' = tBetter t + 1 /\ tWorse t' = tWorse t /\ tTie t' = tTie t) \/
     (tBetter t' = tBetter t /\ tWorse t' = tWorse t + 1 /\ tTie t' = tTie t) \/
     (tBetter t' = tBetter t /\ tWorse t' = tWorse t /\ tTie t' = tTie t + 1)).
Proof.
  intros Hh Hf Hv Hnd deck res.
  destruct (remainingDeck_spec hero flop Hv Hnd) as (Hlen & Hdn & Hmem).
  fold deck in Hlen, Hdn, Hmem.
  assert (H47 : length deck = 47%nat) by (rewrite length_app in Hlen; lia).
  assert (Hp : length (pairsOf deck) = 1081%nat).
  { pose proof (pairsOf_length deck) as E. rewrite H47 in E. simpl in E. lia. }
  split.
  { unfold res, analyzeSimple. cbn [better worse tie]. fold deck.
    rewrite enumerate_pairs.
    pose proof (fold_visit_total flop (evaluate (hero ++ flop)) (pairsOf deck)
                  (mkTally 0 0 0 [] [])) as E.
    unfold total in E. rewrite Hp in E. simpl in E. lia. }
  split; [exact H47|]. split; [exact Hdn|]. split; [exact Hmem|].
  split; [exact Hp|]. split; [now apply pairsOf_NoDup|].
  split; [intros x y; apply pairsOf_In|].
  split.
  { intros x y Hx Hy Hne.
    destruct (pairsOf_every deck x y Hx Hy Hne) as [H|H]; [left | right];
      (split; [exact H | now apply (pairsOf_once deck _ _ Hdn)]). }
  split; [apply enumerate_pairs|].
  intros x y t. apply visit_one_bucket.
Qed.

Lemma counts_sum_to_1081_witness :
  let res := analyzeSimple AhAd Kc7h2d in
  better res + worse res + tie res = 1081 /\
  (better res, worse res, tie res) = (36, 1044, 1).
Proof.
  split; [|vm_compute; reflexivity].
  apply (counts_sum_to_1081 AhAd Kc7h2d); try reflexivity.
  - apply Forall_validCard_dec. reflexivity.
  - apply distinctb_NoDup. reflexivity.
Defined.

(** C3. The decision rule is a total function of the two counts: it is
    Fold exactly when [better > worse] and Call whenever [better <= worse],
    the pair (0, 0) included; it is the rule [analyzeSimple] applies. *)
Theorem decide_fold_iff (b w : Z) :
  (decide b w = Fold <-> b > w) /\
  (b <= w -> decide b w = Call) /\
  decide 0 0 = Call /\
  (forall hero flop,
     recommendation (analyzeSimple hero flop) =
     decide (better (analyzeSimple hero flop)) (worse (analyzeSimple hero flop))).
Proof.
  unfold decide. rewrite Z.gtb_ltb. destruct (Z.ltb_spec w b).
  - repeat split; try lia; auto.
  - repeat split; try lia; auto; discriminate.
Qed.

Lemma decide_fold_iff_witness : decide 3 5 = Call /\ decide 5 3 = Fold.
Proof.
  split.
  - apply (proj1 (proj2 (decide_fold_iff 3 5))). lia.
  - apply (proj1 (decide_fold_iff 5 3)). lia.
Defined.

Lemma evaluate_head (cards : list Card) :
  exists cat rest, evaluate cards = Some cat :: rest /\ 0 <= cat <= 8.
Proof.
  unfold evaluate.
  repeat match goal with
         | |- context [match ?x with _ => _ end] => destruct x
         end;
  eexists _, _; (split; [reflexivity | lia]).
Qed.





Lemma sevenBit_dec (t : string) :
  forallb (fun c => (nat_of_ascii c <? 128)%nat) (list_ascii_of_string t) = true ->
  sevenBit t.
Proof.
  unfold sevenBit. rewrite forallb_forall, Forall_forall. intros H c Hc.
  apply Nat.ltb_lt. auto.
Qed.


(** C6. [compareRankTuples] is the lexicographic comparison of the two
    tuples with missing positions read as 0; it is reflexive, exchanging
    the arguments negates the result, it is transitive, the first entry
    (the category) decides whenever it differs, and on strength values a
    result of 0 means equality: a total order. *)
Theorem compare_total_order :
  (forall a b, compareRankTuples a b = lexCompare a b) /\
  (forall x, compareRankTuples x x = 0) /\
  (forall a b, compareRankTuples b a = - compareRankTuples a b) /\
  (forall a b c, compareRankTuples a b <= 0 -> compareRankTuples b c <= 0 ->
                 compareRankTuples a c <= 0) /\
  (forall a b, compareRankTuples a b <= 0 \/ compareRankTuples b a <= 0) /\
  (forall c1 c2 a b, c1 < c2 -> compareRankTuples (Some c1 :: a) (Some c2 :: b) < 0) /\
  (forall a b, StrengthValue a -> StrengthValue b -> compareRankTuples a b = 0 -> a = b).
Proof.
  split; [apply compare_is_lex|]. split; [apply compare_refl|].
  split; [apply compare_opp|]. split; [apply compare_trans|].
  split; [intros a b; rewrite (compare_opp a b); lia|].
  split; [|apply compare_zero_StrengthValue].
  intros c1 c2 a b H. rewrite compare_is_lex. simpl.
  destruct (Z.eqb_spec c1 c2); lia.
Qed.

Lemma compare_total_order_witness :
  compareRankTuples [Some 1; Some 14] [Some 4; Some 5] <= 0 /\
  compareRankTuples [Some 1; Some 14] [Some 5; Some 2] < 0.
Proof.
  destruct compare_total_order as (_ & _ & _ & Ht & _ & Hc & _). split.
  - apply (Ht _ [Some 2; Some 3; Some 2; Some 9]); vm_compute; discriminate.
  - apply Hc. lia.
Defined.

(** C7. On strength values (a category followed by ranks, as [evaluate]
    returns for every valid hand) the comparison is 0 only for identical
    tuples. *)
Theorem compare_zero_iff_equal (a b : RankTuple) :
  StrengthValue a -> StrengthValue b ->
  (compareRankTuples a b = 0 <-> a = b) /\
  (a <> b -> compareRankTuples a b <> 0).
Proof.
  intros Ha Hb.
  assert (H : compareRankTuples a b = 0 <-> a = b).
  { split; [now apply compare_zero_StrengthValue|]. intros ->. apply compare_refl. }
  split; [exact H|]. intros Hne E. now apply Hne, H.
Qed.

Lemma StrengthValue_example : StrengthValue [Some 4; Some 5] /\ StrengthValue [Some 4; Some 6].
Proof. split; eexists _, _; (split; [reflexivity | split; [lia | rank_entries]]). Qed.

Lemma compare_zero_iff_equal_witness :
  StrengthValue [Some 4; Some 5] /\ StrengthValue [Some 4; Some 6] /\
  compareRankTuples [Some 4; Some 5] [Some 4; Some 6] <> 0.
Proof.
  destruct StrengthValue_example as [H1 H2]. split; [exact H1|]. split; [exact H2|].
  apply (proj2 (compare_zero_iff_equal _ _ H1 H2)). discriminate.
Defined.

(** Outside the strength values the comparison does not separate tuples
    that differ by trailing zeros or undefined entries. *)
Example compare_ignores_trailing_zeros :
  compareRankTuples [Some 4; Some 5] [Some 4; Some 5; Some 0] = 0 /\
  compareRankTuples [Some 7; Some 9; None] [Some 7; Some 9] = 0.
Proof. split; reflexivity. Qed.

(** C8. In a valid hand without flush, quads or full house, [evaluate]
    reports a straight exactly when some five consecutive ranks are
    present (the ace also counting as 1), and then returns category 4 with
    the end of the highest such run, 5 for the wheel. *)
Theorem straight_iff_run (cards : list Card) :
  validHand cards -> ~ hasFlush cards -> ~ hasQuads cards -> ~ hasFullHouse cards ->
  ((exists h, runEndingAt cards h) <-> first0 (evaluate cards) = Some 4) /\
  (forall h, runEndingAt cards h -> (forall h', runEndingAt cards h' -> h' <= h) ->
             evaluate cards = [Some 4; Some h]) /\
  ((exists h, runEndingAt cards h) ->
   exists h, runEndingAt cards h /\ (forall h', runEndingAt cards h' -> h' <= h) /\
             evaluate cards = [Some 4; Some h]) /\
  (runEndingAt cards 5 -> (forall h', runEndingAt cards h' -> h' <= 5) ->
   evaluate cards = [Some 4; Some 5]).
Proof.
  intros Hh Hfl Hq Hf. pose proof (straight_detected cards Hh Hfl Hq Hf) as H.
  destruct (highestRun (map r cards)) as [h0|].
  - destruct H as (E & Hr & Hmax).
    assert (Hall : forall h, runEndingAt cards h ->
              (forall h', runEndingAt cards h' -> h' <= h) -> evaluate cards = [Some 4; Some h]).
    { intros h Hh1 Hh2. pose proof (Hmax h Hh1). pose proof (Hh2 h0 Hr).
      assert (h = h0) by lia. now subst. }
    split; [|split; [exact Hall | split; [|apply Hall]]].
    + split; [intros _; now rewrite E | intros _; now exists h0].
    + intros _. exists h0. auto.
  - destruct H as (Hne & Hno).
    split; [|split; [|split]].
    + split; [intros (h & Hr); now apply Hno in Hr | intros E; contradiction].
    + intros h Hr. now apply Hno in Hr.
    + intros (h & Hr). now apply Hno in Hr.
    + intros Hr. now apply Hno in Hr.
Qed.

Lemma hasFlush_dec (cards : list Card) :
  forallb (fun x => (length (inSuit x cards) <? 5)%nat) suitChars = true -> ~ hasFlush cards.
Proof.
  intros H (x & Hx). rewrite forallb_forall in H.
  assert (Hin : In x suitChars) by (destruct x; simpl; auto).
  specialize (H x Hin). apply Nat.ltb_lt in H. lia.
Qed.

Lemma straight_iff_run_witness :
  validHand wheel /\ runEndingAt wheel 5 /\ evaluate wheel = [Some 4; Some 5].
Proof.
  assert (Hv : validHand wheel) by (apply validHand_dec; reflexivity).
  assert (Hfl : ~ hasFlush wheel) by (apply hasFlush_dec; reflexivity).
  assert (Hq : ~ hasQuads wheel).
  { intros H. apply (quadsb_hasQuads wheel _ (Permutation_refl _)) in H. discriminate. }
  assert (Hf : ~ hasFullHouse wheel).
  { intros H. apply (fullHouseb_hasFullHouse wheel _ (Permutation_refl _)) in H. discriminate. }
  assert (Hrun : forall h, runEndingAt wheel h <-> runb (map r wheel) h = true)
    by (intros h; symmetry; apply runb_runEndingAt).
  assert (H5 : runEndingAt wheel 5) by (apply Hrun; reflexivity).
  split; [exact Hv|]. split; [exact H5|].
  apply (proj2 (proj2 (proj2 (straight_iff_run wheel Hv Hfl Hq Hf)))); [exact H5|].
  intros h' Hh'.
  pose proof (runEndingAt_range wheel h' (proj1 Hv) Hh') as Hin.
  apply Hrun in Hh'. unfold runEnds in Hin. simpl in Hin.
  destruct Hin as [<-|[<-|[<-|[<-|[<-|[<-|[<-|[<-|[<-|[<-|[]]]]]]]]]]];
    try lia; vm_compute in Hh'; discriminate.
Defined.



(** C10. In every result of the analysis the counts of [betterBreakdown]
    add up to [better], those of [worseBreakdown] to [worse], each label
    occurs once, and every entry has at most [min 3 count] samples. *)
Theorem breakdown_counts (hero flop : list Card) :
  let res := analyzeSimple hero flop in
  sumCounts (betterBreakdown res) = better res /\
  sumCounts (worseBreakdown res) = worse res /\
  Forall (fun p => samplesBounded (snd p)) (betterBreakdown res) /\
  Forall (fun p => samplesBounded (snd p)) (worseBreakdown res) /\
  NoDup (map fst (betterBreakdown res)) /\ NoDup (map fst (worseBreakdown res)).
Proof.
  unfold analyzeSimple.
  cbn [betterBreakdown worseBreakdown better worse].
  rewrite enumerate_pairs.
  destruct (fold_visit_ok flop (evaluate (hero ++ flop))
              (pairsOf (remainingDeck hero flop)) _ tallyOk_init)
    as ((B1 & B2) & (W1 & W2) & Sb & Sw).
  repeat split; assumption.
Qed.

(** * Further properties of the code *)

(** ** Card text, there and back *)

Lemma deck_texts_checked :
  forallb (fun c =>
    match list_ascii_of_string (cardToStr c), strToCard (cardToStr c) with
    | [a; b], Some c' => cardsEqual c' c && negb (isSpace a) && negb (isSpace b)
    | _, _ => false
    end) makeDeck = true.
Proof. vm_compute. reflexivity. Qed.

Lemma cardToStr_valid (c : Card) :
  validCard c ->
  exists a b, cardToStr c = String a (String b EmptyString) /\
              isSpace a = false /\ isSpace b = false /\
              strToCard (cardToStr c) = Some c.
Proof.
  intros Hv. apply makeDeck_valid in Hv.
  pose proof (proj1 (forallb_forall _ _) deck_texts_checked c Hv) as H.
  cbv beta in H.
  destruct (list_ascii_of_string (cardToStr c)) as [|a [|b [|? ?]]] eqn:E; try discriminate.
  destruct (strToCard (cardToStr c)) as [c'|] eqn:E'; try discriminate.
  apply andb_true_iff in H as [H Hb]. apply andb_true_iff in H as [H Ha].
  apply cardsEqual_eq in H. subst c'.
  exists a, b. repeat split.
  - rewrite <- (string_of_list_ascii_of_string (cardToStr c)), E. reflexivity.
  - now apply negb_true_iff.
  - now apply negb_true_iff.
Qed.

Lemma indexOfFrom_range (l : list ascii) (x : ascii) (i : Z) :
  indexOfFrom i x l = -1 \/ i <= indexOfFrom i x l < i + Z.of_nat (length l).
Proof.
  revert i. induction l as [|y l IH]; intros i; simpl; [now left|].
  destruct (Ascii.eqb y x).
  - destruct (Z.eq_dec i (-1)); [now left | right; lia].
  - destruct (IH (i + 1)) as [->|H]; [now left | right; lia].
Qed.

Lemma strToCard_rank (t : string) (c : Card) : strToCard t = Some c -> validCard c.
Proof.
  unfold strToCard.
  destruct (length _ <? 2)%nat; [discriminate|].
  destruct (map toUpperCase1 _) as [|rChar v]; [discriminate|].
  destruct (Z.eqb_spec (indexOf rankChars rChar) (-1)) as [|Hne]; [discriminate|].
  destruct (suitOfChar _); [|discriminate].
  intros [= <-]. unfold validCard. cbn [r].
  destruct (indexOfFrom_range rankChars rChar 0) as [H|H]; [contradiction|].
  unfold indexOf in *. change (Z.of_nat (length rankChars)) with 13 in H. lia.
Qed.

Lemma strToCard_undefined (x : Suit) :
  strToCard ("undefined" ++ String (suitChar x) EmptyString) = None.
Proof. destruct x; reflexivity. Qed.

Lemma cardToStr_out_of_range (c : Card) :
  ~ validCard c -> cardToStr c = ("undefined" ++ String (suitChar (s c)) EmptyString)%string.
Proof.
  unfold validCard, cardToStr. intros Hn.
  destruct (Z.leb_spec 0 (r c - 2)) as [H|H]; [|reflexivity].
  assert (E : idx rankChars (Z.to_nat (r c - 2)) = None).
  { apply nth_error_None. simpl. lia. }
  now rewrite E.
Qed.

(** X1. A card survives the trip through its text exactly when its rank
    is one of 2..14: [strToCard (cardToStr c)] is [c] for every card of
    the deck, while a rank outside the table is written as "undefined"
    followed by the suit, which [strToCard] rejects. *)
Theorem cardToStr_round_trip (c : Card) :
  (strToCard (cardToStr c) = Some c <-> validCard c) /\
  (~ validCard c -> strToCard (cardToStr c) = None).
Proof.
  assert (Hout : ~ validCard c -> strToCard (cardToStr c) = None).
  { intros Hn. rewrite (cardToStr_out_of_range c Hn). apply strToCard_undefined. }
  split; [|exact Hout]. split.
  - apply strToCard_rank.
  - intros Hv. now destruct (cardToStr_valid c Hv) as (a & b & _ & _ & _ & H).
Qed.

(** X2. Whatever text [strToCard] accepts, the card it returns has a
    rank in 2..14, is a card of the deck, and is written back by
    [cardToStr] as two characters (rank, suit) that parse to the same
    card: parsing normalises case, white space and ignored characters. *)
Theorem strToCard_normalises (t : string) (c : Card) :
  sevenBit t -> strToCard t = Some c ->
  validCard c /\ In c makeDeck /\
  String.length (cardToStr c) = 2%nat /\ strToCard (cardToStr c) = Some c.
Proof.
  intros _ H. pose proof (strToCard_rank t c H) as Hv.
  destruct (cardToStr_valid c Hv) as (a & b & E & _ & _ & Hs).
  split; [assumption|]. split; [now apply makeDeck_valid|].
  split; [now rewrite E | assumption].
Qed.

Lemma strToCard_normalises_witness :
  sevenBit " a?H " /\ strToCard " a?H " = Some (mkCard 14 Hearts) /\
  cardToStr (mkCard 14 Hearts) = "Ah"%string /\
  strToCard (cardToStr (mkCard 14 Hearts)) = Some (mkCard 14 Hearts).
Proof.
  assert (H7 : sevenBit " a?H ") by (apply sevenBit_dec; reflexivity).
  assert (H : strToCard " a?H " = Some (mkCard 14 Hearts)) by reflexivity.
  destruct (strToCard_normalises " a?H " (mkCard 14 Hearts) H7 H) as (_ & _ & _ & Hs).
  split; [exact H7|]. split; [exact H|]. split; [reflexivity | exact Hs].
Defined.

(** ** The deck and the known cards *)

(** X3. [makeDeck] returns 52 cards, no card twice, and they are exactly
    the cards with a rank in 2..14; in deck order the rank never
    decreases. *)
Theorem makeDeck_complete :
  length makeDeck = 52%nat /\ NoDup makeDeck /\
  (forall c, In c makeDeck <-> 2 <= r c <= 14) /\
  StronglySorted (fun a b => r a <= r b) makeDeck.
Proof.
  split; [reflexivity|]. split; [apply makeDeck_NoDup|]. split.
  - intros c. apply makeDeck_valid.
  - unfold makeDeck. simpl.
    repeat (apply SSorted_cons;
            [|repeat (apply Forall_cons; [simpl; lia|]); apply Forall_nil]).
    apply SSorted_nil.
Qed.

Lemma rm_filter (c : Card) (d : list Card) :
  NoDup d -> rm c d = filter (fun x => negb (cardsEqual x c)) d.
Proof.
  induction 1 as [|x d Hx Hd IH]; simpl; [reflexivity|].
  destruct (cardsEqual x c) eqn:E; simpl.
  - apply cardsEqual_eq in E. subst x.
    symmetry. apply forallb_filter_id. apply forallb_forall. intros y Hy.
    apply negb_true_iff. destruct (cardsEqual y c) eqn:E; [|reflexivity].
    apply cardsEqual_eq in E. now subst y.
  - now rewrite IH.
Qed.

Lemma NoDup_filter_card (p : Card -> bool) (d : list Card) : NoDup d -> NoDup (filter p d).
Proof.
  induction 1 as [|x d Hx Hd IH]; simpl; [constructor|].
  destruct (p x); [constructor|]; auto.
  intros Hin. apply filter_In in Hin. tauto.
Qed.

Lemma rm_fold_filter (known d : list Card) :
  NoDup d ->
  fold_left (fun d c => rm c d) known d =
  filter (fun x => negb (existsb (fun c => cardsEqual x c) known)) d.
Proof.
  revert d. induction known as [|c known IH]; intros d Hd; simpl.
  - symmetry. apply forallb_filter_id. now apply forallb_forall.
  - rewrite IH by now apply rm_NoDup.
    rewrite rm_filter by assumption.
    clear. induction d as [|x d IHd]; simpl; [reflexivity|].
    destruct (cardsEqual x c); simpl; [assumption|].
    destruct (existsb _ known); simpl; [assumption | now rewrite IHd].
Qed.

Lemma remainingDeck_filter (hero flop : list Card) :
  remainingDeck hero flop =
  filter (fun x => negb (existsb (fun c => cardsEqual x c) (hero ++ flop))) makeDeck.
Proof.
  rewrite remainingDeck_fold. apply rm_fold_filter, makeDeck_NoDup.
Qed.

Lemma existsb_card_In (x : Card) (l : list Card) :
  existsb (fun c => cardsEqual x c) l = true <-> In x l.
Proof.
  rewrite existsb_exists. split.
  - intros (c & Hc & E). apply cardsEqual_eq in E. now subst.
  - intros H. exists x. split; [assumption | apply cardsEqual_refl].
Qed.

Lemma remainingDeck_general (hero flop : list Card) :
  NoDup (remainingDeck hero flop) /\
  (forall x, In x (remainingDeck hero flop) <-> validCard x /\ ~ In x (hero ++ flop)) /\
  (length (remainingDeck hero flop) + length (knownCards hero flop) = 52)%nat.
Proof.
  rewrite remainingDeck_filter. split; [|split].
  - apply NoDup_filter_card, makeDeck_NoDup.
  - intros x. rewrite filter_In, makeDeck_valid, negb_true_iff.
    rewrite <- existsb_card_In. destruct (existsb _ _); intuition congruence.
  - unfold knownCards. rewrite Nat.add_comm.
    change 52%nat with (length makeDeck). apply filter_length.
Qed.

(** X4. The deck that [analyzeSimple] enumerates is the full deck, in
    deck order, without the cards that occur among the known ones,
    whatever the known cards are: removing a card that is not in the deck
    (a repeated card, or one with a rank outside 2..14) changes nothing. *)
Theorem remainingDeck_is_filter (hero flop : list Card) :
  remainingDeck hero flop =
    filter (fun x => negb (existsb (fun c => cardsEqual x c) (hero ++ flop))) makeDeck /\
  NoDup (remainingDeck hero flop) /\
  (forall x, In x (remainingDeck hero flop) <-> 2 <= r x <= 14 /\ ~ In x (hero ++ flop)) /\
  (forall c d, ~ In c d -> rm c d = d) /\
  (52 - length (hero ++ flop) <= length (remainingDeck hero flop) <= 52)%nat.
Proof.
  destruct (remainingDeck_general hero flop) as (Hn & Hin & Hlen).
  split; [apply remainingDeck_filter|]. split; [assumption|]. split; [exact Hin|]. split.
  - intros c d. induction d as [|x d IH]; simpl; [reflexivity|].
    intros Hc. destruct (cardsEqual x c) eqn:E.
    + apply cardsEqual_eq in E. subst. tauto.
    + rewrite IH; tauto.
  - assert (length (knownCards hero flop) <= length (hero ++ flop))%nat; [|lia].
    apply NoDup_incl_length.
    + apply NoDup_filter_card, makeDeck_NoDup.
    + intros x Hx. apply filter_In in Hx. now apply existsb_card_In.
Qed.

(** ** Text written by the page parses back *)

Lemma splitWs_word (w cs cur : list ascii) (inWs : bool) :
  Forall (fun c => isSpace c = false) w ->
  splitWs cur inWs (w ++ cs) =
  splitWs (rev w ++ cur) (match w with [] => inWs | _ :: _ => false end) cs.
Proof.
  intros Hw. revert cur inWs.
  induction Hw as [|c w Hc Hw IH]; intros cur inWs; [reflexivity|].
  simpl. rewrite Hc, IH, <- app_assoc. simpl.
  now destruct w.
Qed.

Lemma tokens_after_space (cs : list ascii) :
  filter nonEmpty (splitWs [] true cs) = filter nonEmpty (splitWs [] false cs).
Proof.
  destruct cs as [|c cs]; [reflexivity|].
  simpl. now destruct (isSpace c).
Qed.

Lemma nonEmpty_word (w : list ascii) : w <> [] -> nonEmpty (string_of_list_ascii w) = true.
Proof. destruct w; [congruence | reflexivity]. Qed.

Lemma tokens_word_space (w : list ascii) (sp : ascii) (rest : string) :
  w <> [] -> Forall (fun c => isSpace c = false) w -> isSpace sp = true ->
  tokens (string_of_list_ascii w ++ String sp rest) =
  string_of_list_ascii w :: tokens rest.
Proof.
  intros Hne Hw Hsp. unfold tokens.
  assert (E : list_ascii_of_string (string_of_list_ascii w ++ String sp rest) =
              w ++ sp :: list_ascii_of_string rest).
  { clear. induction w as [|c w IH]; simpl; [reflexivity | now rewrite IH]. }
  rewrite E, splitWs_word by assumption.
  rewrite app_nil_r. simpl. rewrite Hsp.
  assert (F : (match w with [] => false | _ :: _ => false end) = false) by now destruct w.
  rewrite F, rev_involutive. simpl.
  rewrite nonEmpty_word by assumption.
  now rewrite tokens_after_space.
Qed.

Lemma tokens_word (w : list ascii) :
  w <> [] -> Forall (fun c => isSpace c = false) w ->
  tokens (string_of_list_ascii w) = [string_of_list_ascii w].
Proof.
  intros Hne Hw. unfold tokens.
  rewrite list_ascii_of_string_of_list_ascii.
  rewrite <- (app_nil_r w) at 1. rewrite splitWs_word by assumption.
  rewrite app_nil_r. simpl. rewrite rev_involutive.
  now rewrite nonEmpty_word.
Qed.

Lemma tokens_card_space (c : Card) (rest : string) :
  validCard c -> tokens (cardToStr c ++ " " ++ rest) = cardToStr c :: tokens rest.
Proof.
  intros Hv. destruct (cardToStr_valid c Hv) as (a & b & E & Ha & Hb & _).
  rewrite E. change (String a (String b EmptyString)) with (string_of_list_ascii [a; b]).
  apply tokens_word_space; [discriminate | auto | reflexivity].
Qed.

Lemma tokens_card (c : Card) : validCard c -> tokens (cardToStr c) = [cardToStr c].
Proof.
  intros Hv. destruct (cardToStr_valid c Hv) as (a & b & E & Ha & Hb & _).
  rewrite E. change (String a (String b EmptyString)) with (string_of_list_ascii [a; b]).
  apply tokens_word; [discriminate | auto].
Qed.

Lemma parse_two (x y : Card) :
  validCard x -> validCard y -> x <> y ->
  parseCards (cardToStr x ++ " " ++ cardToStr y) 2 = Some [x; y].
Proof.
  intros Hx Hy Hne. apply parseCards_Some.
  rewrite tokens_card_space, tokens_card by assumption.
  split; [reflexivity|]. split.
  - simpl. destruct (cardToStr_valid x Hx) as (? & ? & _ & _ & _ & ->).
    now destruct (cardToStr_valid y Hy) as (? & ? & _ & _ & _ & ->).
  - constructor; [simpl; intuition congruence|]. constructor; [simpl; tauto | constructor].
Qed.


(** ** Drawing a scenario *)




(** ** The counts of the analysis, whatever the known cards *)

Lemma analyze_total (hero flop : list Card) :
  let res := analyzeSimple hero flop in
  let n := Z.of_nat (length (remainingDeck hero flop)) in
  2 * (better res + worse res + tie res) = n * (n - 1).
Proof.
  cbv zeta. unfold analyzeSimple. cbn [better worse tie].
  rewrite enumerate_pairs.
  pose proof (fold_visit_total flop (evaluate (hero ++ flop))
                (pairsOf (remainingDeck hero flop)) (mkTally 0 0 0 [] [])) as H.
  unfold total in H. cbn [tBetter tWorse tTie] in H.
  pose proof (pairsOf_length (remainingDeck hero flop)) as Hp.
  set (t := fold_left _ _ _) in *.
  set (k := length (pairsOf (remainingDeck hero flop))) in *.
  set (m := length (remainingDeck hero flop)) in *.
  clearbody t k m.
  assert (E : Z.of_nat (m * (m - 1)) = Z.of_nat m * (Z.of_nat m - 1)).
  { destruct m as [|m]; [reflexivity|]. rewrite Nat2Z.inj_mul. f_equal. lia. }
  rewrite <- E, <- Hp. lia.
Qed.

(** X6. For every input, valid or not, the three counts of
    [analyzeSimple] add up to the number of pairs of cards of the deck it
    enumerates, [n (n - 1) / 2] for a deck of [n] cards, and [n] is 52
    less the number of deck cards among the known ones; nothing is
    rejected here. *)
Theorem counts_sum_to_pairs (hero flop : list Card) :
  let res := analyzeSimple hero flop in
  let n := Z.of_nat (length (remainingDeck hero flop)) in
  2 * (better res + worse res + tie res) = n * (n - 1) /\
  n = 52 - Z.of_nat (length (knownCards hero flop)) /\
  0 <= better res /\ 0 <= worse res /\ 0 <= tie res.
Proof.
  cbv zeta. split; [apply analyze_total|]. split.
  - destruct (remainingDeck_general hero flop) as (_ & _ & H). lia.
  - unfold analyzeSimple. cbn [better worse tie]. rewrite enumerate_pairs.
    generalize (pairsOf (remainingDeck hero flop)).
    assert (G : forall ps t, 0 <= tBetter t /\ 0 <= tWorse t /\ 0 <= tTie t ->
      let t' := fold_left (fun t p => visit flop (evaluate (hero ++ flop)) (fst p) (snd p) t) ps t in
      0 <= tBetter t' /\ 0 <= tWorse t' /\ 0 <= tTie t').
    { induction ps as [|p ps IH]; intros t Ht; [exact Ht|].
      simpl. apply IH. unfold visit.
      destruct (0 <? _); [cbn; lia|]. destruct (_ <? 0); cbn; lia. }
    intros ps. apply (G ps). cbn. lia.
Qed.

(** ** Recording a decision *)

Lemma Decision_eqb_eq (a b : Decision) : Decision_eqb a b = true <-> a = b.
Proof. destruct a, b; simpl; split; congruence. Qed.

Lemma isCorrect_analysis (userChoice : Decision) (hero flop : list Card) :
  isCorrect userChoice (analyzeSimple hero flop) = true <->
  userChoice = recommendation (analyzeSimple hero flop).
Proof.
  unfold isCorrect, analyzeSimple. cbn [recommendation better worse].
  set (b := tBetter _). set (w := tWorse _). unfold decide.
  rewrite orb_true_iff, andb_true_iff, !Decision_eqb_eq, Z.eqb_eq.
  destruct (Z.gtb_spec b w) as [Hgt|Hle]; split; intros H; try tauto;
    destruct H as [H|[H1 H2]]; solve [assumption | lia].
Qed.

(** X7. The verdict of [evaluateAndRecord] is "correct" exactly when the
    choice equals the recommendation: the second clause of the test
    (equal counts and the choice Call) never decides, since equal counts
    already recommend Call. The expected decision stored with it is Fold
    exactly when more holdings beat the hero than lose to it. *)
Theorem verdict_correct_iff (now : string) (userChoice : Decision) (p q : Page) :
  sevenBit (holeText p) -> sevenBit (flopText p) ->
  evaluateAndRecord now userChoice p = Some q ->
  exists v res,
    verdict q = Some v /\ simple q = Some res /\
    expected v = recommendation res /\
    (correct v = true <-> userChoice = recommendation res) /\
    (expected v = Fold <-> better res > worse res).
Proof.
  intros _ _. unfold evaluateAndRecord.
  destruct (parseCards (holeText p) 2) as [hero|]; [|discriminate].
  destruct (parseCards (flopText p) 3) as [flop|]; [|discriminate].
  intros [= <-]. cbn [verdict simple].
  eexists. eexists. split; [reflexivity|]. split; [reflexivity|].
  cbn [expected correct]. split; [reflexivity|]. split.
  - apply isCorrect_analysis.
  - unfold analyzeSimple. cbn [recommendation better worse]. unfold decide.
    destruct (Z.gtb_spec (tBetter (enumerate flop (evaluate (hero ++ flop))
               (remainingDeck hero flop) (mkTally 0 0 0 [] [])))
               (tWorse (enumerate flop (evaluate (hero ++ flop))
               (remainingDeck hero flop) (mkTally 0 0 0 [] []))));
      split; intros; try lia; congruence.
Qed.

Lemma initialPage_parses :
  parseCards (holeText initialPage) 2 = Some AhAd /\
  parseCards (flopText initialPage) 3 = Some Kc7h2d.
Proof. split; reflexivity. Qed.

Lemma initialPage_sevenBit :
  sevenBit (holeText initialPage) /\ sevenBit (flopText initialPage).
Proof. split; apply sevenBit_dec; reflexivity. Qed.

Lemma verdict_correct_iff_witness :
  exists q, evaluateAndRecord "t" Call initialPage = Some q /\
  exists v res,
    verdict q = Some v /\ simple q = Some res /\
    expected v = recommendation res /\
    (correct v = true <-> Call = recommendation res) /\
    (expected v = Fold <-> better res > worse res).
Proof.
  assert (H : exists q, evaluateAndRecord "t" Call initialPage = Some q).
  { unfold evaluateAndRecord.
    rewrite (proj1 initialPage_parses), (proj2 initialPage_parses). eexists. reflexivity. }
  destruct H as [q Hq]. exists q. split; [exact Hq|].
  exact (verdict_correct_iff "t" Call initialPage q
           (proj1 initialPage_sevenBit) (proj2 initialPage_sevenBit) Hq).
Defined.

Lemma sliceLast_length {A : Type} (n : nat) (l : list A) :
  length (sliceLast n l) = Nat.min n (length l).
Proof. unfold sliceLast. rewrite length_skipn. lia. Qed.

Lemma sliceLast_short {A : Type} (n : nat) (l : list A) :
  (length l <= n)%nat -> sliceLast n l = l.
Proof.
  intros H. unfold sliceLast. replace (length l - n)%nat with 0%nat by lia. reflexivity.
Qed.

Lemma sliceLast_snoc {A : Type} (n : nat) (l : list A) (x : A) :
  sliceLast (S n) (l ++ [x]) = sliceLast n l ++ [x].
Proof.
  unfold sliceLast. rewrite length_app. simpl.
  replace (length l + 1 - S n)%nat with (length l - n)%nat by lia.
  rewrite skipn_app.
  replace (length l - n - length l)%nat with 0%nat by lia. reflexivity.
Qed.

(** X8. The hand history never grows past 200 rows: [evaluateAndRecord]
    appends the new row and keeps the last 200, so the new row is always
    the last one, it is preceded by the newest 199 of the old rows, and
    nothing is dropped while there is room. *)
Theorem history_keeps_last_200 (now : string) (userChoice : Decision) (p q : Page) :
  sevenBit (holeText p) -> sevenBit (flopText p) ->
  evaluateAndRecord now userChoice p = Some q ->
  exists row,
    history q = sliceLast 199 (history p) ++ [row] /\
    hId row = now /\ hDecision row = userChoice /\
    length (history q) = Nat.min 200 (length (history p) + 1) /\
    ((length (history p) < 200)%nat -> history q = history p ++ [row]) /\
    decisions q = decisions p + 1.
Proof.
  intros _ _. unfold evaluateAndRecord.
  destruct (parseCards (holeText p) 2) as [hero|]; [|discriminate].
  destruct (parseCards (flopText p) 3) as [flop|]; [|discriminate].
  intros [= <-]. cbn [history decisions].
  eexists. split; [apply (sliceLast_snoc 199)|].
  cbn [hId hDecision]. split; [reflexivity|]. split; [reflexivity|]. split.
  - rewrite sliceLast_length, length_app. reflexivity.
  - split; [|reflexivity]. intros H. apply sliceLast_short.
    rewrite length_app. simpl. lia.
Qed.

Lemma history_keeps_last_200_witness :
  exists q, evaluateAndRecord "t" Fold initialPage = Some q /\ length (history q) = 1%nat.
Proof.
  assert (H : exists q, evaluateAndRecord "t" Fold initialPage = Some q).
  { unfold evaluateAndRecord.
    rewrite (proj1 initialPage_parses), (proj2 initialPage_parses). eexists. reflexivity. }
  destruct H as [q Hq]. exists q. split; [exact Hq|].
  destruct (history_keeps_last_200 "t" Fold initialPage q
              (proj1 initialPage_sevenBit) (proj2 initialPage_sevenBit) Hq)
    as (row & _ & _ & _ & Hl & _).
  exact Hl.
Defined.

Lemma parseCards_valid (text : string) (n : nat) (cs : list Card) :
  parseCards text n = Some cs -> length cs = n /\ NoDup cs /\ Forall validCard cs.
Proof.
  intros H. apply parseCards_Some in H as (Hl & Hm & Hn).
  split; [|split; [assumption|]].
  - rewrite <- Hl, <- (length_map strToCard), Hm. symmetry. apply length_map.
  - clear Hl Hn. revert cs Hm. induction (tokens text) as [|t ts IH]; intros [|c cs] Hm;
      try discriminate; [constructor|].
    simpl in Hm. injection Hm as Hc Hm. constructor; [|now apply IH].
    now apply (strToCard_rank t).
Qed.

Lemma knownCards_length (hero flop : list Card) :
  NoDup hero -> NoDup flop -> Forall validCard hero -> Forall validCard flop ->
  (length (knownCards hero flop) +
   length (filter (fun c => existsb (fun x => cardsEqual c x) flop) hero) =
   length hero + length flop)%nat.
Proof.
  intros Nh Nf Vh Vf.
  set (shared := filter (fun c => existsb (fun x => cardsEqual c x) flop) hero).
  set (own := filter (fun c => negb (existsb (fun x => cardsEqual c x) flop)) hero).
  assert (Hlen : (length shared + length own = length hero)%nat) by apply filter_length.
  assert (Hp : Permutation (knownCards hero flop) (own ++ flop)).
  { apply NoDup_Permutation.
    - apply NoDup_filter_card, makeDeck_NoDup.
    - apply NoDup_app; [now apply NoDup_filter_card | assumption |].
      intros x Hx Hf. apply filter_In in Hx as [_ Hx].
      apply negb_true_iff in Hx. apply existsb_card_In in Hf. congruence.
    - intros x. unfold knownCards, own.
      rewrite filter_In, existsb_card_In, makeDeck_valid, !in_app_iff, filter_In,
        negb_true_iff.
      rewrite Forall_forall in Vh, Vf.
      destruct (existsb (fun x0 => cardsEqual x x0) flop) eqn:E.
      + apply existsb_card_In in E. intuition.
      + assert (~ In x flop) by (rewrite <- existsb_card_In; congruence). intuition. }
  apply Permutation_length in Hp. rewrite length_app in Hp. lia.
Qed.

(** X9. [evaluateAndRecord] checks the hole cards and the flop
    separately, so it accepts texts in which a hole card is repeated on
    the flop. The counts then cover a deck of 47 cards plus one for each
    shared card: they add up to 1081 when no card is shared, to 1128 for
    one shared card and to 1176 for two. *)
Theorem shared_cards_are_accepted (now : string) (userChoice : Decision) (p : Page)
    (hero flop : list Card) :
  sevenBit (holeText p) -> sevenBit (flopText p) ->
  parseCards (holeText p) 2 = Some hero -> parseCards (flopText p) 3 = Some flop ->
  exists q res,
    evaluateAndRecord now userChoice p = Some q /\ simple q = Some res /\
    res = analyzeSimple hero flop /\
    let shared := length (filter (fun c => existsb (fun x => cardsEqual c x) flop) hero) in
    length (remainingDeck hero flop) = (47 + shared)%nat /\
    (shared = 0%nat -> better res + worse res + tie res = 1081) /\
    (shared = 1%nat -> better res + worse res + tie res = 1128) /\
    (shared = 2%nat -> better res + worse res + tie res = 1176) /\
    (shared <= 2)%nat.
Proof.
  intros _ _ Hh Hf. unfold evaluateAndRecord. rewrite Hh, Hf.
  do 2 eexists. split; [reflexivity|]. cbn [simple]. split; [reflexivity|].
  split; [reflexivity|]. cbv zeta.
  apply parseCards_valid in Hh as (Lh & Nh & Vh), Hf as (Lf & Nf & Vf).
  pose proof (knownCards_length hero flop Nh Nf Vh Vf) as Hk.
  destruct (remainingDeck_general hero flop) as (_ & _ & Hr).
  pose proof (analyze_total hero flop) as Ht. cbv zeta in Ht.
  pose proof (filter_length_le (fun c => existsb (fun x => cardsEqual c x) flop) hero) as Hle.
  set (sh := length (filter _ hero)) in *.
  assert (E : length (remainingDeck hero flop) = (47 + sh)%nat) by lia.
  rewrite E in Ht. split; [exact E|].
  repeat split; try intros ->; try lia.
Qed.

Lemma shared_cards_are_accepted_witness :
  exists q res,
    evaluateAndRecord "t" Call
      (mkPage "Ah Ad" "Ah 7h 2d" false None None None [] 0 false None) = Some q /\
    simple q = Some res /\ better res + worse res + tie res = 1128.
Proof.
  destruct (shared_cards_are_accepted "t" Call
              (mkPage "Ah Ad" "Ah 7h 2d" false None None None [] 0 false None)
              [mkCard 14 Hearts; mkCard 14 Diamonds]
              [mkCard 14 Hearts; mkCard 7 Hearts; mkCard 2 Diamonds]
              (sevenBit_dec "Ah Ad" eq_refl) (sevenBit_dec "Ah 7h 2d" eq_refl)
              eq_refl eq_refl) as (q & res & Hq & Hs & _ & _ & _ & H1 & _).
  exists q, res. split; [exact Hq|]. split; [exact Hs|]. apply H1. reflexivity.
Defined.

(** ** The helpers of the evaluator *)

Lemma occ_ofRank (k : Z) (cards : list Card) :
  occ k (map r cards) = Z.of_nat (length (ofRank k cards)).
Proof.
  unfold occ. f_equal.
  induction cards as [|c cards IH]; simpl; [reflexivity|].
  destruct (Z.eq_dec (r c) k) as [E|E].
  - apply Z.eqb_eq in E. rewrite E. simpl. now rewrite IH.
  - apply Z.eqb_neq in E. now rewrite E.
Qed.

Lemma StronglySorted_weaken {A : Type} (R Q : A -> A -> Prop) (l : list A) :
  (forall x y, R x y -> Q x y) -> StronglySorted R l -> StronglySorted Q l.
Proof.
  intros HRQ. induction 1 as [|x l Hs IH Hx]; constructor; [assumption|].
  eapply Forall_impl; [|exact Hx]. intros y. apply HRQ.
Qed.

(** X10. [countsByRank] lists each rank that occurs exactly once, with
    the number of cards of that rank, ordered by count descending and,
    among equal counts, by rank descending; the counts add up to the
    number of cards. *)
Theorem countsByRank_spec (cards : list Card) :
  NoDup (map fst (countsByRank cards)) /\
  (forall k v, In (k, v) (countsByRank cards) <->
               v = Z.of_nat (length (ofRank k cards)) /\ 0 < v) /\
  StronglySorted (fun a b => snd b < snd a \/ (snd b = snd a /\ fst b < fst a))
                 (countsByRank cards) /\
  fold_right (fun e acc => snd e + acc) 0 (countsByRank cards) = Z.of_nat (length cards).
Proof.
  rewrite countsByRank_ranks.
  destruct (rankCounts_spec (map r cards)) as [Hn Hin].
  assert (Hs : StronglySorted (fun a b => snd b < snd a \/ (snd b = snd a /\ fst b < fst a))
                 (rankCounts (map r cards))).
  { assert (Hs : StronglySorted (fun a b => cntCmp a b <= 0) (rankCounts (map r cards))).
    { unfold rankCounts. apply jsSort_sorted.
      - intros x y. rewrite !cntCmp_le. lia.
      - intros x y z. rewrite !cntCmp_le. lia. }
    revert Hn Hs. generalize (rankCounts (map r cards)). clear.
    induction l as [|a l IH]; intros Hn Hs; [constructor|].
    inversion Hs as [|? ? Hs' Ha]; subst. simpl in Hn. inversion Hn as [|? ? Hna Hn']; subst.
    constructor; [now apply IH|].
    rewrite Forall_forall in *. intros b Hb. specialize (Ha b Hb).
    apply cntCmp_le in Ha. destruct Ha as [Ha|[Ha1 Ha2]]; [now left|].
    right. split; [assumption|].
    assert (fst b <> fst a) by (intros E; apply Hna; rewrite <- E; now apply in_map).
    lia. }
  split; [assumption|]. split; [|split; [assumption|]].
  - intros k v. rewrite Hin, occ_ofRank. intuition congruence.
  - clear Hs.
    assert (G : forall (l : list Z) (m : list (Z * Z)),
              fold_right (fun e acc => snd e + acc) 0 (fold_left (fun m x => bump x m) l m) =
              fold_right (fun e acc => snd e + acc) 0 m + Z.of_nat (length l)).
    { induction l as [|x l IH]; intros m; [simpl; lia|].
      cbn [fold_left]. rewrite IH.
      assert (B : fold_right (fun e acc => snd e + acc) 0 (bump x m) =
                  fold_right (fun e acc => snd e + acc) 0 m + 1).
      { clear. induction m as [|[k v] m IHm]; simpl; [reflexivity|].
        destruct (k =? x); simpl; lia. }
      rewrite B. simpl length. lia. }
    unfold rankCounts.
    assert (P : forall l l' : list (Z * Z), Permutation l l' ->
              fold_right (fun e acc => snd e + acc) 0 l =
              fold_right (fun e acc => snd e + acc) 0 l').
    { induction 1; simpl; lia. }
    rewrite (P _ _ (jsSort_perm cntCmp _)), G, length_map. reflexivity.
Qed.

Lemma pushSuit_nonempty (c : Card) (m : list (Suit * list Card)) :
  Forall (fun g => snd g <> []) m -> Forall (fun g => snd g <> []) (pushSuit c m).
Proof.
  induction 1 as [|[k cs] m Hk Hm IH]; simpl.
  - constructor; [discriminate | constructor].
  - destruct (suit_eqb k (s c)); constructor; auto.
    simpl in *. now destruct cs.
Qed.

Lemma suitGroups_nonempty (cards : list Card) :
  Forall (fun g => snd g <> []) (suitGroups cards).
Proof.
  unfold suitGroups.
  assert (G : forall m, Forall (fun g : Suit * list Card => snd g <> []) m ->
    Forall (fun g => snd g <> []) (fold_left (fun m c => pushSuit c m) cards m)).
  { induction cards as [|c cards IH]; intros m Hm; [assumption|].
    simpl. apply IH. now apply pushSuit_nonempty. }
  apply G. constructor.
Qed.

(** X11. [suitGroups] holds one group for each suit that occurs: the
    group of a suit is the list of the cards of that suit in their order
    in the hand, no group is empty, and no suit has two groups. *)
Theorem suitGroups_spec (cards : list Card) :
  NoDup (map fst (suitGroups cards)) /\
  (forall k cs, In (k, cs) (suitGroups cards) <-> cs = inSuit k cards /\ cs <> []) /\
  (forall c, In c cards -> In (s c, inSuit (s c) cards) (suitGroups cards)).
Proof.
  destruct (suitGroups_groupsOf cards) as (Hn & Hg & Hall).
  pose proof (suitGroups_nonempty cards) as Hne. rewrite Forall_forall in Hne.
  assert (Hiff : forall k cs, In (k, cs) (suitGroups cards) <->
                              cs = inSuit k cards /\ cs <> []).
  { intros k cs. split.
    - intros H. split; [now apply Hg | exact (Hne _ H)].
    - intros [-> H]. apply Hall in H. apply in_map_iff in H as ([k' cs'] & E & H).
      simpl in E. subst k'. now rewrite <- (Hg _ _ H). }
  split; [assumption|]. split; [assumption|].
  intros c Hc. apply Hiff. split; [reflexivity|].
  intros E. assert (Hin : In c (inSuit (s c) cards)).
  { apply filter_In. split; [assumption | apply suit_eqb_refl]. }
  now rewrite E in Hin.
Qed.

(** X12. [topNDesc vals n] returns the [n] largest values (all of them
    when there are fewer), largest first: it is in descending order, has
    [min n |vals|] elements, and together with the values left out it is
    a rearrangement of [vals], none of those left out exceeding one
    that is kept. *)
Theorem topNDesc_spec (vals : list Z) (n : nat) :
  length (topNDesc vals n) = Nat.min n (length vals) /\
  StronglySorted Z.ge (topNDesc vals n) /\
  exists rest, Permutation vals (topNDesc vals n ++ rest) /\
               forall x y, In x (topNDesc vals n) -> In y rest -> y <= x.
Proof.
  unfold topNDesc, slice0.
  pose proof (sortDesc_sorted vals) as Hs.
  pose proof (jsSort_perm descZ vals) as Hp.
  rewrite length_firstn, (jsSort_length descZ).
  split; [reflexivity|].
  set (l := jsSort descZ vals) in *. clearbody l.
  rewrite <- (firstn_skipn n l) in Hs, Hp.
  split; [|exists (skipn n l); split; [now symmetry|]].
  - clear Hp. revert Hs. generalize (firstn n l) (skipn n l). clear.
    induction l as [|x l IH]; intros l' Hs; [constructor|].
    simpl in Hs. inversion Hs as [|? ? Hs' Hx]; subst.
    constructor; [now apply (IH l')|].
    apply Forall_app in Hx. tauto.
  - clear Hp. revert Hs. generalize (firstn n l) (skipn n l). clear.
    induction l as [|a l IH]; intros l' Hs x y Hx Hy; [contradiction|].
    simpl in Hs. inversion Hs as [|? ? Hs' Ha]; subst.
    destruct Hx as [<-|Hx]; [|now apply (IH l')].
    rewrite Forall_forall in Ha.
    assert (a >= y) by (apply Ha, in_or_app; now right). lia.
Qed.

(** ** Straights, for any number of ranks *)

Lemma allStrict_spec (n : nat) (hi : Z) (P : list Z -> bool) :
  allStrict n hi P = true ->
  forall l, (length l <= n)%nat -> StronglySorted Z.gt l ->
            Forall (fun x => 2 <= x <= hi) l -> P l = true.
Proof.
  revert hi P. induction n as [|n IH]; intros hi P H l Hl Hs Hr; simpl in H.
  - destruct l; [|simpl in Hl; lia]. now destruct (P []).
  - destruct (P []) eqn:E; [|discriminate].
    destruct l as [|a l]; [assumption|].
    rewrite allb_forallb, forallb_forall in H.
    inversion Hs as [|? ? Hs' Ha]; subst. inversion Hr as [|? ? Hra Hr']; subst.
    assert (Hin : In a (rangeDown hi)) by now apply rangeDown_In.
    apply (IH _ _ (H a Hin) l); [simpl in Hl; lia | assumption |].
    rewrite Forall_forall in *. intros x Hx.
    specialize (Ha x Hx). specialize (Hr' x Hx). lia.
Qed.

Lemma straights_checked : allStrict 13 14 straightCheck = true.
Proof. vm_cast_no_check (eq_refl true). Qed.

Lemma newSet_id (l : list Z) : NoDup l -> newSet l = l.
Proof.
  unfold newSet.
  assert (G : forall seen, NoDup l -> (forall x, In x l -> ~ In x seen) -> setOf seen l = l).
  { induction l as [|x l IH]; intros seen Hn Hd; [reflexivity|].
    simpl. inversion Hn as [|? ? Hx Hn']; subst.
    destruct (existsb (Z.eqb x) seen) eqn:E.
    - apply existsb_eqb_In in E. exfalso. apply (Hd x); [now left | assumption].
    - f_equal. apply IH; [assumption|].
      intros y Hy [<-|Hs]; [contradiction|]. apply (Hd y); [now right | assumption]. }
  intros Hn. apply G; auto.
Qed.

Lemma runb_membership (l l' : list Z) (h : Z) :
  (forall x, In x l <-> In x l') -> runb l h = runb l' h.
Proof.
  assert (G : forall a b, (forall x, In x a <-> In x b) -> runb a h = true -> runb b h = true).
  { intros a b M. rewrite !runb_spec. intros H k Hk. specialize (H k Hk).
    apply presentb_spec. apply presentb_spec in H. now rewrite <- !M. }
  intros Hm.
  destruct (runb l h) eqn:E; destruct (runb l' h) eqn:E'; try reflexivity.
  - apply (G l l' Hm) in E. congruence.
  - apply (G l' l) in E'; [congruence|]. intros x. symmetry. apply Hm.
Qed.

Lemma runb_hasRun (l : list Z) (h : Z) : runb l h = true <-> hasRun l h.
Proof.
  rewrite runb_spec. unfold hasRun.
  split; intros H k Hk; specialize (H k Hk); now apply presentb_spec.
Qed.

Lemma hasRun_range (l : list Z) (h : Z) :
  Forall (fun x => 2 <= x <= 14) l -> hasRun l h -> In h runEnds.
Proof.
  intros Hr H. rewrite Forall_forall in Hr.
  assert (Hb : forall k, 0 <= k < 5 -> 1 <= h - k <= 14).
  { intros k Hk. destruct (H k Hk) as [Hin|[-> _]]; [|lia].
    specialize (Hr _ Hin). lia. }
  pose proof (Hb 0 ltac:(lia)). pose proof (Hb 4 ltac:(lia)).
  assert (Hh : h = 14 \/ h = 13 \/ h = 12 \/ h = 11 \/ h = 10 \/ h = 9 \/ h = 8 \/
               h = 7 \/ h = 6 \/ h = 5) by lia.
  unfold runEnds. simpl. intuition.
Qed.

Lemma sorted_strict (l : list Z) : NoDup l -> StronglySorted Z.ge l -> StronglySorted Z.gt l.
Proof.
  induction 2 as [|x l Hs IH Hx]; [constructor|].
  inversion H as [|? ? Hnx Hn]; subst. constructor; [now apply IH|].
  rewrite Forall_forall in *. intros y Hy. specialize (Hx y Hy).
  assert (x <> y) by (intros ->; contradiction). lia.
Qed.

Lemma bestStraightHigh_highestRun (ranks : list Z) :
  Forall (fun x => 2 <= x <= 14) ranks ->
  bestStraightHigh ranks = match highestRun ranks with Some h => h | None => 0 end.
Proof.
  intros Hr.
  set (l := jsSort descZ (newSet ranks)).
  assert (Hm : forall x, In x l <-> In x ranks).
  { intros x. unfold l. now rewrite jsSort_In, newSet_In. }
  assert (Hn : NoDup l).
  { unfold l. eapply Permutation_NoDup; [symmetry; apply jsSort_perm | apply newSet_NoDup]. }
  assert (Hrl : Forall (fun x => 2 <= x <= 14) l).
  { rewrite Forall_forall in *. intros x Hx. apply Hr. now apply Hm. }
  assert (Hlen : (length l <= 13)%nat).
  { change 13%nat with (length rankRange). apply NoDup_incl_length; [assumption|].
    intros x Hx. rewrite Forall_forall in Hrl. specialize (Hrl x Hx).
    unfold rankRange. simpl. lia. }
  pose proof (allStrict_spec 13 14 straightCheck straights_checked l Hlen
                (sorted_strict l Hn (sortDesc_sorted _)) Hrl) as Hc.
  unfold straightCheck in Hc. apply Z.eqb_eq in Hc.
  assert (E1 : bestStraightHigh ranks = bestStraightHigh l).
  { unfold bestStraightHigh. rewrite (newSet_id l Hn).
    now rewrite (sortAsc_Permutation l (newSet ranks)) by apply jsSort_perm. }
  assert (E2 : highestRun ranks = highestRun l).
  { unfold highestRun. apply find_pointwise. intros h. symmetry. now apply runb_membership. }
  now rewrite E1, E2.
Qed.

(** X13. For ranks between 2 and 14, however many and in whatever order,
    [bestStraightHigh] returns the highest rank that ends five
    consecutive ranks present in the list, the ace also counting as 1 (so
    the wheel A-2-3-4-5 ends in 5), and 0 when there is no such run. *)
Theorem bestStraightHigh_spec (ranks : list Z) :
  Forall (fun x => 2 <= x <= 14) ranks ->
  let h := bestStraightHigh ranks in
  (h = 0 /\ forall e, ~ hasRun ranks e) \/
  (5 <= h <= 14 /\ hasRun ranks h /\ forall e, hasRun ranks e -> e <= h).
Proof.
  intros Hr. cbv zeta. rewrite (bestStraightHigh_highestRun ranks Hr).
  unfold highestRun. destruct (find (runb ranks) runEnds) as [h|] eqn:E.
  - right. destruct (find_first_descending _ _ _ runEnds_descending E) as [Hh Hmax].
    apply find_some in E as [Hin _].
    split; [unfold runEnds in Hin; simpl in Hin; lia|].
    split; [now apply runb_hasRun|].
    intros e He. apply Hmax; [now apply (hasRun_range ranks) | now apply runb_hasRun].
  - left. split; [reflexivity|]. intros e He.
    pose proof (find_none _ _ E e (hasRun_range ranks e Hr He)) as Hf.
    apply runb_hasRun in He. congruence.
Qed.

Lemma bestStraightHigh_spec_witness :
  Forall (fun x => 2 <= x <= 14) [14; 5; 9; 4; 3; 14; 2] /\
  bestStraightHigh [14; 5; 9; 4; 3; 14; 2] = 5 /\ hasRun [14; 5; 9; 4; 3; 14; 2] 5.
Proof.
  assert (Hr : Forall (fun x => 2 <= x <= 14) [14; 5; 9; 4; 3; 14; 2]).
  { repeat (apply Forall_cons; [lia|]). apply Forall_nil. }
  split; [exact Hr|]. split; [reflexivity|].
  destruct (bestStraightHigh_spec [14; 5; 9; 4; 3; 14; 2] Hr) as [[H _]|(_ & H & _)].
  - discriminate H.
  - exact H.
Defined.

(** ** The evaluator and the order of the cards *)

Lemma one_long_suit_of_nine (cards : list Card) :
  (length cards <= 9)%nat ->
  (forall x, short cards x) \/
  (exists x, (5 <= length (inSuit x cards))%nat /\ forall y, y <> x -> short cards y).
Proof.
  intros Hlen. pose proof (suits_partition cards) as Hp. unfold short.
  destruct (Nat.leb_spec 5 (length (inSuit Spades cards)));
  [right; exists Spades; split; [assumption|]; intros [] ?; try congruence; lia|].
  destruct (Nat.leb_spec 5 (length (inSuit Hearts cards)));
  [right; exists Hearts; split; [assumption|]; intros [] ?; try congruence; lia|].
  destruct (Nat.leb_spec 5 (length (inSuit Diamonds cards)));
  [right; exists Diamonds; split; [assumption|]; intros [] ?; try congruence; lia|].
  destruct (Nat.leb_spec 5 (length (inSuit Clubs cards)));
  [right; exists Clubs; split; [assumption|]; intros [] ?; try congruence; lia|].
  left. intros []; assumption.
Qed.

Lemma inSuit_Permutation (x : Suit) (cards cards' : list Card) :
  Permutation cards cards' -> length (inSuit x cards) = length (inSuit x cards').
Proof. intros H. apply Permutation_length. now apply filter_Permutation. Qed.

Lemma evaluate_reorder (cards cards' : list Card) :
  (length cards <= 9)%nat -> Permutation cards cards' -> evaluate cards = evaluate cards'.
Proof.
  intros Hlen Hp.
  destruct (one_long_suit_of_nine cards Hlen) as [Hs|(x & Hx & Hs)].
  - assert (Hs' : forall y, short cards' y).
    { intros y. unfold short. rewrite <- (inSuit_Permutation y _ _ Hp). apply Hs. }
    rewrite (evaluate_no_flush cards Hs), (evaluate_no_flush cards' Hs').
    apply evaluateMarked_Permutation. now apply Permutation_map.
  - assert (Hx' : (5 <= length (inSuit x cards'))%nat).
    { now rewrite <- (inSuit_Permutation x _ _ Hp). }
    assert (Hs' : forall y, y <> x -> short cards' y).
    { intros y Hy. unfold short. rewrite <- (inSuit_Permutation y _ _ Hp). now apply Hs. }
    rewrite (evaluate_flush cards x Hx Hs), (evaluate_flush cards' x Hx' Hs').
    apply evaluateMarked_Permutation. now apply Permutation_map.
Qed.

(** X14. The result of [evaluate] does not depend on the order of the
    cards, for every hand of at most nine cards (with ten cards two suits
    can hold five cards each, and the suit met first would decide). *)
Theorem evaluate_order_irrelevant (cards cards' : list Card) :
  (length cards <= 9)%nat -> Permutation cards cards' -> evaluate cards = evaluate cards'.
Proof. apply evaluate_reorder. Qed.

Lemma evaluate_order_irrelevant_witness : evaluate wheel = evaluate (rev wheel).
Proof.
  apply (evaluate_order_irrelevant wheel (rev wheel)).
  - simpl. lia.
  - apply Permutation_rev.
Defined.

Lemma validHand_nonempty_subsets (cards : list Card) :
  validHand cards -> map standard5 (subsets 5 cards) <> [].
Proof.
  intros (_ & _ & Hlen).
  destruct (subsets_nonempty cards 5 ltac:(lia)) as [S HS].
  intros E. apply (in_map standard5) in HS. now rewrite E in HS.
Qed.

(** X15. More cards never make a hand weaker: if a valid hand is
    extended to a larger valid hand, the value of the larger hand is at
    least the value of the smaller one under the comparator. *)
Theorem evaluate_more_cards (cards more : list Card) :
  validHand cards -> validHand (cards ++ more) ->
  compareRankTuples (evaluate cards) (evaluate (cards ++ more)) <= 0.
Proof.
  intros H1 H2.
  rewrite (evaluate_is_best _ H1), (evaluate_is_best _ H2). unfold bestOfFive.
  destruct (maxTuple_spec _ (validHand_nonempty_subsets _ H1)) as [Hin _].
  destruct (maxTuple_spec _ (validHand_nonempty_subsets _ H2)) as [_ Hmax].
  apply Hmax. apply in_map_iff in Hin as (S & <- & HS).
  apply in_map. now apply subsets_app_l.
Qed.

Lemma evaluate_more_cards_witness :
  compareRankTuples (evaluate (AhAd ++ Kc7h2d))
                    (evaluate ((AhAd ++ Kc7h2d) ++ [mkCard 14 Clubs])) <= 0.
Proof.
  apply (evaluate_more_cards (AhAd ++ Kc7h2d) [mkCard 14 Clubs]);
    apply validHand_dec; reflexivity.
Defined.

(** ** Flushes *)

Lemma evaluateBy_no_suit (l : list Z) :
  first0 (evaluateBy None None l) <> Some 5 /\ first0 (evaluateBy None None l) <> Some 8.
Proof.
  unfold evaluateBy.
  repeat match goal with
         | |- context [match ?x with _ => _ end] => destruct x
         end;
  split; discriminate.
Qed.

Lemma evaluate_without_flush (cards : list Card) :
  (forall x, short cards x) -> evaluate cards = evaluateBy None None (map r cards).
Proof.
  intros Hs. rewrite (evaluate_no_flush cards Hs). unfold evaluateMarked.
  now rewrite markedRanks_unmarked, ranks_unmarked.
Qed.

Lemma long_suit_split (cards : list Card) (x : Suit) :
  NoDup cards -> (length cards <= 7)%nat -> (5 <= length (inSuit x cards))%nat ->
  exists O, Permutation (map r cards) (map r (inSuit x cards) ++ O) /\
            NoDup (map r (inSuit x cards)) /\ (length O <= 2)%nat.
Proof.
  intros Hn Hlen Hx.
  exists (map r (filter (fun c => negb (suit_eqb (s c) x)) cards)).
  pose proof (filter_split_Permutation (fun c => suit_eqb (s c) x) cards) as Hp.
  split; [|split].
  - rewrite <- map_app. now apply Permutation_map.
  - now apply inSuit_ranks_NoDup.
  - apply Permutation_length in Hp. rewrite length_app in Hp.
    rewrite length_map. unfold inSuit in Hx. lia.
Qed.

Lemma evaluate_long_suit (cards : list Card) (x : Suit) :
  validHand cards -> (5 <= length (inSuit x cards))%nat ->
  let F := map r (inSuit x cards) in
  evaluate cards =
  if 0 <? bestStraightHigh F then [Some 8; Some (bestStraightHigh F)]
  else Some 5 :: map Some (topNDesc F 5).
Proof.
  intros (Hv & Hn & Hlen) Hx F.
  assert (Hs : forall y, y <> x -> short cards y).
  { destruct (one_long_suit cards ltac:(lia)) as [Hs|(x' & Hx' & Hs)].
    - specialize (Hs x). unfold short in Hs. lia.
    - intros y Hy. destruct (suit_eqb x' x) eqn:E.
      + apply suit_eqb_eq in E. subst. now apply Hs.
      + assert (x <> x') by (intros ->; now rewrite suit_eqb_refl in E).
        specialize (Hs x H). unfold short in Hs. lia. }
  rewrite (evaluate_flush cards x Hx Hs). unfold evaluateMarked.
  rewrite markedRanks_mark, ranks_mark. fold F.
  destruct (long_suit_split cards x Hn ltac:(lia) Hx) as (O & Hp & HF & HO). fold F in Hp, HF.
  rewrite (evaluateBy_Permutation _ _ _ _ Hp).
  assert (EF : flushOf F = Some (topNDesc F 5)).
  { unfold flushOf. unfold F at 1. rewrite length_map.
    destruct (Nat.leb_spec 5 (length (inSuit x cards))); [reflexivity | lia]. }
  rewrite EF, (evaluateBy_long_suit _ _ F O HF HO).
  unfold straightFlushOf. unfold F at 1. rewrite length_map.
  destruct (Nat.leb_spec 5 (length (inSuit x cards))); [|lia].
  rewrite (newSet_id F HF). now destruct (0 <? bestStraightHigh F).
Qed.

(** X16. A valid hand gets category 5 (flush) or 8 (straight flush)
    exactly when five or more of its cards share a suit. If the ranks of
    that suit hold a run of five, the result is [8, h] with [h] the end
    of the highest run within the suit; otherwise it is 5 followed by the
    five highest ranks of the suit, the cards of other suits playing no
    part. *)
Theorem flush_iff_five_of_a_suit (cards : list Card) :
  validHand cards ->
  (hasFlush cards <->
   first0 (evaluate cards) = Some 5 \/ first0 (evaluate cards) = Some 8) /\
  (forall x, (5 <= length (inSuit x cards))%nat ->
     let F := map r (inSuit x cards) in
     (0 < bestStraightHigh F -> evaluate cards = [Some 8; Some (bestStraightHigh F)]) /\
     (bestStraightHigh F = 0 -> evaluate cards = Some 5 :: map Some (topNDesc F 5))).
Proof.
  intros Hh.
  assert (Hlong : forall x, (5 <= length (inSuit x cards))%nat ->
     let F := map r (inSuit x cards) in
     (0 < bestStraightHigh F -> evaluate cards = [Some 8; Some (bestStraightHigh F)]) /\
     (bestStraightHigh F = 0 -> evaluate cards = Some 5 :: map Some (topNDesc F 5))).
  { intros x Hx F. rewrite (evaluate_long_suit cards x Hh Hx). fold F.
    split; intros H.
    - apply Z.ltb_lt in H. now rewrite H.
    - now rewrite H. }
  split; [|exact Hlong]. split.
  - intros [x Hx]. rewrite (evaluate_long_suit cards x Hh Hx).
    destruct (0 <? _); [now right | now left].
  - intros H. destruct Hh as (_ & _ & Hlen).
    destruct (one_long_suit cards ltac:(lia)) as [Hs|(x & Hx & _)]; [|now exists x].
    rewrite (evaluate_without_flush cards Hs) in H.
    destruct (evaluateBy_no_suit (map r cards)). tauto.
Qed.

Lemma flush_iff_five_of_a_suit_witness :
  validHand sevenCards /\ hasFlush sevenCards /\ evaluate sevenCards = [Some 8; Some 5].
Proof.
  assert (Hh : validHand sevenCards) by (apply validHand_dec; reflexivity).
  destruct (flush_iff_five_of_a_suit sevenCards Hh) as [_ H].
  destruct (H Clubs ltac:(simpl; lia)) as [H8 _].
  split; [exact Hh|]. split; [exists Clubs; simpl; lia|].
  apply H8. reflexivity.
Defined.

(** With ten cards the order can matter: two suits of five cards, and
    the group of the suit met first is the one reported. *)
Example evaluate_order_matters_at_ten :
  let spades := [mkCard 2 Spades; mkCard 4 Spades; mkCard 6 Spades; mkCard 8 Spades;
                 mkCard 10 Spades] in
  let hearts := [mkCard 3 Hearts; mkCard 5 Hearts; mkCard 7 Hearts; mkCard 9 Hearts;
                 mkCard 11 Hearts] in
  evaluate (spades ++ hearts) = [Some 5; Some 10; Some 8; Some 6; Some 4; Some 2] /\
  evaluate (hearts ++ spades) = [Some 5; Some 11; Some 9; Some 7; Some 5; Some 3].
Proof. split; reflexivity. Qed.

(** ** Four of a kind *)

Lemma occ_nonneg (k : Z) (l : list Z) : 0 <= occ k l <= Z.of_nat (length l).
Proof.
  unfold occ. split; [lia|]. apply inj_le. apply count_occ_bound.
Qed.

Lemma top_one (l : list Z) :
  l <> [] ->
  exists k, idx (topNDesc l 1) 0 = Some k /\ In k l /\ forall y, In y l -> y <= k.
Proof.
  intros Hne. unfold topNDesc, slice0, idx.
  pose proof (sortDesc_sorted l) as Hs.
  pose proof (jsSort_In descZ l) as Hin.
  pose proof (jsSort_length descZ l) as Hlen.
  destruct (jsSort descZ l) as [|k rest].
  - destruct l; [congruence | discriminate].
  - exists k. split; [reflexivity|]. split; [apply Hin; now left|].
    intros y Hy. apply Hin in Hy. inversion Hs as [|? ? _ Hk]; subst.
    destruct Hy as [<-|Hy]; [lia|].
    rewrite Forall_forall in Hk. specialize (Hk y Hy). lia.
Qed.

Lemma quads_no_long_suit (cards : list Card) (q : Z) :
  validHand cards -> length (ofRank q cards) = 4%nat -> forall x, short cards x.
Proof.
  intros (Hv & Hn & Hlen) Hq.
  destruct (one_long_suit cards ltac:(lia)) as [Hs|(x & Hx & _)]; [assumption|].
  destruct (long_suit_split cards x Hn ltac:(lia) Hx) as (O & Hp & HF & HO).
  pose proof (occ_ofRank q cards) as Ho. rewrite Hq in Ho.
  rewrite (occ_Permutation q _ _ Hp), occ_app in Ho.
  pose proof (occ_NoDup q _ HF). pose proof (occ_nonneg q O). lia.
Qed.

Lemma quads_unique (l : list Z) (q q' : Z) :
  (length l <= 7)%nat -> occ q l = 4 -> occ q' l = 4 -> q = q'.
Proof.
  intros Hlen H H'. destruct (Z.eq_dec q q') as [|Hne]; [assumption|].
  pose proof (occ_two q q' l Hne). lia.
Qed.

Lemma evaluateBy_seven (l : list Z) :
  first0 (evaluateBy None None l) = Some 7 ->
  exists q rest, ranksWithCount 4 (rankCounts l) = q :: rest.
Proof.
  unfold evaluateBy.
  destruct (ranksWithCount 4 (rankCounts l)) as [|q rest]; [|intros _; now exists q, rest].
  repeat match goal with
         | |- context [match ?x with _ => _ end] => destruct x
         end; discriminate.
Qed.

(** X17. A valid hand gets category 7 exactly when four of its cards
    share a rank; the result is then [7, q, k] with [q] that rank and [k]
    the highest rank among the other cards. *)
Theorem quads_iff_four_of_a_rank (cards : list Card) :
  validHand cards ->
  (hasQuads cards <-> first0 (evaluate cards) = Some 7) /\
  (forall q, length (ofRank q cards) = 4%nat ->
     exists k, evaluate cards = [Some 7; Some q; Some k] /\
               k <> q /\ In k (map r cards) /\
               forall c, In c cards -> r c <> q -> r c <= k).
Proof.
  intros Hh. pose proof Hh as (Hv & Hn & Hlen).
  assert (Hq : forall q, length (ofRank q cards) = 4%nat ->
     exists k, evaluate cards = [Some 7; Some q; Some k] /\
               k <> q /\ In k (map r cards) /\
               forall c, In c cards -> r c <> q -> r c <= k).
  { intros q Hq.
    rewrite (evaluate_without_flush cards (quads_no_long_suit cards q Hh Hq)).
    assert (Ho : occ q (map r cards) = 4) by (rewrite occ_ofRank, Hq; reflexivity).
    assert (Hin : In q (ranksWithCount 4 (rankCounts (map r cards)))).
    { apply ranksWithCount_In. split; [assumption | lia]. }
    unfold evaluateBy.
    destruct (ranksWithCount 4 (rankCounts (map r cards))) as [|q' rest] eqn:E;
      [contradiction|].
    assert (Hq' : occ q' (map r cards) = 4).
    { apply (ranksWithCount_In 4 q' (map r cards)). rewrite E. now left. }
    assert (q' = q).
    { apply (quads_unique (map r cards)); [rewrite length_map; lia | assumption..]. }
    subst q'.
    set (others := filter (fun x => negb (x =? q)) (map r cards)).
    assert (Hne : others <> []).
    { pose proof (filter_length (fun x => negb (x =? q)) (map r cards)) as Hf.
      fold others in Hf. rewrite length_map in Hf.
      assert (Hc : length (filter (fun x => negb (negb (x =? q))) (map r cards)) = 4%nat).
      { rewrite <- Hq. unfold ofRank. rewrite <- filter_by_rank, length_map.
        f_equal. apply filter_ext. intros c. now rewrite negb_involutive. }
      intros E0. rewrite E0 in Hf. simpl in Hf. lia. }
    destruct (top_one others Hne) as (k & Ek & Hk & Hmax).
    exists k. rewrite Ek. split; [reflexivity|].
    apply filter_In in Hk as [Hk Hkq]. apply negb_true_iff, Z.eqb_neq in Hkq.
    split; [assumption|]. split; [assumption|].
    intros c Hc Hcq. apply Hmax. apply filter_In. split; [now apply in_map|].
    now apply negb_true_iff, Z.eqb_neq. }
  split; [|exact Hq]. split.
  - intros [q Hq4].
    pose proof (ofRank_length q cards Hn).
    destruct (Hq q ltac:(lia)) as (k & -> & _). reflexivity.
  - intros H7.
    destruct (one_long_suit cards ltac:(lia)) as [Hs|(x & Hx & _)].
    + rewrite (evaluate_without_flush cards Hs) in H7.
      destruct (evaluateBy_seven _ H7) as (q & rest & E).
      assert (Ho : occ q (map r cards) = 4).
      { apply (ranksWithCount_In 4 q (map r cards)). rewrite E. now left. }
      exists q. rewrite occ_ofRank in Ho. lia.
    + rewrite (evaluate_long_suit cards x Hh Hx) in H7.
      destruct (0 <? _); discriminate.
Qed.

Lemma quads_iff_four_of_a_rank_witness :
  let cards := [mkCard 9 Spades; mkCard 9 Hearts; mkCard 4 Clubs; mkCard 9 Diamonds;
                mkCard 9 Clubs; mkCard 12 Hearts] in
  validHand cards /\ hasQuads cards /\ evaluate cards = [Some 7; Some 9; Some 12].
Proof.
  cbv zeta.
  set (cards := [mkCard 9 Spades; mkCard 9 Hearts; mkCard 4 Clubs; mkCard 9 Diamonds;
                 mkCard 9 Clubs; mkCard 12 Hearts]).
  assert (Hh : validHand cards) by (apply validHand_dec; reflexivity).
  destruct (quads_iff_four_of_a_rank cards Hh) as [Hiff _].
  split; [exact Hh|]. split; [|reflexivity].
  apply Hiff. reflexivity.
Defined.

(** ** The shape of the result *)

Lemma classifySorted_shape (flush : bool) (sorted : list Z) :
  length sorted = 5%nat ->
  exists cat rest, classifySorted flush sorted = Some cat :: rest /\
                   length (classifySorted flush sorted) = tupleLength cat.
Proof.
  intros Hlen. unfold classifySorted.
  destruct sorted as [|a [|b [|c [|d [|e [|f l]]]]]]; try discriminate.
  cbv zeta.
  destruct (a =? b), (b =? c), (c =? d), (d =? e); cbn [orb andb];
  repeat match goal with
         | |- context [if ?b then _ else _] => destruct b
         end;
  eexists _, _; (split; reflexivity).
Qed.

(** X18. For a valid hand the length of the tuple is fixed by the
    category: two entries for a straight or straight flush, three for
    quads and full house, four for trips and two pair, five for one pair
    and six for a flush or high card; every entry after the category is a
    rank in 2..14, none is undefined. *)
Theorem evaluate_tuple_shape (cards : list Card) :
  validHand cards ->
  exists cat rest,
    evaluate cards = Some cat :: rest /\ 0 <= cat <= 8 /\
    length (evaluate cards) = tupleLength cat /\ Forall isRank rest.
Proof.
  intros Hh.
  destruct (evaluate_StrengthValue cards Hh) as (cat & rest & E & Hc & Hr).
  exists cat, rest. split; [assumption|]. split; [assumption|]. split; [|assumption].
  rewrite (evaluate_is_best cards Hh) in *. unfold bestOfFive in *.
  destruct (maxTuple_spec _ (validHand_nonempty_subsets _ Hh)) as [Hin _].
  apply in_map_iff in Hin as (S & ES & HS).
  destruct (classifySorted_shape (sameSuit S) (jsSort descZ (map r S))) as (c' & r' & E' & L').
  { rewrite jsSort_length, length_map. now apply (subsets_length cards). }
  change (classifySorted (sameSuit S) (jsSort descZ (map r S))) with (standard5 S) in E', L'.
  rewrite ES in E', L'. rewrite E in E'. injection E' as -> _. exact L'.
Qed.

Lemma evaluate_tuple_shape_witness :
  validHand (AhAd ++ Kc7h2d) /\ length (evaluate (AhAd ++ Kc7h2d)) = 5%nat.
Proof.
  assert (Hh : validHand (AhAd ++ Kc7h2d)) by (apply validHand_dec; reflexivity).
  split; [exact Hh|].
  destruct (evaluate_tuple_shape (AhAd ++ Kc7h2d) Hh) as (cat & rest & E & _ & L & _).
  rewrite L. injection E as <- _. reflexivity.
Defined.

(** ** Category labels *)

Lemma catName_out_of_range (c : Z) : ~ 0 <= c <= 8 -> catName (Some c) = EmptyString.
Proof.
  intros H. unfold catName. destruct (Z.leb_spec 0 c); [|reflexivity].
  apply nth_overflow. simpl. lia.
Qed.

Lemma catName_in_range (c : Z) :
  0 <= c <= 8 -> In (catName (Some c)) catLabels /\ catName (Some c) <> EmptyString.
Proof.
  intros H.
  assert (Hc : c = 0 \/ c = 1 \/ c = 2 \/ c = 3 \/ c = 4 \/ c = 5 \/ c = 6 \/ c = 7 \/ c = 8)
    by lia.
  repeat destruct Hc as [->|Hc]; try subst c; (split; [simpl; tauto | discriminate]).
Qed.

(** X19. [catName] gives each of the nine categories 0..8 a label of its
    own, and the empty text to everything else (a number outside 0..8,
    or the undefined first entry of an empty tuple); so a label names at
    most one category. *)
Theorem catName_labels :
  (forall c, catName (Some c) = EmptyString <-> ~ 0 <= c <= 8) /\
  catName None = EmptyString /\
  (forall a b, 0 <= a <= 8 -> catName (Some a) = catName (Some b) -> a = b) /\
  (forall c, 0 <= c <= 8 -> In (catName (Some c)) catLabels).
Proof.
  split; [|split; [reflexivity|split]].
  - intros c. split; [|apply catName_out_of_range].
    intros E H. now destruct (catName_in_range c H).
  - intros a b Ha E.
    assert (Hb : 0 <= b <= 8).
    { destruct (Z.le_gt_cases 0 b) as [H0|H0], (Z.le_gt_cases b 8) as [H8|H8];
        try lia; exfalso;
        (destruct (catName_in_range a Ha) as [_ Hn]; apply Hn; rewrite E;
         apply catName_out_of_range; lia). }
    assert (Hca : a = 0 \/ a = 1 \/ a = 2 \/ a = 3 \/ a = 4 \/ a = 5 \/ a = 6 \/ a = 7 \/ a = 8)
      by lia.
    assert (Hcb : b = 0 \/ b = 1 \/ b = 2 \/ b = 3 \/ b = 4 \/ b = 5 \/ b = 6 \/ b = 7 \/ b = 8)
      by lia.
    clear Ha Hb.
    repeat destruct Hca as [->|Hca]; try subst a;
      repeat destruct Hcb as [->|Hcb]; try subst b;
      solve [reflexivity | discriminate E].
  - intros c H. now destruct (catName_in_range c H).
Qed.

(** ** The breakdowns, label by label *)

Lemma getLabel_update (l l0 : string) (f : Entry -> Entry) (b : Breakdown) :
  getLabel l (updateLabel l0 f b) =
  if String.eqb l0 l then option_map f (getLabel l b) else getLabel l b.
Proof.
  induction b as [|[k e] b IH]; simpl; [now destruct (String.eqb l0 l)|].
  destruct (String.eqb k l0) eqn:E0; simpl.
  - apply String.eqb_eq in E0. subst k.
    now destruct (String.eqb l0 l).
  - destruct (String.eqb k l) eqn:E; [|assumption].
    apply String.eqb_eq in E. subst k. now rewrite String.eqb_sym, E0.
Qed.

Lemma getLabel_app (l : string) (b b' : Breakdown) :
  getLabel l (b ++ b') =
  match getLabel l b with Some e => Some e | None => getLabel l b' end.
Proof.
  induction b as [|[k e] b IH]; simpl; [reflexivity|].
  now destruct (String.eqb k l).
Qed.

Lemma hasLabel_get (l : string) (b : Breakdown) :
  hasLabel l b = match getLabel l b with Some _ => true | None => false end.
Proof.
  induction b as [|[k e] b IH]; simpl; [reflexivity|].
  now destruct (String.eqb k l).
Qed.

Lemma getLabel_tally (l l0 sample : string) (b : Breakdown) :
  getLabel l (tally l0 sample b) =
  if String.eqb l0 l
  then Some (tallyStep sample
               (match getLabel l b with Some e => e | None => mkEntry 0 [] end))
  else getLabel l b.
Proof.
  rewrite tally_unfold, getLabel_update, hasLabel_get.
  destruct (String.eqb l0 l) eqn:E.
  - apply String.eqb_eq in E. subst l0.
    destruct (getLabel l b) as [e|] eqn:G; [now rewrite G|].
    rewrite getLabel_app, G. simpl. now rewrite String.eqb_refl.
  - destruct (getLabel l0 b); [reflexivity|].
    rewrite getLabel_app. destruct (getLabel l b); [reflexivity|].
    simpl. now rewrite E.
Qed.

Lemma firstn_three_snoc {A : Type} (l : list A) (x : A) :
  firstn 3 (l ++ [x]) =
  if (length (firstn 3 l) <? 3)%nat then firstn 3 l ++ [x] else firstn 3 l.
Proof. destruct l as [|a [|b [|c l]]]; reflexivity. Qed.

Lemma entryFor_snoc (m : list (Card * Card)) (p : Card * Card) :
  entryFor (m ++ [p]) =
  Some (tallyStep (sampleText (fst p) (snd p))
          (match entryFor m with Some e => e | None => mkEntry 0 [] end)).
Proof.
  destruct m as [|q m]; [reflexivity|].
  set (text := fun p0 : Card * Card => sampleText (fst p0) (snd p0)).
  change (entryFor ((q :: m) ++ [p]))
    with (Some (mkEntry (Z.of_nat (length ((q :: m) ++ [p])))
                  (firstn 3 (map text ((q :: m) ++ [p]))))).
  change (entryFor (q :: m))
    with (Some (mkEntry (Z.of_nat (length (q :: m))) (firstn 3 (map text (q :: m))))).
  generalize (q :: m). intros l.
  unfold tallyStep. cbn [count samples].
  rewrite map_app. change (map text [p]) with [text p].
  rewrite firstn_three_snoc, length_app, Nat2Z.inj_add.
  destruct (length (firstn 3 (map text l)) <? 3)%nat; reflexivity.
Qed.

Lemma withLabel_snoc (sel : Card * Card -> bool) (flop : list Card) (l : string)
    (ps : list (Card * Card)) (p : Card * Card) :
  withLabel sel flop l (ps ++ [p]) =
  withLabel sel flop l ps ++
  (if sel p && String.eqb (labelOf flop p) l then [p] else []).
Proof. unfold withLabel. now rewrite filter_app. Qed.

Lemma tally_agrees (sel : Card * Card -> bool) (flop : list Card)
    (ps : list (Card * Card)) (p : Card * Card) (b : Breakdown) :
  (forall l, getLabel l b = entryFor (withLabel sel flop l ps)) ->
  sel p = true ->
  forall l, getLabel l (tally (labelOf flop p) (sampleText (fst p) (snd p)) b) =
            entryFor (withLabel sel flop l (ps ++ [p])).
Proof.
  intros Hb Hs l. rewrite getLabel_tally, withLabel_snoc, Hs. cbn [andb].
  destruct (String.eqb (labelOf flop p) l).
  - now rewrite entryFor_snoc, Hb.
  - now rewrite app_nil_r.
Qed.

Lemma skip_agrees (sel : Card * Card -> bool) (flop : list Card)
    (ps : list (Card * Card)) (p : Card * Card) (b : Breakdown) :
  (forall l, getLabel l b = entryFor (withLabel sel flop l ps)) ->
  sel p = false ->
  forall l, getLabel l b = entryFor (withLabel sel flop l (ps ++ [p])).
Proof.
  intros Hb Hs l. rewrite withLabel_snoc, Hs. cbn [andb]. now rewrite app_nil_r.
Qed.

Lemma fold_visit_agrees (flop : list Card) (hr : RankTuple) (ps : list (Card * Card)) :
  let t := fold_left (fun t p => visit flop hr (fst p) (snd p) t) ps (mkTally 0 0 0 [] []) in
  (forall l, getLabel l (tBetterBreakdown t) = entryFor (withLabel (beats flop hr) flop l ps)) /\
  (forall l, getLabel l (tWorseBreakdown t) = entryFor (withLabel (loses flop hr) flop l ps)).
Proof.
  induction ps as [|p ps IH] using rev_ind; [split; reflexivity|].
  cbv zeta in *. rewrite fold_left_app. cbn [fold_left].
  destruct IH as [IHb IHw].
  set (t := fold_left _ ps _) in *.
  assert (Ep : [fst p; snd p] ++ flop = [fst p; snd p] ++ flop) by reflexivity.
  unfold visit.
  change (evaluate ([fst p; snd p] ++ flop)) with (oppRankOf flop p).
  change (catName (first0 (oppRankOf flop p))) with (labelOf flop p).
  assert (Hx : beats flop hr p = true -> loses flop hr p = false).
  { unfold beats, loses. rewrite Z.ltb_lt, Z.ltb_ge. lia. }
  destruct (0 <? compareRankTuples (oppRankOf flop p) hr) eqn:Eb.
  - cbn [tBetterBreakdown tWorseBreakdown]. split.
    + now apply tally_agrees.
    + apply skip_agrees; [assumption | now apply Hx].
  - destruct (compareRankTuples (oppRankOf flop p) hr <? 0) eqn:Ew;
      cbn [tBetterBreakdown tWorseBreakdown]; split.
    + now apply skip_agrees.
    + now apply tally_agrees.
    + now apply skip_agrees.
    + now apply skip_agrees.
Qed.

Lemma breakdown_by_label_aux (hero flop : list Card) (label : string) :
  getLabel label (betterBreakdown (analyzeSimple hero flop)) =
    entryFor (withLabel (beats flop (evaluate (hero ++ flop))) flop label
                (pairsOf (remainingDeck hero flop))) /\
  getLabel label (worseBreakdown (analyzeSimple hero flop)) =
    entryFor (withLabel (loses flop (evaluate (hero ++ flop))) flop label
                (pairsOf (remainingDeck hero flop))).
Proof.
  unfold analyzeSimple. cbn [betterBreakdown worseBreakdown].
  rewrite enumerate_pairs.
  destruct (fold_visit_agrees flop (evaluate (hero ++ flop))
              (pairsOf (remainingDeck hero flop))) as [Hb Hw].
  split; [apply Hb | apply Hw].
Qed.

(** X20. The entry that [analyzeSimple] leaves under a label of
    [betterBreakdown] counts exactly the holdings of the remaining deck,
    taken as the pairs [(deck[i], deck[j])] with [i < j], that beat the
    hero and whose category has that label, and its samples are the
    texts of the first three of them in the order visited; a label
    without such a holding has no entry. The same holds of
    [worseBreakdown] and the holdings that lose. *)
Theorem breakdown_by_label (hero flop : list Card) (label : string) :
  let res := analyzeSimple hero flop in
  let heroRank := evaluate (hero ++ flop) in
  let holdings := pairsOf (remainingDeck hero flop) in
  getLabel label (betterBreakdown res) =
    entryFor (withLabel (beats flop heroRank) flop label holdings) /\
  getLabel label (worseBreakdown res) =
    entryFor (withLabel (loses flop heroRank) flop label holdings).
Proof. cbv zeta. apply breakdown_by_label_aux. Qed.

Lemma getLabel_keys (l : string) (b : Breakdown) :
  In l (map fst b) <-> getLabel l b <> None.
Proof.
  rewrite <- hasLabel_In, hasLabel_get.
  destruct (getLabel l b); split; intros H; try reflexivity; try discriminate.
  now contradiction H.
Qed.

Lemma entryFor_none (m : list (Card * Card)) : entryFor m <> None -> exists p, In p m.
Proof.
  destruct m as [|p m]; [intros H; now contradiction H|].
  intros _. exists p. now left.
Qed.

Lemma compare_positive_category (c1 c2 : Z) (a b : RankTuple) :
  0 < compareRankTuples (Some c1 :: a) (Some c2 :: b) -> c2 <= c1.
Proof.
  intros H. destruct (Z.le_gt_cases c2 c1) as [|Hlt]; [assumption|].
  pose proof (compare_category c1 c2 a b ltac:(lia)). lia.
Qed.

(** X21. Every label of [betterBreakdown] names a category at least as
    high as the hero's own, and every label of [worseBreakdown] one at
    most as high: a holding of a lower category never beats the hero,
    one of a higher category never loses. *)
Theorem breakdown_categories (hero flop : list Card) :
  let res := analyzeSimple hero flop in
  exists hc,
    first0 (evaluate (hero ++ flop)) = Some hc /\ 0 <= hc <= 8 /\
    heroCat res = catName (Some hc) /\
    (forall l, In l (map fst (betterBreakdown res)) ->
               exists c, l = catName (Some c) /\ hc <= c <= 8) /\
    (forall l, In l (map fst (worseBreakdown res)) ->
               exists c, l = catName (Some c) /\ 0 <= c <= hc).
Proof.
  cbv zeta.
  destruct (evaluate_head (hero ++ flop)) as (hc & hrest & Eh & Hhc).
  exists hc. split; [now rewrite Eh|]. split; [assumption|].
  split; [unfold analyzeSimple; cbn [heroCat]; now rewrite Eh|].
  split; intros l Hl; apply getLabel_keys in Hl;
    destruct (breakdown_by_label_aux hero flop l) as [Hb Hw].
  - rewrite Hb in Hl. apply entryFor_none in Hl as [p Hp].
    apply filter_In in Hp as [_ Hp]. apply andb_true_iff in Hp as [Hp El].
    apply String.eqb_eq in El. unfold beats in Hp. apply Z.ltb_lt in Hp.
    unfold labelOf in El.
    destruct (evaluate_head ([fst p; snd p] ++ flop)) as (c & rest & Ec & Hc).
    unfold oppRankOf in *. rewrite Ec, Eh in *.
    exists c. split; [now rewrite <- El|].
    apply compare_positive_category in Hp. lia.
  - rewrite Hw in Hl. apply entryFor_none in Hl as [p Hp].
    apply filter_In in Hp as [_ Hp]. apply andb_true_iff in Hp as [Hp El].
    apply String.eqb_eq in El. unfold loses in Hp. apply Z.ltb_lt in Hp.
    unfold labelOf in El.
    destruct (evaluate_head ([fst p; snd p] ++ flop)) as (c & rest & Ec & Hc).
    unfold oppRankOf in *. rewrite Ec, Eh in *.
    exists c. split; [now rewrite <- El|].
    rewrite compare_opp in Hp.
    assert (Hp' : 0 < compareRankTuples (Some hc :: hrest) (Some c :: rest)) by lia.
    apply compare_positive_category in Hp'. lia.
Qed.

(** ** The analysis and the order of the known cards *)

Lemma fold_left_pointwise {A B : Type} (f g : A -> B -> A) (l : list B) (a : A) :
  (forall a b, f a b = g a b) -> fold_left f l a = fold_left g l a.
Proof.
  intros H. revert a. induction l as [|b l IH]; intros a; [reflexivity|].
  simpl. now rewrite H, IH.
Qed.

Lemma remainingDeck_membership (hero flop hero' flop' : list Card) :
  (forall x, In x (hero ++ flop) <-> In x (hero' ++ flop')) ->
  remainingDeck hero flop = remainingDeck hero' flop'.
Proof.
  intros Hm. rewrite !remainingDeck_filter. apply filter_ext. intros x. f_equal.
  destruct (existsb (fun c => cardsEqual x c) (hero ++ flop)) eqn:E;
    destruct (existsb (fun c => cardsEqual x c) (hero' ++ flop')) eqn:E'; try reflexivity.
  - apply existsb_card_In, Hm, existsb_card_In in E. congruence.
  - apply existsb_card_In, Hm, existsb_card_In in E'. congruence.
Qed.

(** X22. The result of [analyzeSimple] (counts, breakdowns with their
    samples, hero category and recommendation) does not depend on the
    order in which the hole cards are given, nor on the order of the
    board cards, for up to nine known cards with at most seven on the
    board. *)
Theorem analyzeSimple_order_irrelevant (hero hero' flop flop' : list Card) :
  (length hero + length flop <= 9)%nat -> (length flop <= 7)%nat ->
  Permutation hero hero' -> Permutation flop flop' ->
  analyzeSimple hero flop = analyzeSimple hero' flop'.
Proof.
  intros Hlen Hf Hh Hp.
  assert (Hk : Permutation (hero ++ flop) (hero' ++ flop')) by now apply Permutation_app.
  unfold analyzeSimple.
  assert (Ed : remainingDeck hero flop = remainingDeck hero' flop').
  { apply remainingDeck_membership. intros x. split; apply Permutation_in;
      [assumption | now symmetry]. }
  assert (Er : evaluate (hero ++ flop) = evaluate (hero' ++ flop')).
  { apply evaluate_reorder; [rewrite length_app; lia | assumption]. }
  assert (Et : enumerate flop (evaluate (hero ++ flop)) (remainingDeck hero flop)
                 (mkTally 0 0 0 [] []) =
               enumerate flop' (evaluate (hero' ++ flop')) (remainingDeck hero' flop')
                 (mkTally 0 0 0 [] [])).
  { rewrite !enumerate_pairs, Ed, Er. apply fold_left_pointwise. intros t p.
    unfold visit.
    assert (Eo : evaluate ([fst p; snd p] ++ flop) = evaluate ([fst p; snd p] ++ flop')).
    { apply evaluate_reorder; [simpl; lia | now apply Permutation_app_head]. }
    now rewrite Eo. }
  now rewrite Et, Er.
Qed.

Lemma analyzeSimple_order_irrelevant_witness :
  analyzeSimple AhAd Kc7h2d = analyzeSimple (rev AhAd) (rev Kc7h2d).
Proof.
  apply (analyzeSimple_order_irrelevant AhAd (rev AhAd) Kc7h2d (rev Kc7h2d)).
  - simpl. lia.
  - simpl. lia.
  - apply Permutation_rev.
  - apply Permutation_rev.
Defined.

(** ** Samples *)

Lemma getLabel_In (l : string) (e : Entry) (b : Breakdown) :
  NoDup (map fst b) -> In (l, e) b -> getLabel l b = Some e.
Proof.
  induction b as [|[k e'] b IH]; intros Hn Hin; [contradiction|].
  simpl in *. inversion Hn as [|? ? Hk Hn']; subst.
  destruct Hin as [[= -> ->]|Hin]; [now rewrite String.eqb_refl|].
  destruct (String.eqb k l) eqn:E; [|now apply IH].
  apply String.eqb_eq in E. subst k. exfalso. apply Hk.
  apply in_map_iff. now exists (l, e).
Qed.

Lemma analyze_keys_NoDup (hero flop : list Card) :
  NoDup (map fst (betterBreakdown (analyzeSimple hero flop))) /\
  NoDup (map fst (worseBreakdown (analyzeSimple hero flop))).
Proof.
  unfold analyzeSimple. cbn [betterBreakdown worseBreakdown]. rewrite enumerate_pairs.
  destruct (fold_visit_ok flop (evaluate (hero ++ flop))
              (pairsOf (remainingDeck hero flop)) _ tallyOk_init) as ((Hb & _) & (Hw & _) & _).
  now split.
Qed.

Lemma holding_parses (hero flop : list Card) (p : Card * Card) :
  In p (pairsOf (remainingDeck hero flop)) ->
  parseCards (sampleText (fst p) (snd p)) 2 = Some [fst p; snd p] /\
  ~ In (fst p) (hero ++ flop) /\ ~ In (snd p) (hero ++ flop).
Proof.
  destruct p as [x y]. intros Hp. cbn [fst snd].
  destruct (remainingDeck_general hero flop) as (Hn & Hin & _).
  destruct (pairsOf_once _ x y Hn Hp) as [Hne _].
  apply pairsOf_incl in Hp as [Hx Hy]. apply Hin in Hx, Hy.
  split; [apply parse_two; tauto | tauto].
Qed.

Lemma entryFor_samples (m : list (Card * Card)) (e : Entry) :
  entryFor m = Some e ->
  samples e = firstn 3 (map (fun p => sampleText (fst p) (snd p)) m) /\
  count e = Z.of_nat (length m).
Proof. destruct m; [discriminate|]. intros [= <-]. split; reflexivity. Qed.

(** X23. Every sample shown under a label of either breakdown is the
    text of a holding that the loops visited: two distinct cards of the
    remaining deck, neither among the known cards, whose category has
    that label; and the text parses back, by [parseCards], to exactly
    these two cards. *)
Theorem samples_are_holdings (hero flop : list Card) :
  let res := analyzeSimple hero flop in
  let ok := fun (entry : string * Entry) =>
    Forall (fun t => exists x y,
              t = sampleText x y /\ parseCards t 2 = Some [x; y] /\
              In (x, y) (pairsOf (remainingDeck hero flop)) /\
              ~ In x (hero ++ flop) /\ ~ In y (hero ++ flop) /\
              catName (first0 (evaluate ([x; y] ++ flop))) = fst entry)
           (samples (snd entry)) in
  Forall ok (betterBreakdown res) /\ Forall ok (worseBreakdown res).
Proof.
  cbv zeta.
  destruct (analyze_keys_NoDup hero flop) as [Nb Nw].
  assert (G : forall sel (l : string) (e : Entry),
    entryFor (withLabel sel flop l (pairsOf (remainingDeck hero flop))) = Some e ->
    Forall (fun t => exists x y,
              t = sampleText x y /\ parseCards t 2 = Some [x; y] /\
              In (x, y) (pairsOf (remainingDeck hero flop)) /\
              ~ In x (hero ++ flop) /\ ~ In y (hero ++ flop) /\
              catName (first0 (evaluate ([x; y] ++ flop))) = l) (samples e)).
  { intros sel l e He. apply entryFor_samples in He as [He _]. rewrite He.
    apply Forall_forall. intros t Ht.
    assert (Ht' : In t (map (fun p => sampleText (fst p) (snd p))
                          (withLabel sel flop l (pairsOf (remainingDeck hero flop))))).
    { rewrite <- (firstn_skipn 3 (map _ _)). apply in_or_app. now left. }
    clear Ht. rename Ht' into Ht.
    apply in_map_iff in Ht as ([x y] & <- & Hp). cbn [fst snd].
    apply filter_In in Hp as [Hp Hl]. apply andb_true_iff in Hl as [_ Hl].
    apply String.eqb_eq in Hl.
    destruct (holding_parses hero flop (x, y) Hp) as (P1 & P2 & P3).
    exists x, y. repeat split; assumption. }
  split; apply Forall_forall; intros [l e] Hin; cbn [fst snd];
    destruct (breakdown_by_label_aux hero flop l) as [Hb Hw].
  - apply (G (beats flop (evaluate (hero ++ flop)))). rewrite <- Hb.
    now apply getLabel_In.
  - apply (G (loses flop (evaluate (hero ++ flop)))). rewrite <- Hw.
    now apply getLabel_In.
Qed.

(** ** The rows as shown *)

Lemma byCount_insert_filter (v : Z) (x : string * Entry) (l : Breakdown) :
  filter (fun e => count (snd e) =? v) (jsInsert byCount x l) =
  filter (fun e => count (snd e) =? v) (x :: l).
Proof.
  induction l as [|y l IH]; [reflexivity|].
  cbn [jsInsert]. destruct (Z.leb_spec (byCount x y) 0) as [Hle|Hgt]; [reflexivity|].
  cbn [filter] in *. rewrite IH. unfold byCount in Hgt.
  destruct (Z.eqb_spec (count (snd y)) v), (Z.eqb_spec (count (snd x)) v);
    try reflexivity. lia.
Qed.

(** X24. The rows of a breakdown are shown with the highest count first:
    [shownRows] rearranges the entries, changes none, puts them in
    descending order of count, and keeps entries of equal count in the
    order in which their labels were first met. *)
Theorem shownRows_spec (b : Breakdown) :
  Permutation (shownRows b) b /\
  StronglySorted (fun x y => count (snd y) <= count (snd x)) (shownRows b) /\
  (forall v, filter (fun e => count (snd e) =? v) (shownRows b) =
             filter (fun e => count (snd e) =? v) b) /\
  sumCounts (shownRows b) = sumCounts b.
Proof.
  unfold shownRows.
  pose proof (jsSort_perm byCount b) as Hp.
  split; [assumption|]. split; [|split].
  - apply (StronglySorted_weaken (fun x y => byCount x y <= 0)).
    + unfold byCount. intros x y. lia.
    + apply jsSort_sorted; unfold byCount; intros; lia.
  - intros v. induction b as [|x b IH]; [reflexivity|].
    cbn [jsSort fold_right]. rewrite byCount_insert_filter.
    cbn [filter]. unfold jsSort in IH.
    rewrite IH; [reflexivity | apply jsSort_perm].
  - clear -Hp. induction Hp; simpl in *; lia.
Qed.

(** ** White space around the cards *)

Lemma tokens_leading_space (c : ascii) (t : string) :
  isSpace c = true -> tokens (String c t) = tokens t.
Proof.
  intros Hc. unfold tokens. cbn [list_ascii_of_string splitWs]. rewrite Hc.
  cbn [filter rev string_of_list_ascii nonEmpty]. apply tokens_after_space.
Qed.

Lemma splitWs_trailing_space (cs cur : list ascii) (inWs : bool) (c : ascii) :
  isSpace c = true -> (inWs = true -> cur = []) ->
  filter nonEmpty (splitWs cur inWs (cs ++ [c])) = filter nonEmpty (splitWs cur inWs cs).
Proof.
  intros Hc. revert cur inWs.
  induction cs as [|x cs IH]; intros cur inWs Hcur.
  - cbn [app splitWs]. rewrite Hc. destruct inWs.
    + rewrite (Hcur eq_refl). reflexivity.
    + cbn [filter rev string_of_list_ascii nonEmpty].
      destruct (nonEmpty (string_of_list_ascii (rev cur))); reflexivity.
  - cbn [app splitWs]. destruct (isSpace x).
    + destruct inWs; cbn [filter]; rewrite IH by reflexivity; reflexivity.
    + apply IH. discriminate.
Qed.

Lemma list_ascii_app (a b : string) :
  list_ascii_of_string (a ++ b) = list_ascii_of_string a ++ list_ascii_of_string b.
Proof. induction a as [|c a IH]; simpl; [reflexivity | now rewrite IH]. Qed.

Lemma tokens_trailing_space (c : ascii) (t : string) :
  isSpace c = true -> tokens (t ++ String c EmptyString) = tokens t.
Proof.
  intros Hc. unfold tokens. rewrite list_ascii_app.
  apply splitWs_trailing_space; [assumption | discriminate].
Qed.

(** X25. [parseCards] ignores white space before the first and after
    the last card, and any amount of it may separate two cards: a space,
    tab or line break added in front of the text, at its end, or after
    a space that is already there, changes nothing. *)
Theorem parseCards_ignores_extra_space (c : ascii) (a t : string) (n : nat) :
  sevenBit a -> sevenBit t -> isSpace c = true ->
  parseCards (String c t) n = parseCards t n /\
  parseCards (t ++ String c EmptyString) n = parseCards t n /\
  (tokens a = [a] -> parseCards (a ++ String " " (String c t)) n =
                     parseCards (a ++ String " " t) n).
Proof.
  intros _ _ Hc. unfold parseCards.
  rewrite (tokens_leading_space c t Hc), (tokens_trailing_space c t Hc).
  split; [reflexivity|]. split; [reflexivity|]. intros Ha.
  assert (Hw : a <> EmptyString /\
               Forall (fun x => isSpace x = false) (list_ascii_of_string a)).
  { pose proof (tokens_shape a) as Hs. rewrite Ha in Hs. now inversion Hs. }
  destruct Hw as [Hne Hw].
  assert (Hl : list_ascii_of_string a <> []).
  { intros E. apply Hne. rewrite <- (string_of_list_ascii_of_string a), E. reflexivity. }
  rewrite <- (string_of_list_ascii_of_string a).
  rewrite !(tokens_word_space _ " "%char) by (assumption || reflexivity).
  now rewrite (tokens_leading_space c t Hc).
Qed.

Lemma parseCards_ignores_extra_space_witness :
  parseCards (String "009" "Ah Ad") 2 = parseCards "Ah Ad" 2 /\
  parseCards ("Ah Ad" ++ String "009" EmptyString) 2 = parseCards "Ah Ad" 2.
Proof.
  destruct (parseCards_ignores_extra_space "009" "Ah" "Ah Ad" 2
              (sevenBit_dec "Ah" eq_refl) (sevenBit_dec "Ah Ad" eq_refl) eq_refl)
    as (H1 & H2 & _).
  split; [exact H1 | exact H2].
Defined.

(** ** What each count counts *)

Lemma fold_visit_counts (flop : list Card) (hr : RankTuple) (ps : list (Card * Card)) (t : Tally) :
  let t' := fold_left (fun t p => visit flop hr (fst p) (snd p) t) ps t in
  tBetter t' = tBetter t + Z.of_nat (length (filter (beats flop hr) ps)) /\
  tWorse t' = tWorse t + Z.of_nat (length (filter (loses flop hr) ps)) /\
  tTie t' = tTie t +
    Z.of_nat (length (filter (fun p => compareRankTuples (oppRankOf flop p) hr =? 0) ps)).
Proof.
  revert t. induction ps as [|p ps IH]; intros t; [cbn; lia|].
  cbv zeta in *. cbn [fold_left filter].
  destruct (IH (visit flop hr (fst p) (snd p) t)) as (Eb & Ew & Et).
  rewrite Eb, Ew, Et. clear.
  unfold visit, beats, loses.
  change (evaluate ([fst p; snd p] ++ flop)) with (oppRankOf flop p).
  set (c := compareRankTuples (oppRankOf flop p) hr).
  destruct (Z.ltb_spec 0 c), (Z.ltb_spec c 0), (Z.eqb_spec c 0); try lia;
    cbn [tBetter tWorse tTie length]; lia.
Qed.

(** X26. [better] is the number of holdings (pairs of the remaining deck
    in loop order) whose tuple compares above the hero's, [worse] the
    number of those that compare below, [tie] the number of those that
    compare equal; for a valid hero hand of two cards and a flop the
    holdings counted as ties are exactly those that evaluate to the very
    tuple of the hero. *)
Theorem counts_by_outcome (hero flop : list Card) :
  let res := analyzeSimple hero flop in
  let heroRank := evaluate (hero ++ flop) in
  let holdings := pairsOf (remainingDeck hero flop) in
  better res = Z.of_nat (length (filter (beats flop heroRank) holdings)) /\
  worse res = Z.of_nat (length (filter (loses flop heroRank) holdings)) /\
  tie res = Z.of_nat (length (filter
              (fun p => compareRankTuples (oppRankOf flop p) heroRank =? 0) holdings)) /\
  (length hero = 2%nat -> validHand (hero ++ flop) ->
   forall p, In p holdings ->
     (compareRankTuples (oppRankOf flop p) heroRank = 0 <-> oppRankOf flop p = heroRank)).
Proof.
  cbv zeta. unfold analyzeSimple. cbn [better worse tie]. rewrite enumerate_pairs.
  destruct (fold_visit_counts flop (evaluate (hero ++ flop))
              (pairsOf (remainingDeck hero flop)) (mkTally 0 0 0 [] [])) as (Eb & Ew & Et).
  cbn [tBetter tWorse tTie] in Eb, Ew, Et.
  split; [lia|]. split; [lia|]. split; [lia|].
  intros Hl Hh [x y] Hp. split; [|intros ->; apply compare_refl].
  intros Hc. apply compare_zero_StrengthValue; [| now apply evaluate_StrengthValue | assumption].
  apply evaluate_StrengthValue. unfold oppRankOf. cbn [fst snd].
  destruct (remainingDeck_general hero flop) as (Hn & Hin & _).
  destruct (pairsOf_once _ x y Hn Hp) as [Hne _].
  apply pairsOf_incl in Hp as [Hx Hy]. apply Hin in Hx as [Vx Nx], Hy as [Vy Ny].
  destruct Hh as (Hv & Hnd & Hlen).
  apply Forall_app in Hv as [_ Hvf]. apply NoDup_app_remove_l in Hnd as Hndf.
  rewrite in_app_iff in Nx, Ny. rewrite length_app in Hlen.
  split; [|split].
  - simpl. repeat (apply Forall_cons; [assumption|]). assumption.
  - simpl. constructor; [simpl; intuition congruence|]. constructor; [tauto | assumption].
  - simpl. lia.
Qed.

(** ** Full houses *)

Lemma occ_cons (k x : Z) (l : list Z) :
  occ k (x :: l) = (if x =? k then 1 else 0) + occ k l.
Proof.
  unfold occ. simpl. destruct (Z.eq_dec x k) as [E|E].
  - apply Z.eqb_eq in E. rewrite E. lia.
  - apply Z.eqb_neq in E. rewrite E. lia.
Qed.

Lemma occ_three (a b c : Z) (l : list Z) :
  a <> b -> a <> c -> b <> c -> occ a l + occ b l + occ c l <= Z.of_nat (length l).
Proof.
  intros Hab Hac Hbc. induction l as [|x l IH]; [cbn; lia|].
  rewrite !occ_cons. cbn [length]. rewrite Nat2Z.inj_succ.
  destruct (Z.eqb_spec x a), (Z.eqb_spec x b), (Z.eqb_spec x c); lia.
Qed.

Lemma fullHouse_no_long_suit (cards : list Card) :
  validHand cards -> hasFullHouse cards -> forall x, short cards x.
Proof.
  intros (Hv & Hn & Hlen) (a & b & Hab & Ha & Hb).
  destruct (one_long_suit cards ltac:(lia)) as [Hs|(x & Hx & _)]; [assumption|].
  destruct (long_suit_split cards x Hn ltac:(lia) Hx) as (O & Hp & HF & HO).
  pose proof (occ_ofRank a cards) as Ea. pose proof (occ_ofRank b cards) as Eb.
  rewrite (occ_Permutation a _ _ Hp), occ_app in Ea.
  rewrite (occ_Permutation b _ _ Hp), occ_app in Eb.
  pose proof (occ_NoDup a _ HF). pose proof (occ_NoDup b _ HF).
  pose proof (occ_two a b O Hab). lia.
Qed.

Lemma evaluateBy_six (l : list Z) :
  (first0 (evaluateBy None None l) = Some 6 <->
   ranksWithCount 4 (rankCounts l) = [] /\ fullHouseTest l = true) /\
  (ranksWithCount 4 (rankCounts l) = [] -> fullHouseTest l = true ->
   evaluateBy None None l =
   [Some 6; idx (ranksWithCount 3 (rankCounts l)) 0;
    if (2 <=? length (ranksWithCount 3 (rankCounts l)))%nat
    then idx (ranksWithCount 3 (rankCounts l)) 1
    else idx (ranksWithCount 2 (rankCounts l)) 0]).
Proof.
  unfold evaluateBy, fullHouseTest.
  destruct (ranksWithCount 4 (rankCounts l)) as [|q rest].
  - destruct ((2 <=? length (ranksWithCount 3 (rankCounts l)))%nat
              || ((1 <=? length (ranksWithCount 3 (rankCounts l)))%nat
                  && (1 <=? length (ranksWithCount 2 (rankCounts l)))%nat)).
    + split; [split; [now split | reflexivity] | reflexivity].
    + split; [|discriminate]. split; [|intros [_ H]; discriminate H].
      repeat match goal with
             | |- context [match ?x with _ => _ end] => destruct x
             end; discriminate.
  - split; [|discriminate]. split; [discriminate | intros [H _]; discriminate H].
Qed.

Lemma sorted_second (t t2 x : Z) (rest : list Z) :
  StronglySorted Z.ge (t :: t2 :: rest) -> In x (t2 :: rest) -> x <= t2 /\ x <= t.
Proof.
  intros Hs Hx. inversion Hs as [|? ? Hs' Ht]; subst.
  inversion Hs' as [|? ? _ Ht2]; subst.
  rewrite Forall_forall in Ht, Ht2. specialize (Ht x Hx).
  destruct Hx as [<-|Hx]; [lia|]. specialize (Ht2 x Hx). lia.
Qed.

(** X27. A valid hand gets category 6 exactly when it holds three cards
    of one rank and two of another and no four of a rank; the result is
    [6, t, p] with [t] the highest rank that occurs three times and [p]
    the highest other rank that occurs at least twice. *)
Theorem fullHouse_iff_three_and_two (cards : list Card) :
  validHand cards ->
  (hasFullHouse cards /\ ~ hasQuads cards <-> first0 (evaluate cards) = Some 6) /\
  (first0 (evaluate cards) = Some 6 ->
   exists t p,
     evaluate cards = [Some 6; Some t; Some p] /\ t <> p /\
     length (ofRank t cards) = 3%nat /\ (2 <= length (ofRank p cards))%nat /\
     (forall t', length (ofRank t' cards) = 3%nat -> t' <= t) /\
     (forall p', p' <> t -> (2 <= length (ofRank p' cards))%nat -> p' <= p)).
Proof.
  intros Hh. pose proof Hh as (Hv & Hn & Hlen).
  set (l := map r cards).
  assert (Hll : (length l <= 7)%nat) by (unfold l; rewrite length_map; lia).
  assert (Hocc : forall k, occ k l = Z.of_nat (length (ofRank k cards)))
    by (intros k; apply occ_ofRank).
  assert (Hle4 : forall k, occ k l <= 4).
  { intros k. rewrite Hocc. pose proof (ofRank_length k cards Hn). lia. }
  set (quads := ranksWithCount 4 (rankCounts l)).
  set (trips := ranksWithCount 3 (rankCounts l)).
  set (pairs := ranksWithCount 2 (rankCounts l)).
  assert (Hq : forall k, In k quads <-> occ k l = 4).
  { intros k. unfold quads. rewrite ranksWithCount_In. lia. }
  assert (Ht : forall k, In k trips <-> occ k l = 3).
  { intros k. unfold trips. rewrite ranksWithCount_In. lia. }
  assert (Hp : forall k, In k pairs <-> occ k l = 2).
  { intros k. unfold pairs. rewrite ranksWithCount_In. lia. }
  assert (Nt : NoDup trips) by apply ranksWithCount_NoDup.
  assert (St : StronglySorted Z.ge trips) by apply sortDesc_sorted.
  assert (Sp : StronglySorted Z.ge pairs) by apply sortDesc_sorted.
  assert (Hnq : quads = [] -> ~ hasQuads cards).
  { intros E [k Hk]. pose proof (ofRank_length k cards Hn).
    assert (In k quads) by (apply Hq; rewrite Hocc; lia).
    now rewrite E in *. }
  (* the shape of the result when the test succeeds *)
  assert (Hshape : quads = [] -> fullHouseTest l = true ->
    exists t p,
      [Some 6; idx trips 0; if (2 <=? length trips)%nat then idx trips 1 else idx pairs 0] =
        [Some 6; Some t; Some p] /\ t <> p /\
      occ t l = 3 /\ 2 <= occ p l /\
      (forall t', occ t' l = 3 -> t' <= t) /\
      (forall p', p' <> t -> 2 <= occ p' l -> p' <= p)).
  { intros Eq Hf. unfold fullHouseTest in Hf. fold trips pairs in Hf.
    destruct trips as [|t [|t2 trest]] eqn:Et.
    - discriminate Hf.
    - (* one rank occurs three times *)
      destruct pairs as [|p prest] eqn:Ep; [discriminate Hf|].
      exists t, p.
      assert (Ot : occ t l = 3) by (apply Ht; now left).
      assert (Op : occ p l = 2) by (apply Hp; now left).
      split; [reflexivity|]. split; [intros ->; lia|].
      split; [assumption|]. split; [lia|]. split.
      + intros t' H'. apply Ht in H'. destruct H' as [<-|[]]. lia.
      + intros p' Hne H'.
        assert (Hc : occ p' l = 2 \/ occ p' l = 3 \/ occ p' l = 4)
          by (specialize (Hle4 p'); lia).
        destruct Hc as [Hc|[Hc|Hc]].
        * apply Hp in Hc. inversion Sp as [|? ? _ Hall]; subst.
          destruct Hc as [<-|Hc]; [lia|].
          rewrite Forall_forall in Hall. specialize (Hall p' Hc). lia.
        * apply Ht in Hc. destruct Hc as [<-|[]]. congruence.
        * apply Hq in Hc. now rewrite Eq in Hc.
    - (* two ranks occur three times *)
      exists t, t2.
      assert (Ot : occ t l = 3) by (apply Ht; now left).
      assert (Ot2 : occ t2 l = 3) by (apply Ht; right; now left).
      assert (Hne2 : t <> t2).
      { inversion Nt as [|? ? Hnin _]; subst. intros ->. apply Hnin. now left. }
      split; [reflexivity|]. split; [assumption|].
      split; [assumption|]. split; [lia|]. split.
      + intros t' H'. apply Ht in H'. destruct H' as [<-|H']; [lia|].
        now apply (sorted_second t t2 t' trest).
      + intros p' Hne H'.
        assert (Hc : occ p' l = 2 \/ occ p' l = 3 \/ occ p' l = 4)
          by (specialize (Hle4 p'); lia).
        destruct Hc as [Hc|[Hc|Hc]].
        * destruct (Z.eq_dec p' t2) as [->|Hne']; [lia|].
          pose proof (occ_three t t2 p' l Hne2 ltac:(congruence) ltac:(congruence)). lia.
        * apply Ht in Hc. destruct Hc as [<-|Hc]; [congruence|].
          now apply (sorted_second t t2 p' trest).
        * apply Hq in Hc. now rewrite Eq in Hc. }
  assert (Hres : first0 (evaluate cards) = Some 6 ->
    (forall x, short cards x) /\ quads = [] /\ fullHouseTest l = true).
  { intros H6.
    destruct (one_long_suit cards ltac:(lia)) as [Hs|(x & Hx & _)].
    - split; [assumption|]. rewrite (evaluate_without_flush cards Hs) in H6.
      now apply (evaluateBy_six l).
    - rewrite (evaluate_long_suit cards x Hh Hx) in H6.
      destruct (0 <? _); discriminate. }
  split; [split|].
  - intros [Hfh Hnq'].
    rewrite (evaluate_without_flush cards (fullHouse_no_long_suit cards Hh Hfh)).
    apply (evaluateBy_six l).
    assert (Eq : quads = []).
    { destruct quads as [|q rest] eqn:E; [reflexivity|]. exfalso. apply Hnq'.
      exists q. assert (Hin : In q (q :: rest)) by now left.
      apply Hq in Hin. rewrite Hocc in Hin. lia. }
    split; [assumption|].
    destruct Hfh as (a & b & Hab & Ha & Hb).
    assert (Oa : occ a l = 3).
    { specialize (Hle4 a). rewrite Hocc in *.
      assert (occ a l <> 4) by (rewrite <- Hq, Eq; tauto). rewrite Hocc in *. lia. }
    assert (Ob : occ b l = 2 \/ occ b l = 3).
    { specialize (Hle4 b). rewrite Hocc in *.
      assert (occ b l <> 4) by (rewrite <- Hq, Eq; tauto). rewrite Hocc in *. lia. }
    apply Ht in Oa. unfold fullHouseTest. fold trips pairs.
    destruct Ob as [Ob|Ob].
    + apply Hp in Ob. destruct trips; [contradiction|]. destruct pairs; [contradiction|].
      cbn [length]. apply orb_true_iff. right. reflexivity.
    + apply Ht in Ob. destruct trips as [|t [|t2 trest]]; [contradiction| |reflexivity].
      destruct Oa as [<-|[]], Ob as [<-|[]]. congruence.
  - intros H6. destruct (Hres H6) as (Hs & Eq & Hf).
    destruct (Hshape Eq Hf) as (t & p & _ & Hne & Ot & Op & _).
    split; [|now apply Hnq].
    exists t, p. rewrite !Hocc in *. split; [assumption|]. split; lia.
  - intros H6. destruct (Hres H6) as (Hs & Eq & Hf).
    destruct (Hshape Eq Hf) as (t & p & E & Hne & Ot & Op & Mt & Mp).
    exists t, p. rewrite (evaluate_without_flush cards Hs). fold l.
    rewrite (proj2 (evaluateBy_six l) Eq Hf). fold trips pairs.
    split; [exact E|]. split; [assumption|].
    rewrite Hocc in Ot, Op. split; [lia|]. split; [lia|]. split.
    + intros t' H'. apply Mt. rewrite Hocc, H'. reflexivity.
    + intros p' Hn' H'. apply Mp; [assumption|]. rewrite Hocc. lia.
Qed.

Lemma fullHouse_iff_three_and_two_witness :
  let cards := [mkCard 9 Spades; mkCard 4 Hearts; mkCard 4 Clubs; mkCard 9 Diamonds;
                mkCard 9 Clubs; mkCard 12 Hearts; mkCard 12 Spades] in
  validHand cards /\ evaluate cards = [Some 6; Some 9; Some 12] /\
  hasFullHouse cards /\ ~ hasQuads cards.
Proof.
  cbv zeta.
  set (cards := [mkCard 9 Spades; mkCard 4 Hearts; mkCard 4 Clubs; mkCard 9 Diamonds;
                 mkCard 9 Clubs; mkCard 12 Hearts; mkCard 12 Spades]).
  assert (Hh : validHand cards) by (apply validHand_dec; reflexivity).
  destruct (fullHouse_iff_three_and_two cards Hh) as [Hiff _].
  split; [exact Hh|]. split; [reflexivity|].
  apply Hiff. reflexivity.
Defined.

(** ** A session of decisions *)

Lemma sliceLast_again {A : Type} (n : nat) (l l' : list A) :
  sliceLast n (sliceLast n l ++ l') = sliceLast n (l ++ l').
Proof.
  unfold sliceLast. rewrite !length_app, length_skipn.
  destruct (Nat.le_gt_cases (length l) n) as [Hle|Hgt].
  - replace (length l - n)%nat with 0%nat by lia. cbn [skipn].
    now rewrite Nat.sub_0_r.
  - set (k := (length l - n)%nat).
    replace (length l - k + length l' - n)%nat with (length l')%nat by lia.
    replace (length l + length l' - n)%nat with (k + length l')%nat by lia.
    replace (l ++ l') with (firstn k l ++ (skipn k l ++ l'))
      by now rewrite app_assoc, firstn_skipn.
    assert (Hk : length (firstn k l) = k) by (rewrite length_firstn; lia).
    rewrite (skipn_app (k + length l') (firstn k l)), Hk.
    assert (Hs : skipn (k + length l') (firstn k l) = []).
    { apply skipn_all2. rewrite Hk. lia. }
    rewrite Hs. cbn [app].
    now replace (k + length l' - k)%nat with (length l') by lia.
Qed.

Lemma onDecide_accepts (now : string) (c : Decision) (p : Page) (hero flop : list Card) :
  parseCards (holeText p) 2 = Some hero -> parseCards (flopText p) 3 = Some flop ->
  let res := analyzeSimple hero flop in
  let mini := Z.rem (decisions p + 1) 3 =? 0 in
  onDecide now c p =
  mkPage (holeText p) (flopText p) false (Some res) (Some c)
    (Some (mkVerdict (isCorrect c res) (recommendation res)))
    (sliceLast 200 (history p ++ [rowOf p res (now, c)]))
    (decisions p + 1)
    (if mini then true else showMini p)
    (if mini then None else miniPick p).
Proof.
  intros Hh Hf. unfold onDecide, evaluateAndRecord.
  cbn [holeText flopText history decisions showMini miniPick decision].
  now rewrite Hh, Hf.
Qed.

Lemma play_spec (events : list (string * Decision)) (p : Page) (hero flop : list Card) :
  parseCards (holeText p) 2 = Some hero -> parseCards (flopText p) 3 = Some flop ->
  (length (history p) <= 200)%nat ->
  let q := play events p in
  let res := analyzeSimple hero flop in
  holeText q = holeText p /\ flopText q = flopText p /\
  decisions q = decisions p + Z.of_nat (length events) /\
  history q = sliceLast 200 (history p ++ map (rowOf p res) events) /\
  (showMini q = true <->
   showMini p = true \/
   exists k, decisions p < k <= decisions q /\ Z.rem k 3 = 0).
Proof.
  revert p. induction events as [|[now c] events IH]; intros p Hh Hf Hlen; cbv zeta.
  - cbn [play fold_left length map]. rewrite app_nil_r, sliceLast_short by assumption.
    repeat split; try lia; try tauto.
    intros [H|(k & Hk & _)]; [assumption | lia].
  - unfold play. cbn [fold_left fst snd].
    pose proof (onDecide_accepts now c p hero flop Hh Hf) as E. cbv zeta in E.
    set (p1 := onDecide now c p) in *.
    assert (E1 : holeText p1 = holeText p) by now rewrite E.
    assert (E2 : flopText p1 = flopText p) by now rewrite E.
    assert (E3 : decisions p1 = decisions p + 1) by now rewrite E.
    assert (E4 : history p1 =
                 sliceLast 200 (history p ++ [rowOf p (analyzeSimple hero flop) (now, c)]))
      by now rewrite E.
    assert (E5 : showMini p1 =
                 if Z.rem (decisions p + 1) 3 =? 0 then true else showMini p)
      by now rewrite E.
    assert (Hl1 : (length (history p1) <= 200)%nat).
    { rewrite E4, sliceLast_length. lia. }
    destruct (IH p1 ltac:(now rewrite E1) ltac:(now rewrite E2) Hl1) as (I1 & I2 & I3 & I4 & I5).
    fold (play events p1) in *.
    split; [congruence|]. split; [congruence|]. split; [|split].
    + rewrite I3, E3. cbn [length]. lia.
    + rewrite I4, E4, sliceLast_again, <- app_assoc. cbn [app map].
      do 3 f_equal. apply map_ext. intros e. unfold rowOf. now rewrite E1, E2.
    + rewrite I5, E5, I3, E3. clear.
      destruct (Z.eqb_spec (Z.rem (decisions p + 1) 3) 0) as [Hz|Hz].
      * split; [intros _|tauto]. right. exists (decisions p + 1).
        split; [lia | assumption].
      * split.
        -- intros [H|(k & Hk & Hr)]; [now left|]. right. exists k. split; [lia | assumption].
        -- intros [H|(k & Hk & Hr)]; [now left|]. right. exists k. split; [|assumption].
           destruct (Z.eq_dec k (decisions p + 1)) as [->|]; [contradiction | lia].
Qed.

(** X28. A session of decisions on the same cards: each decision adds
    one to the counter and one row to the history, of which the last 200
    are kept in the order taken; every row carries the time and choice of
    its decision and the result of the one analysis, with [correct] set
    exactly when the choice is the recommendation; and the mini-game has
    been opened exactly if the counter has passed a multiple of three. *)
Theorem session_of_decisions (events : list (string * Decision)) (p : Page)
    (hero flop : list Card) :
  sevenBit (holeText p) -> sevenBit (flopText p) ->
  parseCards (holeText p) 2 = Some hero -> parseCards (flopText p) 3 = Some flop ->
  (length (history p) <= 200)%nat ->
  let q := play events p in
  let res := analyzeSimple hero flop in
  decisions q = decisions p + Z.of_nat (length events) /\
  history q = sliceLast 200 (history p ++ map (rowOf p res) events) /\
  (forall e, hCorrect (rowOf p res e) = true <-> snd e = recommendation res) /\
  (showMini q = true <->
   showMini p = true \/ exists k, decisions p < k <= decisions q /\ Z.rem k 3 = 0).
Proof.
  intros _ _ Hh Hf Hlen.
  destruct (play_spec events p hero flop Hh Hf Hlen) as (_ & _ & H3 & H4 & H5).
  cbv zeta. split; [assumption|]. split; [assumption|]. split; [|assumption].
  intros e. unfold rowOf. cbn [hCorrect]. apply isCorrect_analysis.
Qed.

Lemma session_of_decisions_witness :
  let q := play [("t1", Call); ("t2", Fold); ("t3", Call)]%string initialPage in
  decisions q = 3 /\ length (history q) = 3%nat /\ showMini q = true.
Proof.
  cbv zeta.
  destruct (session_of_decisions [("t1", Call); ("t2", Fold); ("t3", Call)]%string
              initialPage AhAd Kc7h2d
              (proj1 initialPage_sevenBit) (proj2 initialPage_sevenBit)
              (proj1 initialPage_parses) (proj2 initialPage_parses)
              ltac:(simpl; lia)) as (H1 & H2 & _ & H3).
  split; [exact H1|]. split.
  - rewrite H2. reflexivity.
  - apply H3. right. exists 3. rewrite H1. split; [simpl; lia | reflexivity].
Defined.
